(** * Minesweeper: a shallow embedding of [minesweeper.c] and its properties

    The development follows the C file function by function.  Arrays of
    [char] are lists of integers read and written by index, [int]s are
    mathematical integers (signed overflow is undefined in C and is outside
    the model, except in [msw_index_int], which follows the index through
    the range of [int]), the calls to [rand()] are answered from an explicit sequence
    of numbers, whatever [srand(time(NULL))] made of the generator, and
    every function that can loop, recurse or touch memory returns a
    [result]. *)

From Stdlib Require Import ZArith Lia.
From stdpp Require Import base numbers list strings.

Open Scope Z_scope.

(** ** Results of running C code *)

(** [Ok a] is a normal return.  [Fault] is an access outside an array, a
    null dereference, a division by zero or a failed allocation.  [NoFuel]
    means the run was cut off: the recursion or loop budget ran out, or the
    sequence of random numbers was exhausted before the loop ended. *)
Inductive result (A : Type) : Type :=
  | Ok (a : A)
  | Fault
  | NoFuel.
Arguments Ok {A} a.
Arguments Fault {A}.
Arguments NoFuel {A}.

Definition bind {A B : Type} (m : result A) (k : A → result B) : result B :=
  match m with
  | Ok a => k a
  | Fault => Fault
  | NoFuel => NoFuel
  end.

Notation "'let*' x := m 'in' k" := (bind m (fun x => k))
  (at level 10, x pattern, m at level 100, k at level 200).

(** [for (i = 0; i < n; i++) body], the loop variable ranging over [l]. *)
Fixpoint for_each {S : Type} (l : list Z) (body : Z → S → result S) (s : S)
  : result S :=
  match l with
  | [] => Ok s
  | i :: l' => let* s' := body i s in for_each l' body s'
  end.

Definition for_range {S : Type} (n : Z) (body : Z → S → result S) (s : S)
  : result S :=
  for_each (seqZ 0 n) body s.

(** ** Arrays of [char] *)

(** The element of [a] at the C index [i], if [i] is inside the array. *)
Definition look (a : list Z) (i : Z) : option Z :=
  if bool_decide (0 ≤ i) then a !! Z.to_nat i else None.

(** [a[i]] as an rvalue. *)
Definition rd (a : list Z) (i : Z) : result Z :=
  match look a i with
  | Some x => Ok x
  | None => Fault
  end.

(** [a[i] = x]. *)
Definition wr (a : list Z) (i x : Z) : result (list Z) :=
  if bool_decide (0 ≤ i < Z.of_nat (length a)) then Ok (<[Z.to_nat i := x]> a)
  else Fault.

(** [c++] on a [char], with the wrap of a signed 8-bit [char]. *)
Definition char_incr (x : Z) : Z :=
  if bool_decide (x = 127) then -128 else x + 1.

(** [smb_new(char, n)] of libstephen: a fresh block of [n] chars.  What the
    block holds is indeterminate in C; every caller below overwrites all of
    it before reading.  A negative [n] cannot be served. *)
Definition smb_new (n : Z) : result (list Z) :=
  if bool_decide (0 ≤ n) then Ok (replicate (Z.to_nat n) 0) else Fault.

(** ** minesweeper.h *)

(** The header is not part of the sources at hand.  Its four cell codes are
    parameters of the development; [char] is taken to be signed. *)
Class msw_header : Type := {
  MSW_CLEAR : Z;
  MSW_MINE : Z;
  MSW_UNKNOWN : Z;
  MSW_FLAG : Z
}.

(** What the code silently relies on: the nine codes [MSW_CLEAR + k] that
    the counting pass can produce are chars, none of them is the code of a
    mine, and the two codes that only the visible board uses are different
    from each other and from all codes of the true grid. *)
Class msw_header_ok (H : msw_header) : Prop := {
  clear_char : -128 ≤ MSW_CLEAR ∧ MSW_CLEAR + 8 ≤ 127;
  mine_not_count : MSW_MINE < MSW_CLEAR ∨ MSW_CLEAR + 8 < MSW_MINE;
  unknown_not_count : MSW_UNKNOWN < MSW_CLEAR ∨ MSW_CLEAR + 8 < MSW_UNKNOWN;
  flag_not_count : MSW_FLAG < MSW_CLEAR ∨ MSW_CLEAR + 8 < MSW_FLAG;
  unknown_not_mine : MSW_UNKNOWN ≠ MSW_MINE;
  flag_not_mine : MSW_FLAG ≠ MSW_MINE;
  unknown_not_flag : MSW_UNKNOWN ≠ MSW_FLAG
}.

(** Modelled from the spec: the codes of the missing [minesweeper.h], for
    the examples.  The spec wants a count displayed as its digit, and the
    code makes the count [k] as [MSW_CLEAR + k], so [MSW_CLEAR] is ['0'];
    ['*'], ['?'] and ['F'] stand for the glyphs of a mine, of an unknown cell
    and of a flag, which the spec leaves open. *)
Definition ascii_header : msw_header :=
  {| MSW_CLEAR := 48; MSW_MINE := 42; MSW_UNKNOWN := 63; MSW_FLAG := 70 |}.

(** [struct smb_mine], with the fields that the code uses (the declaration
    is in the missing header): [grid] is [None] while the pointer is
    [NULL]. *)
Record smb_mine : Type := {
  rows : Z;
  columns : Z;
  mines : Z;
  grid : option (list Z);
  visible : list Z
}.

Definition with_grid (obj : smb_mine) (g : list Z) : smb_mine :=
  {| rows := rows obj; columns := columns obj; mines := mines obj;
     grid := Some g; visible := visible obj |}.

Definition with_visible (obj : smb_mine) (v : list Z) : smb_mine :=
  {| rows := rows obj; columns := columns obj; mines := mines obj;
     grid := grid obj; visible := v |}.

(** [game->grid[i]] as an rvalue: a fault while the grid is [NULL]. *)
Definition rd_grid (game : smb_mine) (i : Z) : result Z :=
  match grid game with
  | Some g => rd g i
  | None => Fault
  end.

(** ** minesweeper.c *)

Definition NUM_NEIGHBORS : Z := 8.
Definition rnbr : list Z := [-1; -1; -1; 0; 0; 1; 1; 1].
Definition cnbr : list Z := [-1; 0; 1; -1; 1; -1; 0; 1].

(** [t[n]] for the two offset tables. *)
Definition at_ (t : list Z) (n : Z) : Z := default 0 (t !! Z.to_nat n).

Definition msw_in_bounds (game : smb_mine) (row column : Z) : bool :=
  bool_decide (0 ≤ row) && bool_decide (row < rows game) &&
  bool_decide (0 ≤ column) && bool_decide (column < columns game).

Definition msw_index (game : smb_mine) (row column : Z) : Z :=
  row * columns game + column.

Section Code.
Context {H : msw_header}.

(** The [while (mines > 0)] loop of [msw_generate_grid].  [rs] holds the
    values that the coming calls of [rand()] return. *)
Fixpoint place_mines (ncells : Z) (mines : Z) (rs : list N) (g : list Z)
  : result (list Z * list N) :=
  match rs with
  | [] => if bool_decide (0 < mines) then NoFuel else Ok (g, [])
  | x :: rs' =>
      if bool_decide (0 < mines) then
        if bool_decide (ncells = 0) then Fault
        else
          let i := Z.rem (Z.of_N x) ncells in
          let* c := rd g i in
          if bool_decide (c = MSW_CLEAR) then
            let* g' := wr g i MSW_MINE in
            place_mines ncells (mines - 1) rs' g'
          else place_mines ncells mines rs' g
      else Ok (g, rs)
  end.

(** The body of the innermost loop of [msw_generate_grid]: neighbour [n] of
    the mine at [(i, j)]. *)
Definition count_neighbor (obj : smb_mine) (i j n : Z) (g : list Z)
  : result (list Z) :=
  let r := i + at_ rnbr n in
  let c := j + at_ cnbr n in
  if msw_in_bounds obj r c then
    let* x := rd g (msw_index obj r c) in
    if bool_decide (x ≠ MSW_MINE) then
      let* y := rd g (msw_index obj r c) in
      wr g (msw_index obj r c) (char_incr y)
    else Ok g
  else Ok g.

(** The third part of [msw_generate_grid]: the loops over [i], [j] and [n]. *)
Definition count_pass (obj : smb_mine) (g : list Z) : result (list Z) :=
  for_range (rows obj) (fun i g =>
    for_range (columns obj) (fun j g =>
      let* x := rd g (msw_index obj i j) in
      if bool_decide (x = MSW_MINE) then
        for_range NUM_NEIGHBORS (count_neighbor obj i j) g
      else Ok g) g) g.

Definition msw_generate_grid (obj : smb_mine) (rs : list N)
  : result (smb_mine * list N) :=
  match grid obj with
  | None => Fault
  | Some g =>
      let ncells := rows obj * columns obj in
      let* g1 := for_range (rows obj * columns obj) (fun i g => wr g i MSW_CLEAR) g in
      let* (g2, rs') := place_mines ncells (mines obj) rs g1 in
      let* g3 := count_pass obj g2 in
      Ok (with_grid obj g3, rs')
  end.

(** The [do ... while] of [msw_initial_grid]. *)
Fixpoint generate_until_clear (fuel : nat) (obj : smb_mine) (r c : Z)
  (rs : list N) : result (smb_mine * list N) :=
  match fuel with
  | O => NoFuel
  | S fuel' =>
      let* (obj1, rs1) := msw_generate_grid obj rs in
      let* x := rd_grid obj1 (msw_index obj1 r c) in
      if bool_decide (x ≠ MSW_CLEAR) then generate_until_clear fuel' obj1 r c rs1
      else Ok (obj1, rs1)
  end.

Definition msw_initial_grid (fuel : nat) (obj : smb_mine) (r c : Z)
  (rs : list N) : result (smb_mine * list N) :=
  let* g := smb_new (rows obj * columns obj) in
  generate_until_clear fuel (with_grid obj g) r c rs.

(** [smb_mine_init] fills the object it is given; here it returns it. *)
Definition smb_mine_init (rows columns mines : Z) : result smb_mine :=
  let ncells := rows * columns in
  let* v := smb_new ncells in
  let* v' := for_range (rows * columns) (fun i v => wr v i MSW_UNKNOWN) v in
  Ok {| rows := rows; columns := columns; mines := mines;
        grid := None; visible := v' |}.

Definition smb_mine_create (rows columns mines : Z) : result smb_mine :=
  smb_mine_init rows columns mines.

(** [msw_dig].  The state is the game and the random numbers still to come;
    [fuel] bounds the depth of the recursion (and, at the first dig, the
    number of grids that are tried). *)
Fixpoint msw_dig (fuel : nat) (game : smb_mine) (rs : list N) (row column : Z)
  : result (Z * smb_mine * list N) :=
  match fuel with
  | O => NoFuel
  | S fuel' =>
      let index := msw_index game row column in
      if negb (msw_in_bounds game row column) then Ok (0, game, rs)
      else
        let* (game, rs) :=
          match grid game with
          | None => msw_initial_grid fuel' game row column rs
          | Some _ => Ok (game, rs)
          end in
        let* g := rd_grid game index in
        let* v := rd (visible game) index in
        if bool_decide (g = MSW_CLEAR) && bool_decide (v ≠ MSW_CLEAR) then
          let* v' := wr (visible game) index MSW_CLEAR in
          let* (game', rs') :=
            for_range NUM_NEIGHBORS (fun n st =>
              let* (_, game', rs') :=
                msw_dig fuel' (fst st) (snd st)
                  (row + at_ rnbr n) (column + at_ cnbr n) in
              Ok (game', rs')) (with_visible game v', rs) in
          Ok (1, game', rs')
        else if bool_decide (g = MSW_MINE) then
          let* v' := wr (visible game) index MSW_MINE in
          Ok (-1, with_visible game v', rs)
        else if bool_decide (v = MSW_FLAG) then Ok (1, game, rs)
        else
          let* v' := wr (visible game) index g in
          Ok (1, with_visible game v', rs)
  end.

(** [msw_dig] with a record of the calls that took the branch of the mine:
    the cells are listed in the order in which they blew up.  The record is
    not part of the program. *)
Fixpoint msw_dig_log (fuel : nat) (game : smb_mine) (rs : list N)
  (row column : Z) : result (Z * smb_mine * list N * list (Z * Z)) :=
  match fuel with
  | O => NoFuel
  | S fuel' =>
      let index := msw_index game row column in
      if negb (msw_in_bounds game row column) then Ok (0, game, rs, [])
      else
        let* (game, rs) :=
          match grid game with
          | None => msw_initial_grid fuel' game row column rs
          | Some _ => Ok (game, rs)
          end in
        let* g := rd_grid game index in
        let* v := rd (visible game) index in
        if bool_decide (g = MSW_CLEAR) && bool_decide (v ≠ MSW_CLEAR) then
          let* v' := wr (visible game) index MSW_CLEAR in
          let* (game', rs', log) :=
            for_range NUM_NEIGHBORS (fun n st =>
              let* (_, game', rs', log') :=
                msw_dig_log fuel' (fst (fst st)) (snd (fst st))
                  (row + at_ rnbr n) (column + at_ cnbr n) in
              Ok (game', rs', snd st ++ log')) (with_visible game v', rs, []) in
          Ok (1, game', rs', log)
        else if bool_decide (g = MSW_MINE) then
          let* v' := wr (visible game) index MSW_MINE in
          Ok (-1, with_visible game v', rs, [(row, column)])
        else if bool_decide (v = MSW_FLAG) then Ok (1, game, rs, [])
        else
          let* v' := wr (visible game) index g in
          Ok (1, with_visible game v', rs, [])
  end.

(** [msw_flag]. *)
Definition msw_flag (game : smb_mine) (r c : Z) : result (Z * smb_mine) :=
  let index := msw_index game r c in
  let* v := rd (visible game) index in
  if bool_decide (v = MSW_UNKNOWN) then
    let* v' := wr (visible game) index MSW_FLAG in
    Ok (1, with_visible game v')
  else Ok (1, game).

End Code.

(** ** Notions used in the statements *)

(** Forget the record of [msw_dig_log]. *)
Definition drop_log (m : result (Z * smb_mine * list N * list (Z * Z)))
  : result (Z * smb_mine * list N) :=
  let* (ret, game, rs, _) := m in Ok (ret, game, rs).

(** A boolean test on every cell of the board, in the order of the loops. *)
Definition all_cells (game : smb_mine) (P : Z → Z → bool) : bool :=
  forallb (fun i => forallb (fun j => P i j) (seqZ 0 (columns game)))
    (seqZ 0 (rows game)).

(** The shape of a game: non-negative sides, and both arrays (the grid once
    it exists) hold [rows * columns] cells. *)
Definition wf_game (game : smb_mine) : bool :=
  bool_decide (0 ≤ rows game) && bool_decide (0 ≤ columns game) &&
  bool_decide (Z.of_nat (length (visible game)) = rows game * columns game) &&
  match grid game with
  | Some g => bool_decide (Z.of_nat (length g) = rows game * columns game)
  | None => true
  end.

Section Notions.
Context {H : msw_header}.

(** Cell [(i, j)] is on the board and holds a mine in [g]. *)
Definition mine_at (game : smb_mine) (g : list Z) (i j : Z) : bool :=
  msw_in_bounds game i j &&
  bool_decide (look g (msw_index game i j) = Some MSW_MINE).

(** The direct recount: how many of the eight neighbours of [(i, j)] are on
    the board and hold a mine. *)
Definition mine_neighbours (game : smb_mine) (g : list Z) (i j : Z) : Z :=
  Z.of_nat (length (filter
    (fun n => mine_at game g (i + at_ rnbr n) (j + at_ cnbr n))
    (seqZ 0 NUM_NEIGHBORS))).

(** The value the recount gives cell [(i, j)]. *)
Definition recount (game : smb_mine) (g : list Z) (i j : Z) : Z :=
  if mine_at game g i j then MSW_MINE
  else MSW_CLEAR + mine_neighbours game g i j.

(** Every cell of [g] holds what the recount of [g] gives it. *)
Definition counts_consistent (game : smb_mine) (g : list Z) : bool :=
  all_cells game (fun i j =>
    bool_decide (look g (msw_index game i j) = Some (recount game g i j))).

(** The cells of [g] that hold a mine, by index, and their number. *)
Definition mine_cells (g : list Z) : list Z :=
  filter (fun k => look g k = Some MSW_MINE) (seqZ 0 (Z.of_nat (length g))).

Definition mine_count (g : list Z) : Z := Z.of_nat (length (mine_cells g)).

(** The cells that are neither [(r, c)] nor one of its neighbours, by index:
    where a mine may lie if [(r, c)] is to be clear. *)
Definition far_cells (game : smb_mine) (r c : Z) : list Z :=
  filter (fun k =>
            ¬ (Z.abs (k `div` columns game - r) ≤ 1 ∧
               Z.abs (k `mod` columns game - c) ≤ 1))
    (seqZ 0 (rows game * columns game)).

(** A flag on a cell that is neither clear nor a mine: [msw_dig] leaves it
    alone. *)
Definition protected (g v : list Z) (i : Z) : Prop :=
  look v i = Some MSW_FLAG ∧ look g i ≠ Some MSW_CLEAR ∧
  look g i ≠ Some MSW_MINE.

(** Nothing more will be shown at index [i]: the visible cell shows the true
    one, or it is protected. *)
Definition settled (g v : list Z) (i : Z) : Prop :=
  look v i = look g i ∨ protected g v i.

#[global] Instance settled_dec g v i : Decision (settled g v i).
Proof. unfold settled, protected. apply _. Defined.

(** What every state of a session satisfies: around a clear cell that is
    shown as clear the flood has already passed, so all its neighbours on the
    board are settled. *)
Definition flood_closed (game : smb_mine) (g : list Z) : bool :=
  all_cells game (fun i j =>
    if bool_decide (look (visible game) (msw_index game i j) = Some MSW_CLEAR)
       && bool_decide (look g (msw_index game i j) = Some MSW_CLEAR)
    then
      forallb (fun n =>
        let r := i + at_ rnbr n in
        let c := j + at_ cnbr n in
        negb (msw_in_bounds game r c) ||
        bool_decide (settled g (visible game) (msw_index game r c)))
        (seqZ 0 NUM_NEIGHBORS)
    else true).

(** What every state of a session satisfies: a visible cell is unknown, or
    flagged, or shows the true cell. *)
Definition shown_true (game : smb_mine) : bool :=
  forallb (fun k =>
    bool_decide (look (visible game) k = Some MSW_UNKNOWN) ||
    bool_decide (look (visible game) k = Some MSW_FLAG) ||
    match grid game with
    | Some g => bool_decide (look (visible game) k = look g k)
    | None => false
    end)
    (seqZ 0 (Z.of_nat (length (visible game)))).

(** The region of [(r, c)]: the clear cells of the board linked to [(r, c)]
    by a chain of clear cells, each a neighbour of the one before. *)
Inductive region (game : smb_mine) (g : list Z) (r c : Z) : Z → Z → Prop :=
  | region_start :
      msw_in_bounds game r c = true →
      look g (msw_index game r c) = Some MSW_CLEAR →
      region game g r c r c
  | region_step x y n :
      region game g r c x y →
      0 ≤ n < NUM_NEIGHBORS →
      msw_in_bounds game (x + at_ rnbr n) (y + at_ cnbr n) = true →
      look g (msw_index game (x + at_ rnbr n) (y + at_ cnbr n))
        = Some MSW_CLEAR →
      region game g r c (x + at_ rnbr n) (y + at_ cnbr n).

(** The cells of the board next to a cell of the region. *)
Definition beside_region (game : smb_mine) (g : list Z) (r c x y : Z) : Prop :=
  msw_in_bounds game x y = true ∧
  ∃ a b n, region game g r c a b ∧ 0 ≤ n < NUM_NEIGHBORS ∧
           x = a + at_ rnbr n ∧ y = b + at_ cnbr n.

(** The border of the region: the cells beside it that are not clear. *)
Definition border (game : smb_mine) (g : list Z) (r c x y : Z) : Prop :=
  beside_region game g r c x y ∧
  look g (msw_index game x y) ≠ Some MSW_CLEAR.

(** The cells on which a dig at [(r, c)] can act: [(r, c)] itself and the
    cells beside its region. *)
Definition dug (game : smb_mine) (g : list Z) (r c x y : Z) : Prop :=
  msw_in_bounds game x y = true ∧
  ((x = r ∧ y = c) ∨ beside_region game g r c x y).

(** Clear cells still to be shown: the measure of the flood. *)
Definition todo (g v : list Z) : nat :=
  length (filter
    (fun k => look g k = Some MSW_CLEAR ∧ look v k ≠ Some MSW_CLEAR)
    (seqZ 0 (Z.of_nat (length v)))).

(** From [v] to [v']: every cell that changed now shows the true cell, was
    not protected, and is one of the cells a dig at [(row, col)] acts on. *)
Definition reveals (game : smb_mine) (g : list Z) (row col : Z)
  (v v' : list Z) : Prop :=
  length v' = length v ∧
  ∀ k, look v' k ≠ look v k →
    look v' k = look g k ∧ ¬ protected g v k ∧
    ∃ x y, dug game g row col x y ∧ k = msw_index game x y.

(** From [v] to [v']: around every clear cell that was not shown as clear and
    now is, all neighbours on the board are settled. *)
Definition floods (game : smb_mine) (g v v' : list Z) : Prop :=
  ∀ x y, msw_in_bounds game x y = true →
    look v' (msw_index game x y) = Some MSW_CLEAR →
    look g (msw_index game x y) = Some MSW_CLEAR →
    look v (msw_index game x y) ≠ Some MSW_CLEAR →
    ∀ n, 0 ≤ n < NUM_NEIGHBORS →
      msw_in_bounds game (x + at_ rnbr n) (y + at_ cnbr n) = true →
      settled g v' (msw_index game (x + at_ rnbr n) (y + at_ cnbr n)).

(** Every cell in the record of a dig at [(row, col)] is a mine on which the
    dig acted. *)
Definition log_ok (game : smb_mine) (g : list Z) (row col : Z)
  (log : list (Z * Z)) : Prop :=
  ∀ x y, (x, y) ∈ log →
    dug game g row col x y ∧ look g (msw_index game x y) = Some MSW_MINE.

(** What a call of [msw_dig] at [(row, col)] that returned has done to a game
    whose grid [g] exists. *)
Record dig_post (game : smb_mine) (g : list Z) (row col : Z)
  (game' : smb_mine) (log : list (Z * Z)) : Prop := {
  post_rows : rows game' = rows game;
  post_columns : columns game' = columns game;
  post_mines : mines game' = mines game;
  post_grid : grid game' = Some g;
  post_reveals : reveals game g row col (visible game) (visible game');
  post_here :
    msw_in_bounds game row col = true →
    settled g (visible game') (msw_index game row col);
  post_floods : floods game g (visible game) (visible game');
  post_log : log_ok game g row col log
}.

(** The invariant of the loop over the neighbours in [msw_dig], after the
    neighbours in [pre] have been dug; [v1] is the visible board when the
    loop starts. *)
Definition flood_inv (game : smb_mine) (g : list Z) (row col : Z)
  (v1 : list Z) (rs : list N) (pre : list Z)
  (st : smb_mine * list N * list (Z * Z)) : Prop :=
  snd (fst st) = rs ∧
  rows (fst (fst st)) = rows game ∧
  columns (fst (fst st)) = columns game ∧
  mines (fst (fst st)) = mines game ∧
  grid (fst (fst st)) = Some g ∧
  reveals game g row col v1 (visible (fst (fst st))) ∧
  (∀ n, n ∈ pre →
     msw_in_bounds game (row + at_ rnbr n) (col + at_ cnbr n) = true →
     settled g (visible (fst (fst st)))
       (msw_index game (row + at_ rnbr n) (col + at_ cnbr n))) ∧
  floods game g v1 (visible (fst (fst st))) ∧
  log_ok game g row col (snd st).

(** Every cell of [g] is clear or a mine: the grid between the placing of
    the mines and the counting pass. *)
Definition placed (g : list Z) : Prop :=
  ∀ k x, look g k = Some x → x = MSW_CLEAR ∨ x = MSW_MINE.

(** The invariant of the counting pass.  [D x y n] says that the pass is
    done with neighbour [n] of cell [(x, y)].  A mine of the placed grid [g0]
    is still a mine; any other cell has been incremented once for each mine
    beside it whose step towards the cell is done: the mine lies at offset
    [m] from the cell, and the cell at offset [7 - m] from the mine. *)
Definition count_inv (game : smb_mine) (g0 : list Z) (D : Z → Z → Z → Prop)
  `{!∀ x y n, Decision (D x y n)} (g : list Z) : Prop :=
  length g = length g0 ∧
  ∀ a b, msw_in_bounds game a b = true →
    look g (msw_index game a b) =
    Some (if mine_at game g0 a b then MSW_MINE
          else MSW_CLEAR + Z.of_nat (length (filter
                 (fun m => mine_at game g0 (a + at_ rnbr m) (b + at_ cnbr m) ∧
                           D (a + at_ rnbr m) (b + at_ cnbr m) (7 - m))
                 (seqZ 0 NUM_NEIGHBORS)))).

(** Random numbers on which the generation for a first dig at [(r, c)]
    returns at once: the first [mines] cells away from [(r, c)]. *)
Definition far_stream (game : smb_mine) (r c : Z) : list N :=
  Z.to_N <$> take (Z.to_nat (mines game)) (far_cells game r c).

(** The operations of a session and their run, each dig with its budget. *)
Inductive op : Type :=
  | Dig (fuel : nat) (row column : Z)
  | Flag (row column : Z).

Definition step (o : op) (st : smb_mine * list N)
  : result (smb_mine * list N) :=
  match o with
  | Dig fuel row column =>
      let* (_, game, rs) := msw_dig fuel (fst st) (snd st) row column in
      Ok (game, rs)
  | Flag row column =>
      let* (_, game) := msw_flag (fst st) row column in
      Ok (game, snd st)
  end.

Fixpoint run (os : list op) (st : smb_mine * list N)
  : result (smb_mine * list N) :=
  match os with
  | [] => Ok st
  | o :: os' => let* st' := step o st in run os' st'
  end.

End Notions.

(** What every state of a session satisfies: the game is well formed, its
    visible board shows only true values, and once the grid exists its
    counts are consistent and the visible board is closed under the flood. *)
Definition session_ok `{H : msw_header} (game : smb_mine) : bool :=
  wf_game game && shown_true game &&
  match grid game with
  | Some g => counts_consistent game g && flood_closed game g
  | None => true
  end.

(** ** Sample boards, with the codes of [ascii_header] *)

(** Three by three, one mine in the last cell, nothing shown yet. *)
Definition corner_mine : smb_mine :=
  {| rows := 3; columns := 3; mines := 1;
     grid := Some [48; 48; 48; 48; 49; 49; 48; 49; 42];
     visible := [63; 63; 63; 63; 63; 63; 63; 63; 63] |}.

(** One row of seven cells with the mine in the middle, after a first dig at
    the right end and a flag on the count at [(0, 2)]. *)
Definition row_game : smb_mine :=
  {| rows := 1; columns := 7; mines := 1;
     grid := Some [48; 48; 49; 42; 49; 48; 48];
     visible := [63; 63; 70; 63; 49; 48; 48] |}.

(** A fresh game of one row of seven cells with one mine. *)
Definition row_fresh : smb_mine :=
  {| rows := 1; columns := 7; mines := 1; grid := None;
     visible := [63; 63; 63; 63; 63; 63; 63] |}.

(** A fresh game of two by two cells with one mine. *)
Definition small_fresh : smb_mine :=
  {| rows := 2; columns := 2; mines := 1; grid := None;
     visible := [63; 63; 63; 63] |}.

#[global] Arguments for_range : simpl never.
#[global] Arguments rd : simpl never.
#[global] Arguments wr : simpl never.
#[global] Arguments look : simpl never.
#[global] Arguments rd_grid : simpl never.
#[global] Arguments smb_new : simpl never.
#[global] Arguments at_ : simpl never.
#[global] Arguments msw_in_bounds : simpl never.
#[global] Arguments msw_index : simpl never.
#[global] Arguments msw_initial_grid : simpl never.
#[global] Arguments msw_generate_grid : simpl never.

(** ** The index in [int] *)

(** The range of an [int] of 32 bits. *)
Definition INT_MIN : Z := -2147483648.
Definition INT_MAX : Z := 2147483647.

(** The result of an operation on [int]s whose mathematical value is [x]:
    outside the range of [int] the behaviour is undefined, a [Fault]
    here. *)
Definition int_result (x : Z) : result Z :=
  if bool_decide (INT_MIN ≤ x ≤ INT_MAX) then Ok x else Fault.

(** [msw_index] as the C function computes it, in [int]: the product, then
    the sum. *)
Definition msw_index_int (game : smb_mine) (row column : Z) : result Z :=
  let* p := int_result (row * columns game) in
  int_result (p + column).

(** ** The mines around a cell *)

(** The mines of [g] in the block of three by three cells around [(i, j)],
    the cell itself left out: a count that does not go through the tables
    [rnbr] and [cnbr]. *)
Definition mines_around `{H : msw_header} (game : smb_mine) (g : list Z)
  (i j : Z) : Z :=
  Z.of_nat (length (filter
    (fun k => Z.abs (k `div` columns game - i) ≤ 1 ∧
              Z.abs (k `mod` columns game - j) ≤ 1 ∧
              ¬ (k `div` columns game = i ∧ k `mod` columns game = j))
    (mine_cells g))).

(** ** Output *)

(** A stream is the list of the bytes written to it so far; a write that
    fails is outside the model. *)

(** The bytes of a string literal that has no escape sequence. *)
Definition bytes (s : string) : list Z :=
  (fun a => Z.of_N (Ascii.N_of_ascii a)) <$> String.list_ascii_of_string s.

(** ['\n'] and ['\e']. *)
Definition NL : Z := 10.
Definition ESC : Z := 27.

(** [fputc(c, stream)]: the [int] is written as an [unsigned char]. *)
Definition fputc (c : Z) (stream : list Z) : list Z := stream ++ [c `mod` 256].

(** [fprintf(stream, s)] and [printf(s)] for a format [s] that holds no
    conversion. *)
Definition fputs (s : list Z) (stream : list Z) : list Z := stream ++ s.

(** The decimal digits of [n], for [n] not negative, the first one first. *)
Fixpoint decimal_fuel (fuel : nat) (n : Z) : list Z :=
  match fuel with
  | O => []
  | S fuel' =>
      (if bool_decide (n < 10) then [] else decimal_fuel fuel' (n `div` 10))
      ++ [48 + n `mod` 10]
  end.

Definition decimal (n : Z) : list Z :=
  decimal_fuel (S (Z.to_nat (Z.log2 n))) n.

(** The conversion [%2d] of [fprintf], for [n] not negative: the digits of
    [n], after a space when there is only one. *)
Definition fmt_2d (n : Z) : list Z :=
  replicate (2 - length (decimal n)) 32 ++ decimal n.

(** The constant of the missing header that selects the visible board in
    [msw_print_buf]; like the cell codes it is a parameter. *)
Class msw_print_header : Type := {
  MSW_PRINT_VISIBLE : Z
}.

(** Modelled from the spec: a value for the selector of the visible board,
    for the examples.  The spec names the two selectors and gives them no
    number. *)
Definition sample_print_header : msw_print_header :=
  {| MSW_PRINT_VISIBLE := 1 |}.

Section Printing.
Context {H : msw_header} {P : msw_print_header}.

(** [msw_print_buf].  [buffer] is [None] when the pointer is [NULL]. *)
Definition msw_print_buf (game : smb_mine) (stream : list Z) (which : Z)
  : result (list Z) :=
  let buffer :=
    if bool_decide (which = MSW_PRINT_VISIBLE) then Some (visible game)
    else grid game in
  let stream := fputs (bytes "  | ") stream in
  let* stream :=
    for_range (columns game) (fun i stream =>
      if bool_decide (i `rem` 10 = 0)
      then Ok (fputc (48 + i `quot` 10) stream)
      else Ok (fputc 32 stream)) stream in
  let stream := fputs (NL :: bytes "  | ") stream in
  let* stream :=
    for_range (columns game) (fun i stream =>
      Ok (fputc (48 + i `rem` 10) stream)) stream in
  let stream := fputs (NL :: bytes "--|-") stream in
  let* stream :=
    for_range (columns game) (fun i stream => Ok (fputc 45 stream)) stream in
  let stream := fputc NL stream in
  for_range (rows game) (fun i stream =>
    let stream := fputs (fmt_2d i ++ bytes "| ") stream in
    let* stream :=
      for_range (columns game) (fun j stream =>
        let* cell :=
          match buffer with
          | Some b => rd b (msw_index game i j)
          | None => Fault
          end in
        Ok (fputc cell stream)) stream in
    Ok (fputc NL stream)) stream.

(** [msw_print].  The C function is declared to return an [int] and returns
    the value of a call of [msw_print_buf], which has none; its only caller
    drops the result, and so does the model. *)
Definition msw_print (game : smb_mine) (stream : list Z) : result (list Z) :=
  msw_print_buf game stream MSW_PRINT_VISIBLE.

(** [cls], with the standard output as [stream]. *)
Definition cls (stream : list Z) : list Z :=
  fputs (ESC :: bytes "[1;1H" ++ ESC :: bytes "[2J") stream.

End Printing.

(** ** The command loop *)

(** What one call [scanf("%c %d, %d", &op, &r, &c)] has assigned.  The three
    conversions are tried in this order and the call stops at the first one
    that fails, or at the end of the input: a prefix of the three variables
    is assigned, the others keep their values. *)
Inductive scanned : Type :=
  | scan_none
  | scan_op (op : Z)
  | scan_op_r (op r : Z)
  | scan_all (op r c : Z).

(** The state of the loop of [main]: its variables [status], [op], [r] and
    [c], the game, the random numbers to come and the standard output. *)
Record main_state : Type := {
  st_status : Z;
  st_op : Z;
  st_r : Z;
  st_c : Z;
  st_game : smb_mine;
  st_rand : list N;
  st_out : list Z
}.

Definition scanf (s : scanned) (st : main_state) : Z * Z * Z :=
  match s with
  | scan_none => (st_op st, st_r st, st_c st)
  | scan_op op => (op, st_r st, st_c st)
  | scan_op_r op r => (op, r, st_c st)
  | scan_all op r c => (op, r, c)
  end.

Section Main.
Context {H : msw_header} {P : msw_print_header}.

(** The body of the [while] loop of [main]; ['d'] is 100 and ['>'] is 62.
    [fuel] is the budget of the dig. *)
Definition main_iter (fuel : nat) (s : scanned) (st : main_state)
  : result main_state :=
  let out := fputs (bytes ">") (st_out st) in
  let '(op, r, c) := scanf s st in
  let* (status, game, rs) :=
    if bool_decide (op = 100) then msw_dig fuel (st_game st) (st_rand st) r c
    else
      let* (status, game) := msw_flag (st_game st) r c in
      Ok (status, game, st_rand st) in
  let out := cls out in
  let* out := msw_print game out in
  Ok {| st_status := status; st_op := op; st_r := r; st_c := c;
        st_game := game; st_rand := rs; st_out := out |}.

(** [while (status == 1) ...], one call of [scanf] for each element of
    [ins]; the run is cut off when [ins] is used up. *)
Fixpoint main_loop (fuel : nat) (ins : list scanned) (st : main_state)
  : result main_state :=
  match ins with
  | [] => if bool_decide (st_status st = 1) then NoFuel else Ok st
  | s :: ins' =>
      if bool_decide (st_status st = 1) then
        let* st' := main_iter fuel s st in main_loop fuel ins' st'
      else Ok st
  end.

(** [main].  [op], [r] and [c] are not initialised: [op0], [r0] and [c0] are
    the values they happen to hold.  The function returns its exit status
    and what it has written.  The release of the two arrays by
    [smb_mine_destroy] leaves no trace here, where memory is not
    reclaimed. *)
Definition main (op0 r0 c0 : Z) (fuel : nat) (rs : list N)
  (ins : list scanned) : result (Z * list Z) :=
  let* game := smb_mine_init 10 10 20 in
  let out := cls [] in
  let* out := msw_print game out in
  let* st :=
    main_loop fuel ins
      {| st_status := 1; st_op := op0; st_r := r0; st_c := c0;
         st_game := game; st_rand := rs; st_out := out |} in
  Ok (0, st_out st).

End Main.

#[global] Arguments msw_print_buf : simpl never.
#[global] Arguments msw_print : simpl never.
#[global] Arguments main_iter : simpl never.

(** * Proofs *)

(** ** The result monad, arrays and loops *)

Lemma bind_Ok {A B : Type} (m : result A) (k : A → result B) (b : B) :
  bind m k = Ok b ↔ ∃ a, m = Ok a ∧ k a = Ok b.
Proof.
  destruct m as [a| |]; simpl.
  - split; [intros Hk; by exists a|intros (a' & [= <-] & Hk); done].
  - split; [done|intros (a' & Ha & _); done].
  - split; [done|intros (a' & Ha & _); done].
Qed.

Lemma look_Some (a : list Z) i x :
  look a i = Some x ↔ 0 ≤ i ∧ a !! Z.to_nat i = Some x.
Proof.
  unfold look. case_bool_decide as Hi.
  - split; [by intros Hx|by intros [_ Hx]].
  - split; [done|by intros [? _]].
Qed.

Lemma look_range (a : list Z) i x :
  look a i = Some x → 0 ≤ i < Z.of_nat (length a).
Proof.
  rewrite look_Some. intros [Hi Hx]. apply lookup_lt_Some in Hx. lia.
Qed.

Lemma look_in_range (a : list Z) i :
  0 ≤ i < Z.of_nat (length a) → ∃ x, look a i = Some x.
Proof.
  intros Hi. destruct (lookup_lt_is_Some_2 a (Z.to_nat i)) as [x Hx]; [lia|].
  exists x. apply look_Some. split; [lia|done].
Qed.

Lemma look_None (a : list Z) i :
  look a i = None ↔ ¬ (0 ≤ i < Z.of_nat (length a)).
Proof.
  split.
  - intros Hn Hi. destruct (look_in_range a i Hi) as [x Hx]. congruence.
  - intros Hi. destruct (look a i) as [x|] eqn:E; [|done].
    apply look_range in E. lia.
Qed.

Lemma look_insert (a : list Z) i j x :
  0 ≤ i < Z.of_nat (length a) →
  look (<[Z.to_nat i := x]> a) j = if bool_decide (j = i) then Some x else look a j.
Proof.
  intros Hi. destruct (decide (j = i)) as [->|Hj].
  - rewrite bool_decide_true by done. unfold look.
    rewrite bool_decide_true by lia. apply list_lookup_insert_eq. lia.
  - rewrite bool_decide_false by done. unfold look.
    case_bool_decide; [|done]. apply list_lookup_insert_ne. lia.
Qed.

Lemma look_insert_eq (a : list Z) i x :
  0 ≤ i < Z.of_nat (length a) → look (<[Z.to_nat i := x]> a) i = Some x.
Proof. intros Hi. rewrite look_insert by done. by rewrite bool_decide_true. Qed.

Lemma look_insert_ne (a : list Z) i j x :
  0 ≤ i → j ≠ i → look (<[Z.to_nat i := x]> a) j = look a j.
Proof.
  intros Hi Hj. unfold look. case_bool_decide; [|done].
  apply list_lookup_insert_ne. lia.
Qed.

Lemma look_insert_id (a : list Z) i x :
  look a i = Some x → <[Z.to_nat i := x]> a = a.
Proof. rewrite look_Some. intros [_ Hx]. by apply list_insert_id. Qed.

Lemma look_ext (a b : list Z) :
  length a = length b → (∀ i, look a i = look b i) → a = b.
Proof.
  intros Hl He. apply list_eq. intros k.
  specialize (He (Z.of_nat k)). unfold look in He.
  rewrite bool_decide_true in He by lia. by rewrite Nat2Z.id in He.
Qed.

Lemma rd_Ok (a : list Z) i x : rd a i = Ok x ↔ look a i = Some x.
Proof.
  unfold rd. destruct (look a i) as [y|]; split; intros Hx; congruence.
Qed.

Lemma rd_look (a : list Z) i x : look a i = Some x → rd a i = Ok x.
Proof. apply rd_Ok. Qed.

Lemma wr_Ok (a : list Z) i x a' :
  wr a i x = Ok a' ↔
  0 ≤ i < Z.of_nat (length a) ∧ a' = <[Z.to_nat i := x]> a.
Proof.
  unfold wr. case_bool_decide as Hi.
  - split; [by intros [= <-]|by intros [_ ->]].
  - split; [done|by intros [? _]].
Qed.

Lemma wr_in_range (a : list Z) i x :
  0 ≤ i < Z.of_nat (length a) → wr a i x = Ok (<[Z.to_nat i := x]> a).
Proof. intros Hi. unfold wr. by rewrite bool_decide_true. Qed.

(** A loop invariant indexed by the iterations already made: every iteration
    returns and re-establishes it, so the loop returns with it. *)
Lemma for_each_inv {S : Type} (P : list Z → S → Prop) l
  (body : Z → S → result S) s :
  P [] s →
  (∀ pre i post s, l = pre ++ i :: post → P pre s →
     ∃ s', body i s = Ok s' ∧ P (pre ++ [i]) s') →
  ∃ s', for_each l body s = Ok s' ∧ P l s'.
Proof.
  intros H0 Hstep.
  cut (∀ post pre s, l = pre ++ post → P pre s →
         ∃ s', for_each post body s = Ok s' ∧ P l s').
  { intros Hc. apply (Hc l [] s); done. }
  clear s H0. induction post as [|i post IH]; intros pre s Hl HP; simpl.
  - exists s. split; [done|]. by rewrite Hl, app_nil_r.
  - destruct (Hstep pre i post s Hl HP) as (s1 & -> & HP1). simpl.
    apply (IH (pre ++ [i])); [|done]. by rewrite <- app_assoc.
Qed.

(** The same for a loop that is known to have returned. *)
Lemma for_each_post {S : Type} (P : list Z → S → Prop) l
  (body : Z → S → result S) s s' :
  P [] s →
  (∀ pre i post s s', l = pre ++ i :: post → P pre s →
     body i s = Ok s' → P (pre ++ [i]) s') →
  for_each l body s = Ok s' → P l s'.
Proof.
  intros H0 Hstep.
  cut (∀ post pre s, l = pre ++ post → P pre s →
         for_each post body s = Ok s' → P l s').
  { intros Hc. apply (Hc l [] s); done. }
  clear s H0. induction post as [|i post IH]; intros pre s Hl HP; simpl.
  - intros [= ->]. by rewrite Hl, app_nil_r.
  - rewrite bind_Ok. intros (s1 & Hb & Hrest).
    apply (IH (pre ++ [i]) s1); [by rewrite <- app_assoc| |done].
    by apply (Hstep pre i post s).
Qed.

(** ** Counting by filters *)

Lemma filter_length_le {A : Type} (P Q : A → Prop)
  `{!∀ x, Decision (P x)} `{!∀ x, Decision (Q x)} (l : list A) :
  (∀ x, x ∈ l → P x → Q x) →
  (length (filter P l) ≤ length (filter Q l))%nat.
Proof.
  induction l as [|a l IH]; intros HPQ; [done|].
  rewrite !filter_cons.
  assert (length (filter P l) ≤ length (filter Q l))%nat as Hl.
  { apply IH. intros x Hx. apply HPQ. by right. }
  destruct (decide (P a)) as [HP|HP].
  - rewrite decide_True by (apply HPQ; [left|done]). simpl. lia.
  - destruct (decide (Q a)); simpl; lia.
Qed.

Lemma filter_length_eq {A : Type} (P Q : A → Prop)
  `{!∀ x, Decision (P x)} `{!∀ x, Decision (Q x)} (l : list A) :
  (∀ x, x ∈ l → (P x ↔ Q x)) →
  length (filter P l) = length (filter Q l).
Proof.
  intros Hiff. apply Nat.le_antisymm; apply filter_length_le;
    intros x Hx; by apply Hiff.
Qed.

(** One element of a duplicate-free list passes from outside the filter to
    inside: one more element passes the filter. *)
Lemma filter_length_flip {A : Type} (P Q : A → Prop)
  `{!∀ x, Decision (P x)} `{!∀ x, Decision (Q x)} (l : list A) x0 :
  NoDup l → x0 ∈ l → ¬ P x0 → Q x0 →
  (∀ x, x ∈ l → x ≠ x0 → (P x ↔ Q x)) →
  length (filter Q l) = S (length (filter P l)).
Proof.
  induction l as [|a l IH]; intros Hnd Hin HnP HQ Hiff.
  - by apply elem_of_nil in Hin.
  - apply NoDup_cons in Hnd as [Ha Hnd]. rewrite !filter_cons.
    apply elem_of_cons in Hin as [<-|Hin].
    + rewrite decide_True by done. rewrite decide_False by done. simpl.
      f_equal. symmetry. apply filter_length_eq.
      intros x Hx. apply Hiff; [by right|]. by intros ->.
    + assert (length (filter Q l) = S (length (filter P l))) as Hl.
      { apply IH; try done. intros x Hx. apply Hiff. by right. }
      assert (P a ↔ Q a) as Hpq.
      { apply Hiff; [left|]. by intros ->. }
      destruct (decide (P a)).
      * rewrite decide_True by tauto. simpl. lia.
      * rewrite decide_False by tauto. lia.
Qed.

(** ** The board *)

Lemma in_bounds_iff game r c :
  msw_in_bounds game r c = true ↔
  0 ≤ r < rows game ∧ 0 ≤ c < columns game.
Proof.
  unfold msw_in_bounds. rewrite !andb_true_iff, !bool_decide_eq_true. lia.
Qed.

Lemma in_bounds_same game game' r c :
  rows game' = rows game → columns game' = columns game →
  msw_in_bounds game' r c = msw_in_bounds game r c.
Proof. unfold msw_in_bounds. by intros -> ->. Qed.

Lemma index_same game game' r c :
  columns game' = columns game → msw_index game' r c = msw_index game r c.
Proof. unfold msw_index. by intros ->. Qed.

Lemma index_range game r c :
  msw_in_bounds game r c = true →
  0 ≤ msw_index game r c < rows game * columns game.
Proof. rewrite in_bounds_iff. unfold msw_index. nia. Qed.

Lemma index_inj game r c r' c' :
  msw_in_bounds game r c = true → msw_in_bounds game r' c' = true →
  msw_index game r c = msw_index game r' c' → r = r' ∧ c = c'.
Proof.
  rewrite !in_bounds_iff. unfold msw_index. intros Hb Hb' He.
  assert (r = r') as -> by nia. lia.
Qed.

Lemma index_div_mod game r c :
  msw_in_bounds game r c = true →
  msw_index game r c `div` columns game = r ∧
  msw_index game r c `mod` columns game = c.
Proof.
  rewrite in_bounds_iff. unfold msw_index. intros [Hr Hc].
  rewrite Z.add_comm. rewrite Z_div_plus, Z_mod_plus by lia.
  rewrite Z.div_small, Z.mod_small by lia. lia.
Qed.

Lemma index_cell game k :
  0 ≤ columns game →
  0 ≤ k < rows game * columns game →
  msw_in_bounds game (k `div` columns game) (k `mod` columns game) = true ∧
  msw_index game (k `div` columns game) (k `mod` columns game) = k.
Proof.
  intros Hc0 Hk. assert (0 < columns game) as Hc.
  { destruct (decide (columns game = 0)) as [E|]; [|lia].
    rewrite E in Hk. lia. }
  pose proof (Z.mod_pos_bound k (columns game) Hc) as Hm.
  pose proof (Z.div_mod k (columns game)) as Hd.
  assert (0 ≤ k `div` columns game) as Hq by (apply Z.div_pos; lia).
  rewrite in_bounds_iff. unfold msw_index. split; [|lia].
  split; [|lia]. split; [done|].
  apply Z.div_lt_upper_bound; lia.
Qed.

Lemma nbr_cases n :
  0 ≤ n < NUM_NEIGHBORS →
  n = 0 ∨ n = 1 ∨ n = 2 ∨ n = 3 ∨ n = 4 ∨ n = 5 ∨ n = 6 ∨ n = 7.
Proof. unfold NUM_NEIGHBORS. lia. Qed.

Lemma elem_of_nbrs n : n ∈ seqZ 0 NUM_NEIGHBORS ↔ 0 ≤ n < NUM_NEIGHBORS.
Proof. rewrite elem_of_seqZ. unfold NUM_NEIGHBORS. lia. Qed.

(** The offsets are symmetric: entry [7 - n] undoes entry [n]. *)
Lemma nbr_opposite n :
  0 ≤ n < NUM_NEIGHBORS →
  at_ rnbr (7 - n) = - at_ rnbr n ∧ at_ cnbr (7 - n) = - at_ cnbr n.
Proof.
  intros Hn. destruct (nbr_cases n Hn) as [->|[->|[->|[->|[->|[->|[->| ->]]]]]]];
    by vm_compute.
Qed.

Lemma nbr_near n :
  0 ≤ n < NUM_NEIGHBORS →
  Z.abs (at_ rnbr n) ≤ 1 ∧ Z.abs (at_ cnbr n) ≤ 1.
Proof.
  intros Hn. destruct (nbr_cases n Hn) as [->|[->|[->|[->|[->|[->|[->| ->]]]]]]];
    by vm_compute.
Qed.

(** Every cell at distance one is reached by one of the eight offsets. *)
Lemma nbr_complete dr dc :
  Z.abs dr ≤ 1 → Z.abs dc ≤ 1 → (dr, dc) ≠ (0, 0) →
  ∃ n, 0 ≤ n < NUM_NEIGHBORS ∧ at_ rnbr n = dr ∧ at_ cnbr n = dc.
Proof.
  intros Hr Hc Hne. unfold NUM_NEIGHBORS.
  assert (dr = -1 ∨ dr = 0 ∨ dr = 1) as [->|[->| ->]] by lia;
    assert (dc = -1 ∨ dc = 0 ∨ dc = 1) as [->|[->| ->]] by lia;
    try done;
    [exists 0|exists 1|exists 2|exists 3|exists 4|exists 5|exists 6|exists 7];
    by vm_compute.
Qed.

Lemma all_cells_spec game (P : Z → Z → bool) :
  all_cells game P = true ↔
  ∀ i j, msw_in_bounds game i j = true → P i j = true.
Proof.
  unfold all_cells. rewrite forallb_forall. split.
  - intros Ha i j Hb. apply in_bounds_iff in Hb as [Hi Hj].
    specialize (Ha i). rewrite forallb_forall in Ha.
    apply Ha; apply list_elem_of_In, elem_of_seqZ; lia.
  - intros Ha i Hi. apply forallb_forall. intros j Hj.
    apply list_elem_of_In, elem_of_seqZ in Hi, Hj.
    apply Ha, in_bounds_iff. lia.
Qed.

Lemma wf_game_spec game :
  wf_game game = true ↔
  0 ≤ rows game ∧ 0 ≤ columns game ∧
  Z.of_nat (length (visible game)) = rows game * columns game ∧
  ∀ g, grid game = Some g → Z.of_nat (length g) = rows game * columns game.
Proof.
  unfold wf_game. rewrite !andb_true_iff, !bool_decide_eq_true.
  destruct (grid game) as [g|].
  - rewrite bool_decide_eq_true. split.
    + intros (((? & ?) & ?) & ?). repeat split; try done. by intros ? [= <-].
    + intros (? & ? & ? & Hg). repeat split; try done. by apply Hg.
  - split.
    + intros (((? & ?) & ?) & _). repeat split; done.
    + intros (? & ? & ? & _). repeat split; done.
Qed.

(** ** The flood of [msw_dig] *)

Section Dig.
Context {H : msw_header}.

Lemma region_clear game g r c x y :
  region game g r c x y →
  msw_in_bounds game x y = true ∧
  look g (msw_index game x y) = Some MSW_CLEAR.
Proof. by destruct 1. Qed.

Lemma region_same game game' g r c x y :
  rows game' = rows game → columns game' = columns game →
  region game' g r c x y → region game g r c x y.
Proof.
  intros Hr Hc. induction 1 as [Hb Hl|x y n _ IH Hn Hb Hl].
  - rewrite (in_bounds_same game game') in Hb by done.
    rewrite (index_same game game') in Hl by done. by constructor.
  - rewrite (in_bounds_same game game') in Hb by done.
    rewrite (index_same game game') in Hl by done. by constructor.
Qed.

(** The region of a neighbour of a clear cell lies in the region of the
    cell. *)
Lemma region_from_nbr game g r c n x y :
  msw_in_bounds game r c = true →
  look g (msw_index game r c) = Some MSW_CLEAR →
  0 ≤ n < NUM_NEIGHBORS →
  region game g (r + at_ rnbr n) (c + at_ cnbr n) x y →
  region game g r c x y.
Proof.
  intros Hb Hl Hn. induction 1 as [Hb' Hl'|x y m _ IH Hm Hb' Hl'].
  - apply region_step; try done. by apply region_start.
  - by apply region_step.
Qed.

Lemma dug_from_nbr game g r c n x y :
  msw_in_bounds game r c = true →
  look g (msw_index game r c) = Some MSW_CLEAR →
  0 ≤ n < NUM_NEIGHBORS →
  dug game g (r + at_ rnbr n) (c + at_ cnbr n) x y →
  dug game g r c x y.
Proof.
  intros Hb Hl Hn [Hbx Hd]. split; [done|]. right. split; [done|].
  destruct Hd as [[-> ->]|[_ (a & b & m & Hreg & Hm & -> & ->)]].
  - exists r, c, n. split; [by apply region_start|done].
  - exists a, b, m. split; [|done]. by apply (region_from_nbr game g r c n).
Qed.

Lemma dug_here game g r c :
  msw_in_bounds game r c = true → dug game g r c r c.
Proof. intros Hb. split; [done|]. by left. Qed.

Lemma settled_mono g v v' k :
  settled g v k →
  (look v' k ≠ look v k → look v' k = look g k) →
  settled g v' k.
Proof.
  intros Hs Hch. destruct (decide (look v' k = look v k)) as [He|Hne].
  - unfold settled, protected in *. by rewrite He.
  - left. by apply Hch.
Qed.

Lemma reveals_refl game g row col v : reveals game g row col v v.
Proof. split; [done|]. intros k Hk. done. Qed.

Lemma floods_refl game g v : floods game g v v.
Proof. intros x y _ Hc _ Hn. done. Qed.

Lemma reveals_settled game g row col v v' k :
  reveals game g row col v v' → settled g v k → settled g v' k.
Proof.
  intros [_ Hr] Hs. apply (settled_mono g v); [done|].
  intros Hne. by apply Hr.
Qed.

(** Showing the true cell at [(row, col)]. *)
Lemma reveals_write game g row col v gi :
  msw_in_bounds game row col = true →
  0 ≤ msw_index game row col < Z.of_nat (length v) →
  look g (msw_index game row col) = Some gi →
  ¬ protected g v (msw_index game row col) →
  reveals game g row col v (<[Z.to_nat (msw_index game row col) := gi]> v).
Proof.
  intros Hb Hr Hg Hnp. split; [by rewrite length_insert|].
  intros k Hk. rewrite look_insert in Hk |- * by done.
  case_bool_decide as Hki; [subst k|done].
  split; [done|]. split; [done|].
  exists row, col. split; [by apply dug_here|done].
Qed.

Lemma reveals_trans game g row col v1 v2 v3 :
  reveals game g row col v1 v2 → reveals game g row col v2 v3 →
  reveals game g row col v1 v3.
Proof.
  intros [Hlen1 H1] [Hlen2 H2]. split; [congruence|].
  intros k Hk. destruct (decide (look v3 k = look v2 k)) as [He|Hne].
  - rewrite He in Hk |- *. by apply H1.
  - destruct (H2 k Hne) as (Hv & Hnp & Hd). split; [done|]. split; [|done].
    intros Hp. apply Hnp.
    destruct (decide (look v2 k = look v1 k)) as [E|NE].
    + unfold protected in *. by rewrite E.
    + by destruct (H1 _ NE) as (_ & Hnp1 & _).
Qed.

Lemma reveals_from_nbr game g row col n v v' :
  msw_in_bounds game row col = true →
  look g (msw_index game row col) = Some MSW_CLEAR →
  0 ≤ n < NUM_NEIGHBORS →
  reveals game g (row + at_ rnbr n) (col + at_ cnbr n) v v' →
  reveals game g row col v v'.
Proof.
  intros Hb Hl Hn [Hlen Hr]. split; [done|]. intros k Hk.
  destruct (Hr k Hk) as (Hv & Hnp & x & y & Hd & ->).
  split; [done|]. split; [done|]. exists x, y. split; [|done].
  by apply (dug_from_nbr game g row col n).
Qed.

Lemma floods_trans game g v1 v2 v3 :
  floods game g v1 v2 → floods game g v2 v3 →
  (∀ k, settled g v2 k → settled g v3 k) →
  floods game g v1 v3.
Proof.
  intros F1 F2 Hm x y Hb Hc3 Hg Hc1 n Hn Hbn.
  destruct (decide (look v2 (msw_index game x y) = Some MSW_CLEAR)) as [E|NE].
  - apply Hm. by apply (F1 x y).
  - by apply (F2 x y).
Qed.

Lemma log_ok_from_nbr game g row col n log :
  msw_in_bounds game row col = true →
  look g (msw_index game row col) = Some MSW_CLEAR →
  0 ≤ n < NUM_NEIGHBORS →
  log_ok game g (row + at_ rnbr n) (col + at_ cnbr n) log →
  log_ok game g row col log.
Proof.
  intros Hb Hl Hn Hlog x y Hxy. destruct (Hlog x y Hxy) as [Hd Hm].
  split; [|done]. by apply (dug_from_nbr game g row col n).
Qed.

Lemma log_ok_app game g row col log1 log2 :
  log_ok game g row col log1 → log_ok game g row col log2 →
  log_ok game g row col (log1 ++ log2).
Proof.
  intros H1 H2 x y Hxy. apply elem_of_app in Hxy as [Hxy|Hxy]; auto.
Qed.

Lemma log_ok_nil game g row col : log_ok game g row col [].
Proof. intros x y Hxy. by apply elem_of_nil in Hxy. Qed.

(** What a call that returned has done, with the board of [game0] (whose
    sides are those of [game]) as the frame of reference. *)
Lemma dig_log_gen fuel :
  ∀ game0 game rs row col g ret game' rs' log,
    rows game = rows game0 → columns game = columns game0 →
    mines game = mines game0 → grid game = Some g →
    msw_dig_log fuel game rs row col = Ok (ret, game', rs', log) →
    rs' = rs ∧ rows game' = rows game ∧ columns game' = columns game ∧
    mines game' = mines game ∧ grid game' = Some g ∧
    reveals game0 g row col (visible game) (visible game') ∧
    (msw_in_bounds game0 row col = true →
     settled g (visible game') (msw_index game0 row col)) ∧
    floods game0 g (visible game) (visible game') ∧
    log_ok game0 g row col log.
Proof.
  induction fuel as [|f IH];
    intros game0 game rs row col g ret game' rs' log Hrows Hcols Hmines Hg
      Hdig;
    [done|].
  simpl in Hdig.
  rewrite (in_bounds_same game0 game), (index_same game0 game) in Hdig by done.
  destruct (msw_in_bounds game0 row col) eqn:Hb; simpl in Hdig.
  2: { injection Hdig as <- <- <- <-.
       split_and!; auto using reveals_refl, floods_refl, log_ok_nil; done. }
  rewrite Hg in Hdig. simpl in Hdig. unfold rd_grid in Hdig.
  rewrite Hg in Hdig.
  apply bind_Ok in Hdig as (gi & Hgi & Hdig). apply rd_Ok in Hgi.
  apply bind_Ok in Hdig as (vi & Hvi & Hdig). apply rd_Ok in Hvi.
  pose proof (look_range _ _ _ Hvi) as Hir.
  set (ix := msw_index game0 row col) in *.
  destruct (bool_decide (gi = MSW_CLEAR) && bool_decide (vi ≠ MSW_CLEAR))
    eqn:HA.
  - (* the cell is clear and not yet shown as clear: flood *)
    apply andb_true_iff in HA as [HA1 HA2].
    apply bool_decide_eq_true in HA1, HA2. subst gi.
    apply bind_Ok in Hdig as (v1 & Hv1 & Hdig).
    apply wr_Ok in Hv1 as [_ ->].
    apply bind_Ok in Hdig as ([[game2 rs2] log2] & Hloop & Hret).
    injection Hret as <- <- <- <-.
    set (v1 := <[Z.to_nat ix := MSW_CLEAR]> (visible game)) in *.
    assert (reveals game0 g row col (visible game) v1) as Hrev1.
    { apply reveals_write; try done. intros (_ & Hp & _). done. }
    unfold for_range in Hloop.
    apply (for_each_post (flood_inv game0 g row col v1 rs)) in Hloop.
    + destruct Hloop as (Hrs & Hr2 & Hc2 & Hm2 & Hg2 & Hrev & Hset & Hfl & Hlog).
      simpl in *. split_and!; try congruence.
      * by apply (reveals_trans game0 g row col _ v1).
      * intros _. apply (reveals_settled game0 g row col v1); [done|].
        left. unfold v1. rewrite look_insert_eq by done. done.
      * intros x y Hbx Hc' Hgx Hcx n Hn Hbn.
        destruct (decide (look v1 (msw_index game0 x y) = Some MSW_CLEAR))
          as [E|NE]; [|by apply (Hfl x y)].
        unfold v1 in E. rewrite look_insert in E by done.
        case_bool_decide as Hix; [|done].
        destruct (index_inj game0 x y row col Hbx Hb Hix) as [-> ->].
        apply Hset; [|done]. by apply elem_of_nbrs.
      * done.
    + (* the invariant holds when the loop starts *)
      split_and!; simpl; auto using reveals_refl, floods_refl, log_ok_nil.
      intros n Hn. by apply elem_of_nil in Hn.
    + (* one more neighbour *)
      clear Hloop. intros pre n post [[gn rsn] logn] st' Hl Hinv Hbody.
      destruct Hinv as (Hrs & Hr2 & Hc2 & Hm2 & Hg2 & Hrev & Hset & Hfl & Hlog).
      simpl in *. subst rsn.
      apply bind_Ok in Hbody as ([[[retn gn'] rsn'] logn'] & Hcall & Hst).
      injection Hst as <-.
      assert (0 ≤ n < NUM_NEIGHBORS) as Hn.
      { apply elem_of_nbrs. rewrite Hl. apply elem_of_app. right. by left. }
      destruct (IH game0 gn rs _ _ g _ _ _ _ ltac:(congruence)
                  ltac:(congruence) ltac:(congruence) Hg2 Hcall)
        as (-> & Hr3 & Hc3 & Hm3 & Hg3 & Hrev3 & Hset3 & Hfl3 & Hlog3).
      assert (reveals game0 g row col (visible gn) (visible gn')) as Hrev3'.
      { by apply (reveals_from_nbr game0 g row col n). }
      split_and!; simpl; try congruence.
      * by apply (reveals_trans game0 g row col _ (visible gn)).
      * intros m Hm Hbm. apply elem_of_app in Hm as [Hm|Hm].
        -- apply (reveals_settled game0 g row col (visible gn)); [done|].
           by apply Hset.
        -- apply list_elem_of_singleton in Hm as ->. by apply Hset3.
      * apply (floods_trans game0 g v1 (visible gn)); try done.
        intros k. by apply reveals_settled with (1 := Hrev3').
      * apply log_ok_app; [done|].
        by apply (log_ok_from_nbr game0 g row col n).
  - (* the other three branches *)
    apply andb_false_iff in HA.
    assert (¬ (gi = MSW_CLEAR ∧ vi ≠ MSW_CLEAR)) as HnA.
    { rewrite !bool_decide_eq_false in HA. tauto. }
    clear HA.
    assert (floods game0 g (visible game)
              (<[Z.to_nat ix := gi]> (visible game))) as Hfloods.
    { intros x y Hbx Hc' Hgx Hcx n Hn Hbn. exfalso.
      rewrite look_insert in Hc' by done.
      case_bool_decide as E; [|done]. rewrite E in *.
      apply HnA. split; congruence. }
    assert (settled g (<[Z.to_nat ix := gi]> (visible game)) ix) as Hhere.
    { left. by rewrite look_insert_eq. }
    destruct (bool_decide (gi = MSW_MINE)) eqn:HB.
    { (* a mine *)
      apply bool_decide_eq_true in HB. subst gi.
      apply bind_Ok in Hdig as (v' & Hv' & Hret).
      apply wr_Ok in Hv' as [_ ->]. injection Hret as <- <- <- <-.
      split_and!; simpl; try done.
      - apply reveals_write; try done. by intros (_ & _ & Hp).
      - intros x y Hxy. apply list_elem_of_singleton in Hxy as [= -> ->].
        split; [by apply dug_here|done]. }
    apply bool_decide_eq_false in HB.
    destruct (bool_decide (vi = MSW_FLAG)) eqn:HC.
    { (* a flag on a cell that is not a mine *)
      apply bool_decide_eq_true in HC. subst vi.
      injection Hdig as <- <- <- <-.
      split_and!; auto using reveals_refl, floods_refl, log_ok_nil.
      intros _. destruct (decide (gi = MSW_CLEAR)) as [->|Hgc].
      - left. rewrite Hvi, Hgi. f_equal.
        destruct (decide (MSW_FLAG = MSW_CLEAR)); [done|tauto].
      - right. split_and!; [done|congruence|congruence]. }
    apply bool_decide_eq_false in HC.
    apply bind_Ok in Hdig as (v' & Hv' & Hret).
    apply wr_Ok in Hv' as [_ ->]. injection Hret as <- <- <- <-.
    split_and!; simpl; auto using log_ok_nil.
    apply reveals_write; try done. intros (Hp & _). fold ix in Hp. congruence.
Qed.

Lemma dig_log_post fuel game rs row col g ret game' rs' log :
  grid game = Some g →
  msw_dig_log fuel game rs row col = Ok (ret, game', rs', log) →
  rs' = rs ∧ dig_post game g row col game' log.
Proof.
  intros Hg Hdig.
  destruct (dig_log_gen fuel game game rs row col g ret game' rs' log
              eq_refl eq_refl eq_refl Hg Hdig)
    as (? & ? & ? & ? & ? & ? & ? & ? & ?).
  split; [done|]. by constructor.
Qed.

(** The value returned by a call on a cell of the board. *)
Lemma dig_log_ret fuel game rs row col g ret game' rs' log gi vi :
  grid game = Some g →
  msw_in_bounds game row col = true →
  look g (msw_index game row col) = Some gi →
  look (visible game) (msw_index game row col) = Some vi →
  msw_dig_log fuel game rs row col = Ok (ret, game', rs', log) →
  ret = if bool_decide (gi = MSW_CLEAR) && bool_decide (vi ≠ MSW_CLEAR) then 1
        else if bool_decide (gi = MSW_MINE) then -1 else 1.
Proof.
  intros Hg Hb Hgi Hvi Hdig. destruct fuel as [|f]; [done|].
  simpl in Hdig. rewrite Hb, Hg in Hdig. simpl in Hdig.
  unfold rd_grid in Hdig. rewrite Hg, (rd_look _ _ _ Hgi) in Hdig.
  simpl in Hdig. rewrite (rd_look _ _ _ Hvi) in Hdig. simpl in Hdig.
  destruct (bool_decide (gi = MSW_CLEAR) && bool_decide (vi ≠ MSW_CLEAR)).
  - apply bind_Ok in Hdig as (v1 & _ & Hdig).
    apply bind_Ok in Hdig as ([[game2 rs2] log2] & _ & Hret).
    by injection Hret as <- _ _ _.
  - destruct (bool_decide (gi = MSW_MINE)).
    + apply bind_Ok in Hdig as (v1 & _ & Hret). by injection Hret as <- _ _ _.
    + destruct (bool_decide (vi = MSW_FLAG)).
      * by injection Hdig as <- _ _ _.
      * apply bind_Ok in Hdig as (v1 & _ & Hret).
        by injection Hret as <- _ _ _.
Qed.

(** A loop on a state with a ghost component, seen without it. *)
Lemma for_each_project {S1 S2 : Type} (p : S2 → S1) l
  (body1 : Z → S1 → result S1) (body2 : Z → S2 → result S2) :
  (∀ i s, body1 i (p s) = let* s' := body2 i s in Ok (p s')) →
  ∀ s, for_each l body1 (p s) = let* s' := for_each l body2 s in Ok (p s').
Proof.
  intros Hb. induction l as [|i l IHl]; intros s; simpl; [done|].
  rewrite Hb. destruct (body2 i s) as [s'| |]; simpl; [apply IHl|done|done].
Qed.

(** [msw_dig_log] is [msw_dig] plus the record. *)
Lemma dig_erase fuel :
  ∀ game rs row col,
    msw_dig fuel game rs row col = drop_log (msw_dig_log fuel game rs row col).
Proof.
  induction fuel as [|f IH]; intros game rs row col; [done|].
  simpl. destruct (msw_in_bounds game row col); simpl; [|done].
  destruct (match grid game with
            | Some _ => Ok (game, rs)
            | None => msw_initial_grid f game row col rs
            end) as [[game1 rs1]| |]; simpl; [|done|done].
  destruct (rd_grid game1 (msw_index game row col)) as [gi| |];
    simpl; [|done|done].
  destruct (rd (visible game1) (msw_index game row col)) as [vi| |];
    simpl; [|done|done].
  destruct (bool_decide (gi = MSW_CLEAR) && bool_decide (vi ≠ MSW_CLEAR)).
  - destruct (wr (visible game1) (msw_index game row col) MSW_CLEAR)
      as [v1| |]; simpl; [|done|done].
    unfold for_range.
    rewrite (for_each_project fst _
               (fun n st =>
                  let* (_, game', rs') :=
                    msw_dig f (fst st) (snd st)
                      (row + at_ rnbr n) (col + at_ cnbr n) in
                  Ok (game', rs'))
               (fun n st =>
                  let* (_, game', rs', log') :=
                    msw_dig_log f (fst (fst st)) (snd (fst st))
                      (row + at_ rnbr n) (col + at_ cnbr n) in
                  Ok (game', rs', snd st ++ log'))
               ltac:(intros n [[gn rsn] logn]; simpl; rewrite IH;
                     destruct (msw_dig_log f gn rsn _ _)
                       as [[[[? ?] ?] ?]| |]; done)
               (with_visible game1 v1, rs1, [])).
    destruct (for_each _ _ _) as [[[g2 rs2] log2]| |]; done.
  - destruct (bool_decide (gi = MSW_MINE)).
    + destruct (wr _ _ _); done.
    + destruct (bool_decide (vi = MSW_FLAG)); [done|].
      destruct (wr _ _ _); done.
Qed.

(** *** Termination *)

Lemma todo_reveals game g row col v v' :
  reveals game g row col v v' → (todo g v' ≤ todo g v)%nat.
Proof.
  intros [Hlen Hr]. unfold todo. rewrite Hlen. apply filter_length_le.
  intros k _ [Hg Hv']. split; [done|]. intros Hv. apply Hv'.
  destruct (decide (look v' k = look v k)) as [E|NE]; [congruence|].
  destruct (Hr k NE) as [-> _]. done.
Qed.

Lemma todo_write g v ix vi :
  look g ix = Some MSW_CLEAR → look v ix = Some vi → vi ≠ MSW_CLEAR →
  todo g v = S (todo g (<[Z.to_nat ix := MSW_CLEAR]> v)).
Proof.
  intros Hg Hv Hne. pose proof (look_range _ _ _ Hv) as Hr.
  unfold todo. rewrite length_insert.
  apply (filter_length_flip _ _ _ ix).
  - apply NoDup_seqZ.
  - apply elem_of_seqZ. lia.
  - intros [_ Hn]. apply Hn. by rewrite look_insert_eq.
  - split; [done|]. congruence.
  - intros k _ Hk. rewrite look_insert_ne by lia. done.
Qed.

Lemma todo_le g v : (todo g v ≤ length v)%nat.
Proof.
  unfold todo. etrans; [apply length_filter|]. rewrite length_seqZ. lia.
Qed.

Lemma wf_game_same game game' :
  wf_game game = true →
  rows game' = rows game → columns game' = columns game →
  grid game' = grid game → length (visible game') = length (visible game) →
  wf_game game' = true.
Proof.
  unfold wf_game. by intros Hwf -> -> -> ->.
Qed.

(** With more fuel than there are clear cells still to show, the call
    returns, and it leaves the random numbers alone. *)
Lemma dig_log_total fuel :
  ∀ game rs row col g,
    wf_game game = true → grid game = Some g →
    (todo g (visible game) < fuel)%nat →
    ∃ ret game' log,
      msw_dig_log fuel game rs row col = Ok (ret, game', rs, log).
Proof.
  induction fuel as [|f IH]; intros game rs row col g Hwf Hg Hfuel; [lia|].
  simpl. destruct (msw_in_bounds game row col) eqn:Hb; simpl;
    [|by eexists _, _, _].
  rewrite Hg. simpl. unfold rd_grid. rewrite Hg.
  apply wf_game_spec in Hwf as Hwf'.
  destruct Hwf' as (Hr0 & Hc0 & Hlv & Hlg). specialize (Hlg g Hg).
  pose proof (index_range game row col Hb) as Hix.
  destruct (look_in_range g (msw_index game row col)) as [gi Hgi]; [lia|].
  destruct (look_in_range (visible game) (msw_index game row col))
    as [vi Hvi]; [lia|].
  rewrite (rd_look _ _ _ Hgi). simpl. rewrite (rd_look _ _ _ Hvi). simpl.
  destruct (bool_decide (gi = MSW_CLEAR) && bool_decide (vi ≠ MSW_CLEAR))
    eqn:HA.
  - apply andb_true_iff in HA as [HA1 HA2].
    apply bool_decide_eq_true in HA1, HA2. subst gi.
    rewrite wr_in_range by lia. simpl.
    pose proof (todo_write g (visible game) _ vi Hgi Hvi HA2) as Htodo.
    unfold for_range.
    match goal with
    | |- context [for_each ?l ?body ?st0] =>
        destruct (for_each_inv
          (fun (_ : list Z) (st : smb_mine * list N * list (Z * Z)) =>
             snd (fst st) = rs ∧ wf_game (fst (fst st)) = true ∧
             grid (fst (fst st)) = Some g ∧
             (todo g (visible (fst (fst st))) < f)%nat) l body st0)
          as ([[g2 rs2] log2] & -> & Hrs & _)
    end.
    + simpl. split_and!; [done| |done|lia].
      apply (wf_game_same game); try done. simpl. by rewrite length_insert.
    + intros pre n post [[gn rsn] logn] _ (Hrs & Hwfn & Hgn & Htn).
      simpl in *. subst rsn.
      destruct (IH gn rs (row + at_ rnbr n) (col + at_ cnbr n) g Hwfn Hgn Htn)
        as (retn & gn' & logn' & Hcall).
      rewrite Hcall. simpl. eexists. split; [done|]. simpl.
      destruct (dig_log_post _ _ _ _ _ _ _ _ _ _ Hgn Hcall) as [_ Hpost].
      pose proof (post_reveals _ _ _ _ _ _ Hpost) as Hrev.
      pose proof (todo_reveals _ _ _ _ _ _ Hrev) as Hle.
      destruct Hpost, Hrev. split_and!; [done| |done|lia].
      apply (wf_game_same gn); try done. congruence.
    + simpl in Hrs. subst rs2. simpl. by eexists _, _, _.
  - destruct (bool_decide (gi = MSW_MINE)).
    { rewrite wr_in_range by lia. simpl. by eexists _, _, _. }
    destruct (bool_decide (vi = MSW_FLAG)); [by eexists _, _, _|].
    rewrite wr_in_range by lia. simpl. by eexists _, _, _.
Qed.

(** *** The first dig *)

Lemma with_grid_id game g : grid game = Some g → with_grid game g = game.
Proof. destruct game. simpl. by intros ->. Qed.

Lemma generate_grid_shape obj rs obj' rs' :
  msw_generate_grid obj rs = Ok (obj', rs') → ∃ g', obj' = with_grid obj g'.
Proof.
  unfold msw_generate_grid. destruct (grid obj) as [g|]; [|done].
  intros Hgen. apply bind_Ok in Hgen as (g1 & _ & Hgen).
  apply bind_Ok in Hgen as ([g2 rs2] & _ & Hgen).
  apply bind_Ok in Hgen as (g3 & _ & Hgen).
  injection Hgen as <- <-. by exists g3.
Qed.

Lemma generate_until_clear_shape fuel :
  ∀ obj r c rs obj' rs',
    generate_until_clear fuel obj r c rs = Ok (obj', rs') →
    ∃ g', obj' = with_grid obj g' ∧
          look g' (msw_index obj r c) = Some MSW_CLEAR.
Proof.
  induction fuel as [|f IH]; intros obj r c rs obj' rs' Hgen; [done|].
  simpl in Hgen. apply bind_Ok in Hgen as ([obj1 rs1] & Hg1 & Hgen).
  apply generate_grid_shape in Hg1 as [g1 ->].
  apply bind_Ok in Hgen as (x & Hx & Hgen). apply rd_Ok in Hx.
  case_bool_decide as Hc.
  - apply IH in Hgen as (g' & -> & Hl). by exists g'.
  - injection Hgen as <- <-. exists g1. split; [done|].
    destruct (decide (x = MSW_CLEAR)) as [->|]; done.
Qed.

Lemma initial_grid_shape fuel obj r c rs obj' rs' :
  msw_initial_grid fuel obj r c rs = Ok (obj', rs') →
  ∃ g', obj' = with_grid obj g' ∧
        look g' (msw_index obj r c) = Some MSW_CLEAR.
Proof.
  unfold msw_initial_grid. intros Hgen.
  apply bind_Ok in Hgen as (g & _ & Hgen).
  apply generate_until_clear_shape in Hgen as (g' & -> & Hl). by exists g'.
Qed.

(** A first dig is the generation of the grid followed by a dig. *)
Lemma dig_log_first f game rs row col game1 rs1 :
  grid game = None → msw_in_bounds game row col = true →
  msw_initial_grid f game row col rs = Ok (game1, rs1) →
  msw_dig_log (S f) game rs row col = msw_dig_log (S f) game1 rs1 row col.
Proof.
  intros Hg Hb Hgen.
  destruct (initial_grid_shape _ _ _ _ _ _ _ Hgen) as (g' & -> & _).
  simpl. rewrite Hg, Hgen. simpl.
  rewrite (in_bounds_same game (with_grid game g')) by done.
  rewrite Hb. simpl. done.
Qed.

(** What any call that returned has done: nothing outside the board; on the
    board, what [dig_post] says, from the game with its grid in place. *)
Lemma dig_log_any fuel game rs row col ret game' rs' log :
  msw_dig_log fuel game rs row col = Ok (ret, game', rs', log) →
  (msw_in_bounds game row col = false ∧
   ret = 0 ∧ game' = game ∧ rs' = rs ∧ log = []) ∨
  (msw_in_bounds game row col = true ∧
   ∃ g, (grid game = Some g ∧ rs' = rs ∨
         grid game = None ∧
         ∃ f, msw_initial_grid f game row col rs = Ok (with_grid game g, rs')) ∧
        msw_dig_log fuel (with_grid game g) rs' row col
          = Ok (ret, game', rs', log) ∧
        dig_post (with_grid game g) g row col game' log).
Proof.
  intros Hdig. destruct fuel as [|f]; [done|].
  destruct (msw_in_bounds game row col) eqn:Hb.
  - right. split; [done|]. destruct (grid game) as [g|] eqn:Hg.
    + exists g. rewrite (with_grid_id _ _ Hg).
      destruct (dig_log_post _ _ _ _ _ _ _ _ _ _ Hg Hdig) as [-> Hpost].
      split_and!; auto.
    + destruct (msw_initial_grid f game row col rs) as [[game1 rs1]| |]
        eqn:Hgen.
      * rewrite (dig_log_first _ _ _ _ _ _ _ Hg Hb Hgen) in Hdig.
        destruct (initial_grid_shape _ _ _ _ _ _ _ Hgen) as (g & -> & _).
        destruct (dig_log_post _ (with_grid game g) _ _ _ g _ _ _ _
                    eq_refl Hdig) as [-> Hpost].
        exists g. split_and!; eauto.
      * simpl in Hdig. rewrite Hb, Hg, Hgen in Hdig. done.
      * simpl in Hdig. rewrite Hb, Hg, Hgen in Hdig. done.
  - left. simpl in Hdig. rewrite Hb in Hdig. simpl in Hdig.
    injection Hdig as <- <- <- <-. done.
Qed.

Lemma drop_log_Ok m ret game rs :
  drop_log m = Ok (ret, game, rs) ↔ ∃ log, m = Ok (ret, game, rs, log).
Proof.
  unfold drop_log. destruct m as [[[[ret' game'] rs'] log']| |]; simpl.
  - split; [intros [= -> -> ->]; by eexists|intros [log [= -> -> -> _]]; done].
  - split; [done|by intros [? ?]].
  - split; [done|by intros [? ?]].
Qed.

(** *** Digging a cell that is settled *)

Lemma with_visible_id game : with_visible game (visible game) = game.
Proof. by destruct game. Qed.

Lemma dig_log_reads fuel game rs row col g ret game' rs' log :
  grid game = Some g → msw_in_bounds game row col = true →
  msw_dig_log fuel game rs row col = Ok (ret, game', rs', log) →
  ∃ gi vi, look g (msw_index game row col) = Some gi ∧
           look (visible game) (msw_index game row col) = Some vi.
Proof.
  intros Hg Hb Hdig. destruct fuel as [|f]; [done|].
  simpl in Hdig. rewrite Hb, Hg in Hdig. simpl in Hdig.
  unfold rd_grid in Hdig. rewrite Hg in Hdig.
  apply bind_Ok in Hdig as (gi & Hgi & Hdig). apply rd_Ok in Hgi.
  apply bind_Ok in Hdig as (vi & Hvi & Hdig). apply rd_Ok in Hvi.
  by exists gi, vi.
Qed.

(** On a settled cell that is not a mine the call does nothing and
    returns 1. *)
Lemma dig_log_settled f game rs row col g gi :
  grid game = Some g → msw_in_bounds game row col = true →
  look g (msw_index game row col) = Some gi → gi ≠ MSW_MINE →
  settled g (visible game) (msw_index game row col) →
  msw_dig_log (S f) game rs row col = Ok (1, game, rs, []).
Proof.
  intros Hg Hb Hgi Hnm Hs. simpl. rewrite Hb, Hg. simpl.
  unfold rd_grid. rewrite Hg, (rd_look _ _ _ Hgi). simpl.
  rewrite (bool_decide_false (gi = MSW_MINE)) by done.
  destruct Hs as [Hs|(Hv & Hc & _)].
  - rewrite Hgi in Hs. rewrite (rd_look _ _ _ Hs). simpl.
    destruct (decide (gi = MSW_CLEAR)) as [->|Hc].
    + rewrite (bool_decide_false (MSW_CLEAR ≠ MSW_CLEAR)) by tauto.
      rewrite andb_false_r. case_bool_decide; [done|].
      rewrite wr_in_range by (by apply look_range in Hs). simpl.
      by rewrite (look_insert_id _ _ _ Hs), with_visible_id.
    + rewrite (bool_decide_false (gi = MSW_CLEAR)) by done. simpl.
      case_bool_decide; [done|].
      rewrite wr_in_range by (by apply look_range in Hs). simpl.
      by rewrite (look_insert_id _ _ _ Hs), with_visible_id.
  - rewrite (rd_look _ _ _ Hv). simpl.
    rewrite (bool_decide_false (gi = MSW_CLEAR)) by congruence. simpl.
    by rewrite bool_decide_true.
Qed.

(** In a grid with consistent counts no neighbour of a clear cell is a
    mine. *)
Lemma consistent_clear_nbr game g x y n :
  MSW_CLEAR ≠ MSW_MINE →
  counts_consistent game g = true →
  msw_in_bounds game x y = true →
  look g (msw_index game x y) = Some MSW_CLEAR →
  0 ≤ n < NUM_NEIGHBORS →
  mine_at game g (x + at_ rnbr n) (y + at_ cnbr n) = false.
Proof.
  intros Hcm Hcons Hb Hl Hn. unfold counts_consistent in Hcons.
  rewrite all_cells_spec in Hcons. specialize (Hcons x y Hb).
  apply bool_decide_eq_true in Hcons. rewrite Hl in Hcons.
  injection Hcons as Hcons. unfold recount in Hcons.
  destruct (mine_at game g x y) eqn:Hm; [done|].
  unfold mine_neighbours in Hcons.
  destruct (mine_at game g (x + at_ rnbr n) (y + at_ cnbr n)) eqn:Hmn;
    [|done].
  exfalso.
  assert (n ∈ filter
            (fun n => mine_at game g (x + at_ rnbr n) (y + at_ cnbr n))
            (seqZ 0 NUM_NEIGHBORS)) as Hin.
  { apply list_elem_of_filter. split; [by rewrite Hmn|by apply elem_of_nbrs]. }
  destruct (filter _ _) as [|? ?]; [by apply elem_of_nil in Hin|].
  simpl in Hcons. lia.
Qed.

End Dig.

Section Flood.
Context {H : msw_header}.

Lemma flood_closed_spec game g :
  flood_closed game g = true ↔
  ∀ x y, msw_in_bounds game x y = true →
    look (visible game) (msw_index game x y) = Some MSW_CLEAR →
    look g (msw_index game x y) = Some MSW_CLEAR →
    ∀ n, 0 ≤ n < NUM_NEIGHBORS →
      msw_in_bounds game (x + at_ rnbr n) (y + at_ cnbr n) = true →
      settled g (visible game)
        (msw_index game (x + at_ rnbr n) (y + at_ cnbr n)).
Proof.
  unfold flood_closed. rewrite all_cells_spec. split.
  - intros Hc x y Hb Hv Hg n Hn Hbn. specialize (Hc x y Hb).
    rewrite !bool_decide_true in Hc by done. cbn [andb] in Hc.
    rewrite forallb_forall in Hc.
    specialize (Hc n ltac:(by apply list_elem_of_In, elem_of_nbrs)).
    cbn beta zeta in Hc. rewrite Hbn in Hc. cbn [negb orb] in Hc.
    by apply bool_decide_eq_true in Hc.
  - intros Hc x y Hb.
    destruct (_ && _) eqn:Hcl; [|done].
    apply andb_true_iff in Hcl as [Hv Hg].
    apply bool_decide_eq_true in Hv, Hg.
    apply forallb_forall. intros n Hn.
    apply list_elem_of_In, elem_of_nbrs in Hn. cbn beta zeta.
    destruct (msw_in_bounds game (x + at_ rnbr n) (y + at_ cnbr n)) eqn:Hbn;
      [|done].
    cbn [negb orb].
    apply bool_decide_eq_true. by apply Hc.
Qed.

(** A dig leaves the board closed under the flood if it was. *)
Lemma flood_closed_dig game g row col game' log :
  flood_closed game g = true → dig_post game g row col game' log →
  flood_closed game' g = true.
Proof.
  rewrite !flood_closed_spec. intros Hc Hpost x y Hb Hv Hg n Hn Hbn.
  destruct Hpost as [Hr Hcol _ _ Hrev _ Hfl _].
  rewrite (in_bounds_same game game') in Hb, Hbn by done.
  rewrite (index_same game game') in Hv, Hg |- * by done.
  destruct (decide (look (visible game) (msw_index game x y)
                    = Some MSW_CLEAR)) as [E|NE].
  - apply (reveals_settled game g row col (visible game)); [done|].
    by apply Hc.
  - by apply (Hfl x y).
Qed.

(** In a board closed under the flood every cell of the region of a settled
    clear cell is shown as clear. *)
Lemma region_shown game g row col x y :
  flood_closed game g = true →
  settled g (visible game) (msw_index game row col) →
  region game g row col x y →
  look (visible game) (msw_index game x y) = Some MSW_CLEAR.
Proof.
  rewrite flood_closed_spec. intros Hc Hs.
  induction 1 as [Hb Hl|x y n Hreg IH Hn Hb Hl].
  - destruct Hs as [Hs|(_ & Hp & _)]; congruence.
  - apply region_clear in Hreg as [Hbx Hlx].
    destruct (Hc x y Hbx IH Hlx n Hn Hb) as [Hs'|(_ & Hp & _)]; congruence.
Qed.

Lemma dug_region_or_border game g row col x y :
  look g (msw_index game row col) = Some MSW_CLEAR →
  dug game g row col x y →
  region game g row col x y ∨ border game g row col x y.
Proof.
  intros Hl [Hb Hd].
  destruct Hd as [[-> ->]|Hbeside]; [left; by apply region_start|].
  destruct (decide (look g (msw_index game x y) = Some MSW_CLEAR))
    as [Hc|Hc]; [|by right].
  left. destruct Hbeside as [_ (a & b & n & Hreg & Hn & -> & ->)].
  by apply region_step.
Qed.

End Flood.

(** ** Creation and flags *)

Section Session.
Context {H : msw_header}.

(** The loop that fills an array with one value. *)
Lemma fill_range n x (v0 : list Z) :
  Z.of_nat (length v0) = n →
  for_range n (fun i v => wr v i x) v0 = Ok (replicate (Z.to_nat n) x).
Proof.
  intros Hlen. unfold for_range.
  destruct (for_each_inv
              (fun pre (v : list Z) =>
                 length v = length v0 ∧ ∀ k, k ∈ pre → look v k = Some x)
              (seqZ 0 n) (fun i v => wr v i x) v0) as (v & -> & Hl & Hall).
  - split; [done|]. intros k Hk. by apply elem_of_nil in Hk.
  - intros pre i post v Hseq [Hl Hall].
    assert (i ∈ seqZ 0 n) as Hi.
    { rewrite Hseq. apply elem_of_app. right. by left. }
    apply elem_of_seqZ in Hi. rewrite wr_in_range by lia.
    eexists. split; [done|]. split; [by rewrite length_insert|].
    intros k Hk. rewrite look_insert by lia. case_bool_decide; [done|].
    apply Hall. apply elem_of_app in Hk as [Hk|Hk]; [done|].
    by apply list_elem_of_singleton in Hk.
  - f_equal. apply look_ext; [rewrite length_replicate; lia|]. intros k.
    destruct (decide (0 ≤ k < n)) as [Hk|Hk].
    + rewrite Hall by (apply elem_of_seqZ; lia). symmetry.
      apply look_Some. split; [lia|]. apply lookup_replicate_2. lia.
    + rewrite (proj2 (look_None v k)) by lia. symmetry.
      apply look_None. rewrite length_replicate. lia.
Qed.

Lemma create_Ok rows columns mines :
  0 ≤ rows * columns →
  smb_mine_create rows columns mines =
  Ok {| rows := rows; columns := columns; mines := mines; grid := None;
        visible := replicate (Z.to_nat (rows * columns)) MSW_UNKNOWN |}.
Proof.
  intros Hn. unfold smb_mine_create, smb_mine_init, smb_new.
  rewrite bool_decide_true by done. simpl.
  rewrite fill_range; [done|]. rewrite length_replicate. lia.
Qed.

(** What [msw_flag] does when it returns: it returns 1, and at most the
    cell at the index it computed passes from unknown to flag. *)
Lemma flag_post game r c ret game' :
  msw_flag game r c = Ok (ret, game') →
  ret = 1 ∧ rows game' = rows game ∧ columns game' = columns game ∧
  mines game' = mines game ∧ grid game' = grid game ∧
  length (visible game') = length (visible game) ∧
  ∀ k, look (visible game') k ≠ look (visible game) k →
    k = msw_index game r c ∧
    look (visible game) k = Some MSW_UNKNOWN ∧
    look (visible game') k = Some MSW_FLAG.
Proof.
  unfold msw_flag. intros Hf.
  apply bind_Ok in Hf as (v & Hv & Hf). apply rd_Ok in Hv.
  case_bool_decide as Hu.
  - subst v. apply bind_Ok in Hf as (v' & Hv' & Hf).
    apply wr_Ok in Hv' as [Hr ->]. injection Hf as <- <-. simpl.
    split_and!; try done; [by rewrite length_insert|].
    intros k Hk. rewrite look_insert in Hk |- * by done.
    case_bool_decide; [by subst k|done].
  - injection Hf as <- <-. split_and!; done.
Qed.

Lemma shown_true_spec game :
  shown_true game = true ↔
  ∀ i x, look (visible game) i = Some x →
    x = MSW_UNKNOWN ∨ x = MSW_FLAG ∨
    ∃ g, grid game = Some g ∧ look g i = Some x.
Proof.
  unfold shown_true. rewrite forallb_forall. split.
  - intros Hs i x Hx. pose proof (look_range _ _ _ Hx) as Hr.
    specialize (Hs i ltac:(apply list_elem_of_In, elem_of_seqZ; lia)).
    cbn beta in Hs. rewrite !orb_true_iff, !bool_decide_eq_true in Hs.
    destruct Hs as [[Hs|Hs]|Hs].
    + left. congruence.
    + right. left. congruence.
    + right. right. destruct (grid game) as [g|]; [|done].
      apply bool_decide_eq_true in Hs. exists g. split; congruence.
  - intros Hs i Hi. apply list_elem_of_In, elem_of_seqZ in Hi.
    destruct (look_in_range (visible game) i) as [x Hx]; [lia|].
    rewrite !orb_true_iff, !bool_decide_eq_true.
    destruct (Hs i x Hx) as [->|[->|(g & Hg & Hgx)]]; [auto..|].
    right. rewrite Hg. apply bool_decide_eq_true. congruence.
Qed.

(** A step of a session keeps [shown_true] and every cell that shows a true
    value. *)
Lemma step_shown o game rs game' rs' :
  shown_true game = true →
  step o (game, rs) = Ok (game', rs') →
  shown_true game' = true ∧
  ∀ i x, look (visible game) i = Some x →
    x ≠ MSW_UNKNOWN → x ≠ MSW_FLAG → look (visible game') i = Some x.
Proof.
  rewrite !shown_true_spec. intros Hs Hstep.
  destruct o as [fuel row col|row col]; simpl in Hstep.
  - apply bind_Ok in Hstep as ([[ret game1] rs1] & Hdig & Hst).
    injection Hst as <- <-.
    rewrite dig_erase in Hdig. apply drop_log_Ok in Hdig as [log Hdig].
    apply dig_log_any in Hdig
      as [(_ & _ & -> & _)|(_ & g & Hgrid & _ & Hpost)]; [done|].
    destruct Hpost as [_ _ _ Hg1 [_ Hrev] _ _ _]. simpl in Hrev.
    assert (∀ i x, look (visible game) i = Some x →
              x ≠ MSW_UNKNOWN → x ≠ MSW_FLAG →
              look g i = Some x) as Htrue.
    { intros i x Hx Hu Hf.
      destruct (Hs i x Hx) as [?|[?|(g0 & Hg0 & Hx0)]]; [done..|].
      destruct Hgrid as [[Hg _]|[Hg _]]; congruence. }
    split.
    + intros i x Hx.
      destruct (decide (look (visible game1) i = look (visible game) i))
        as [E|NE].
      * rewrite E in Hx.
        destruct (decide (x = MSW_UNKNOWN)) as [|Hu]; [by left|].
        destruct (decide (x = MSW_FLAG)) as [|Hf]; [by right; left|].
        right. right. exists g. split; [done|]. by apply Htrue.
      * destruct (Hrev i NE) as (Hv & _). right. right. exists g.
        split; [done|]. congruence.
    + intros i x Hx Hu Hf.
      destruct (decide (look (visible game1) i = look (visible game) i))
        as [E|NE]; [congruence|].
      destruct (Hrev i NE) as (Hv & _). rewrite Hv. by apply Htrue.
  - apply bind_Ok in Hstep as ([ret game1] & Hflag & Hst).
    injection Hst as <- <-.
    apply flag_post in Hflag as (_ & _ & _ & _ & Hg & _ & Hch).
    split.
    + intros i x Hx.
      destruct (decide (look (visible game1) i = look (visible game) i))
        as [E|NE].
      * rewrite E in Hx. rewrite Hg. by apply Hs.
      * destruct (Hch i NE) as (_ & _ & Hf). right. left. congruence.
    + intros i x Hx Hu Hf.
      destruct (decide (look (visible game1) i = look (visible game) i))
        as [E|NE]; [congruence|].
      destruct (Hch i NE) as (_ & Hun & _). congruence.
Qed.

End Session.

(** ** The counting pass of [msw_generate_grid] *)

Section Counting.
Context {H : msw_header} {Hok : msw_header_ok H}.
Context (game : smb_mine) (g0 : list Z).
Context (Hlen : Z.of_nat (length g0) = rows game * columns game).
Context (Hplaced : placed g0).

Lemma mine_at_true g a b :
  mine_at game g a b = true ↔
  msw_in_bounds game a b = true ∧ look g (msw_index game a b) = Some MSW_MINE.
Proof.
  unfold mine_at. by rewrite andb_true_iff, bool_decide_eq_true.
Qed.

Lemma count_not_mine (k : nat) : (k ≤ 8)%nat → MSW_CLEAR + Z.of_nat k ≠ MSW_MINE.
Proof. intros Hk. destruct (mine_not_count (H := H)); lia. Qed.

Lemma nbrs_filter_le (P : Z → Prop) `{!∀ m, Decision (P m)} :
  (length (filter P (seqZ 0 NUM_NEIGHBORS)) ≤ 8)%nat.
Proof. etrans; [apply length_filter|]. by rewrite length_seqZ. Qed.

(** Two descriptions of the work done that agree on the mines give the same
    invariant. *)
Lemma count_inv_equiv (D D' : Z → Z → Z → Prop)
  `{!∀ x y n, Decision (D x y n)} `{!∀ x y n, Decision (D' x y n)} g :
  (∀ x y n, mine_at game g0 x y = true → 0 ≤ n < NUM_NEIGHBORS →
            (D x y n ↔ D' x y n)) →
  count_inv game g0 D g → count_inv game g0 D' g.
Proof.
  intros Heq [Hl Hinv]. split; [done|]. intros a b Hb.
  rewrite (Hinv a b Hb). destruct (mine_at game g0 a b); [done|].
  do 3 f_equal. apply filter_length_eq. intros m Hm.
  apply elem_of_nbrs in Hm.
  split; intros [Hmine HD]; (split; [done|]);
    apply (Heq _ _ (7 - m)); try done;
    try (by apply Is_true_true); unfold NUM_NEIGHBORS in *; lia.
Qed.

Lemma count_inv_start : count_inv game g0 (fun _ _ _ => False) g0.
Proof.
  split; [done|]. intros a b Hb.
  pose proof (index_range game a b Hb) as Hr.
  destruct (look_in_range g0 (msw_index game a b)) as [x Hx]; [lia|].
  rewrite Hx. f_equal.
  assert (length (filter
            (fun m => mine_at game g0 (a + at_ rnbr m) (b + at_ cnbr m)
                      ∧ False) (seqZ 0 NUM_NEIGHBORS)) = 0%nat) as ->.
  { apply Nat.le_0_r.
    etrans; [apply (filter_length_le _ (fun _ => False)); tauto|].
    by induction (seqZ 0 NUM_NEIGHBORS). }
  destruct (mine_at game g0 a b) eqn:Hm.
  - apply mine_at_true in Hm as [_ Hm]. congruence.
  - destruct (Hplaced _ _ Hx) as [->| ->]; [lia|].
    unfold mine_at in Hm. rewrite Hb, Hx in Hm.
    by rewrite bool_decide_true in Hm.
Qed.

(** The mines of the grid being counted are those of the placed grid. *)
Lemma count_inv_mine (D : Z → Z → Z → Prop)
  `{!∀ x y n, Decision (D x y n)} g a b :
  count_inv game g0 D g → msw_in_bounds game a b = true →
  (look g (msw_index game a b) = Some MSW_MINE ↔ mine_at game g0 a b = true).
Proof.
  intros [_ Hinv] Hb. rewrite (Hinv a b Hb).
  destruct (mine_at game g0 a b); [done|]. split; [|done].
  intros [= Hc]. exfalso. revert Hc. apply count_not_mine, nbrs_filter_le.
Qed.

(** One step of the innermost loop. *)
Lemma count_neighbor_step (D : Z → Z → Z → Prop)
  `{!∀ x y n, Decision (D x y n)} g i j n :
  count_inv game g0 D g →
  mine_at game g0 i j = true → 0 ≤ n < NUM_NEIGHBORS → ¬ D i j n →
  ∃ g', count_neighbor game i j n g = Ok g' ∧
        count_inv game g0 (fun x y m => D x y m ∨ (x = i ∧ y = j ∧ m = n)) g'.
Proof.
  intros Hinv Hmine Hn HnD. unfold count_neighbor. cbn zeta.
  set (r := i + at_ rnbr n). set (c := j + at_ cnbr n).
  destruct (nbr_opposite n Hn) as [Hopr Hopc].
  assert (∀ a b m, 0 ≤ m < NUM_NEIGHBORS →
            a + at_ rnbr m = i → b + at_ cnbr m = j → 7 - m = n →
            a = r ∧ b = c ∧ m = 7 - n) as Hsrc.
  { intros a b m Hm Ha Hb' Hmn. assert (m = 7 - n) as -> by lia.
    unfold r, c. lia. }
  assert (∀ a b, (a, b) ≠ (r, c) →
    length (filter
      (fun m => mine_at game g0 (a + at_ rnbr m) (b + at_ cnbr m) ∧
                (D (a + at_ rnbr m) (b + at_ cnbr m) (7 - m) ∨
                 a + at_ rnbr m = i ∧ b + at_ cnbr m = j ∧ 7 - m = n))
      (seqZ 0 NUM_NEIGHBORS)) =
    length (filter
      (fun m => mine_at game g0 (a + at_ rnbr m) (b + at_ cnbr m) ∧
                D (a + at_ rnbr m) (b + at_ cnbr m) (7 - m))
      (seqZ 0 NUM_NEIGHBORS))) as Hother.
  { intros a b Hne. apply filter_length_eq. intros m Hm.
    apply elem_of_nbrs in Hm. split; [|tauto].
    intros [Hma [HD|(Ha & Hb' & Hmn)]]; [done|]. exfalso. apply Hne.
    destruct (Hsrc a b m Hm Ha Hb' Hmn) as (-> & -> & _). done. }
  destruct (msw_in_bounds game r c) eqn:Hb.
  - pose proof (index_range game r c Hb) as Hr.
    destruct Hinv as [Hl Hinv]. pose proof (Hinv r c Hb) as Hrc.
    rewrite (rd_look _ _ _ Hrc). simpl.
    destruct (mine_at game g0 r c) eqn:Hmrc.
    + rewrite bool_decide_false by tauto. eexists. split; [done|].
      split; [done|]. intros a b Hab. rewrite (Hinv a b Hab).
      destruct (mine_at game g0 a b) eqn:Hmab; [done|].
      rewrite Hother; [done|]. intros [= -> ->]. congruence.
    + rewrite bool_decide_true by (apply count_not_mine, nbrs_filter_le).
      simpl. rewrite wr_in_range by lia. eexists. split; [done|].
      split; [by rewrite length_insert|]. intros a b Hab.
      rewrite look_insert by lia. case_bool_decide as Hix.
      * destruct (index_inj game a b r c Hab Hb Hix) as [-> ->].
        rewrite Hmrc. f_equal.
        set (P := fun m => mine_at game g0 (r + at_ rnbr m) (c + at_ cnbr m)
                           ∧ D (r + at_ rnbr m) (c + at_ cnbr m) (7 - m)).
        assert (r + at_ rnbr (7 - n) = i ∧ c + at_ cnbr (7 - n) = j)
          as [Hri Hcj] by (unfold r, c; lia).
        assert (7 - n ∈ seqZ 0 NUM_NEIGHBORS) as Hin.
        { apply elem_of_nbrs. unfold NUM_NEIGHBORS in *. lia. }
        assert (¬ P (7 - n)) as HnP.
        { unfold P. rewrite Hri, Hcj. replace (7 - (7 - n)) with n by lia.
          tauto. }
        pose proof (length_filter_lt P _ _ Hin HnP) as Hlt.
        rewrite length_seqZ in Hlt.
        change (Z.to_nat NUM_NEIGHBORS) with 8%nat in Hlt.
        unfold char_incr. rewrite bool_decide_false.
        2: { destruct (clear_char (H := H)). fold P. lia. }
        set (Q := fun m => mine_at game g0 (r + at_ rnbr m) (c + at_ cnbr m)
                           ∧ (D (r + at_ rnbr m) (c + at_ cnbr m) (7 - m) ∨
                              r + at_ rnbr m = i ∧ c + at_ cnbr m = j
                              ∧ 7 - m = n)).
        rewrite (filter_length_flip P Q _ (7 - n)); try done.
        -- fold P. lia.
        -- apply NoDup_seqZ.
        -- unfold Q. rewrite Hri, Hcj. replace (7 - (7 - n)) with n by lia.
           split; [by apply Is_true_true|]. right. done.
        -- intros m Hm Hne. apply elem_of_nbrs in Hm. unfold P, Q.
           split; [tauto|]. intros [Hma [HD|(Ha & Hb' & Hmn)]]; [done|].
           exfalso. apply Hne. lia.
      * rewrite (Hinv a b Hab).
        destruct (mine_at game g0 a b) eqn:Hmab; [done|].
        rewrite Hother; [done|]. intros [= -> ->]. done.
  - eexists. split; [done|]. destruct Hinv as [Hl Hinv].
    split; [done|]. intros a b Hab. rewrite (Hinv a b Hab).
    destruct (mine_at game g0 a b) eqn:Hmab; [done|].
    rewrite Hother; [done|]. intros [= -> ->]. congruence.
Qed.

Lemma seqZ_split_fresh n pre i post :
  seqZ 0 n = pre ++ i :: post → 0 ≤ i < n ∧ i ∉ pre.
Proof.
  intros Hs. split.
  - assert (i ∈ seqZ 0 n) as Hi.
    { rewrite Hs. apply elem_of_app. right. by left. }
    apply elem_of_seqZ in Hi. lia.
  - pose proof (NoDup_seqZ 0 n) as Hnd. rewrite Hs in Hnd.
    apply NoDup_app in Hnd as (_ & Hd & _). intros Hin.
    apply (Hd i Hin). by left.
Qed.

(** The innermost loop, around a mine at [(i, j)]. *)
Lemma count_neighbors_loop (D : Z → Z → Z → Prop)
  `{!∀ x y n, Decision (D x y n)} g i j :
  count_inv game g0 D g →
  mine_at game g0 i j = true → (∀ n, ¬ D i j n) →
  ∃ g', for_range NUM_NEIGHBORS (count_neighbor game i j) g = Ok g' ∧
        count_inv game g0 (fun x y m => D x y m ∨ (x = i ∧ y = j)) g'.
Proof.
  intros Hinv Hmine HnD. unfold for_range.
  destruct (for_each_inv
              (fun pn g =>
                 count_inv game g0
                   (fun x y m => D x y m ∨ (x = i ∧ y = j ∧ m ∈ pn)) g)
              (seqZ 0 NUM_NEIGHBORS) (count_neighbor game i j) g)
    as (g' & Hg' & Hinv').
  - revert Hinv. apply count_inv_equiv. intros x y n _ _.
    split; [tauto|]. intros [?|(_ & _ & Hn)]; [done|].
    by apply elem_of_nil in Hn.
  - intros pre n post g1 Hs Hinv1.
    destruct (seqZ_split_fresh _ _ _ _ Hs) as [Hn Hfresh].
    destruct (count_neighbor_step _ g1 i j n Hinv1 Hmine Hn)
      as (g2 & Hg2 & Hinv2).
    { intros [HD|(_ & _ & Hin)]; [by apply (HnD n)|done]. }
    exists g2. split; [done|]. revert Hinv2. apply count_inv_equiv.
    intros x y m _ _. rewrite elem_of_app, list_elem_of_singleton. tauto.
  - exists g'. split; [done|]. revert Hinv'. apply count_inv_equiv.
    intros x y m _ Hm. rewrite elem_of_nbrs. tauto.
Qed.

(** The body of the loop over the columns. *)
Lemma count_cell (D : Z → Z → Z → Prop)
  `{!∀ x y n, Decision (D x y n)} g i j :
  count_inv game g0 D g →
  msw_in_bounds game i j = true → (∀ n, ¬ D i j n) →
  ∃ g', (let* x := rd g (msw_index game i j) in
         if bool_decide (x = MSW_MINE)
         then for_range NUM_NEIGHBORS (count_neighbor game i j) g
         else Ok g) = Ok g' ∧
        count_inv game g0 (fun x y m => D x y m ∨ (x = i ∧ y = j)) g'.
Proof.
  intros Hinv Hb HnD. destruct (mine_at game g0 i j) eqn:Hm.
  - pose proof (proj2 (count_inv_mine D g i j Hinv Hb) Hm) as Hl.
    rewrite (rd_look _ _ _ Hl). simpl. rewrite bool_decide_true by done.
    by apply count_neighbors_loop.
  - pose proof (proj2 Hinv i j Hb) as Hij. rewrite Hm in Hij.
    rewrite (rd_look _ _ _ Hij). simpl.
    rewrite bool_decide_false by (apply count_not_mine, nbrs_filter_le).
    exists g. split; [done|]. revert Hinv. apply count_inv_equiv.
    intros x y n Hmx _. split; [tauto|].
    intros [?|[-> ->]]; [done|congruence].
Qed.

(** The loop over the columns of row [i]. *)
Lemma count_row (D : Z → Z → Z → Prop)
  `{!∀ x y n, Decision (D x y n)} g i :
  count_inv game g0 D g →
  0 ≤ i < rows game → (∀ y n, ¬ D i y n) →
  ∃ g', for_range (columns game) (fun j g =>
          let* x := rd g (msw_index game i j) in
          if bool_decide (x = MSW_MINE)
          then for_range NUM_NEIGHBORS (count_neighbor game i j) g
          else Ok g) g = Ok g' ∧
        count_inv game g0 (fun x y m => D x y m ∨ x = i) g'.
Proof.
  intros Hinv Hi HnD. unfold for_range at 1.
  match goal with
  | |- context [for_each ?l ?body g] =>
      destruct (for_each_inv
                  (fun pj g =>
                     count_inv game g0
                       (fun x y m => D x y m ∨ (x = i ∧ y ∈ pj)) g)
                  l body g) as (g' & Hg' & Hinv')
  end.
  - revert Hinv. apply count_inv_equiv. intros x y n _ _.
    split; [tauto|]. intros [?|(_ & Hn)]; [done|].
    by apply elem_of_nil in Hn.
  - intros pre j post g1 Hs Hinv1.
    destruct (seqZ_split_fresh _ _ _ _ Hs) as [Hj Hfresh].
    destruct (count_cell _ g1 i j Hinv1) as (g2 & Hg2 & Hinv2).
    { apply in_bounds_iff. lia. }
    { intros n [HD|(_ & Hin)]; [by apply (HnD j n)|done]. }
    exists g2. split; [done|]. revert Hinv2. apply count_inv_equiv.
    intros x y m _ _. rewrite elem_of_app, list_elem_of_singleton. tauto.
  - exists g'. split; [done|]. revert Hinv'. apply count_inv_equiv.
    intros x y m Hmx _. apply mine_at_true in Hmx as [Hbx _].
    apply in_bounds_iff in Hbx. rewrite elem_of_seqZ.
    split; [tauto|]. intros [?|?]; [tauto|]. right. split; [done|lia].
Qed.

(** The counting pass returns, and gives every cell the value of the direct
    recount of the placed grid; the mines are where they were. *)
Lemma count_pass_recount :
  ∃ g', count_pass game g0 = Ok g' ∧ length g' = length g0 ∧
        ∀ a b, msw_in_bounds game a b = true →
          look g' (msw_index game a b) = Some (recount game g0 a b) ∧
          mine_at game g' a b = mine_at game g0 a b.
Proof.
  unfold count_pass. unfold for_range at 1.
  match goal with
  | |- context [for_each ?l ?body g0] =>
      destruct (for_each_inv
                  (fun pi g =>
                     @count_inv H game g0 (fun x _ _ => x ∈ pi)
                       (fun x _ _ => decide (x ∈ pi)) g)
                  l body g0) as (g' & Hg' & Hinv')
  end.
  - generalize count_inv_start. apply count_inv_equiv. intros x y n _ _.
    split; [done|]. intros Hn. by apply elem_of_nil in Hn.
  - intros pre i post g1 Hs Hinv1.
    destruct (seqZ_split_fresh _ _ _ _ Hs) as [Hi Hfresh].
    destruct (count_row _ g1 i Hinv1 Hi) as (g2 & Hg2 & Hinv2).
    { intros _ _ Hin. done. }
    exists g2. split; [done|]. revert Hinv2. apply count_inv_equiv.
    intros x y m _ _. rewrite elem_of_app, list_elem_of_singleton. tauto.
  - exists g'. split; [done|]. split; [by destruct Hinv'|].
    intros a b Hb. split.
    + rewrite (proj2 Hinv' a b Hb). unfold recount, mine_neighbours.
      destruct (mine_at game g0 a b); [done|]. do 3 f_equal.
      apply filter_length_eq. intros m _. split; [tauto|].
      intros Hm. split; [done|]. apply Is_true_true in Hm.
      apply mine_at_true in Hm as [Hbm _]. apply in_bounds_iff in Hbm.
      apply elem_of_seqZ. lia.
    + pose proof (count_inv_mine _ g' a b Hinv' Hb) as Hiff.
      destruct (mine_at game g0 a b) eqn:Hm0.
      * apply mine_at_true. split; [done|]. by apply Hiff.
      * apply not_true_is_false. intros Hm. apply mine_at_true in Hm as [_ Hm].
        apply Hiff in Hm. done.
Qed.

End Counting.

(** ** Placing the mines, and the whole generation *)

Lemma filter_length_none {A : Type} (P : A → Prop) `{!∀ x, Decision (P x)}
  (l : list A) :
  (∀ x, x ∈ l → ¬ P x) → length (filter P l) = 0%nat.
Proof.
  intros Hn. apply Nat.le_0_r.
  etrans; [apply (filter_length_le P (fun _ => False)); intros x Hx;
           by apply Hn|].
  clear Hn. induction l as [|a l IH]; [done|].
  by rewrite filter_cons_False by tauto.
Qed.

Section Generation.
Context {H : msw_header} {Hok : msw_header_ok H}.

Lemma clear_not_mine : MSW_CLEAR ≠ MSW_MINE.
Proof. destruct (mine_not_count (H := H)); lia. Qed.

Lemma mine_count_insert g i :
  look g i = Some MSW_CLEAR →
  mine_count (<[Z.to_nat i := MSW_MINE]> g) = mine_count g + 1.
Proof.
  intros Hi. pose proof (look_range _ _ _ Hi) as Hr.
  unfold mine_count, mine_cells. rewrite length_insert.
  rewrite (filter_length_flip (fun k => look g k = Some MSW_MINE)
             (fun k => look (<[Z.to_nat i := MSW_MINE]> g) k = Some MSW_MINE)
             _ i); [lia|..].
  - apply NoDup_seqZ.
  - apply elem_of_seqZ. lia.
  - rewrite Hi. intros [= E]. by apply clear_not_mine.
  - by apply look_insert_eq.
  - intros k _ Hk. by rewrite look_insert_ne by lia.
Qed.

Lemma look_replicate n x k y :
  look (replicate n x) k = Some y → y = x.
Proof. rewrite look_Some. intros [_ Hl]. by apply lookup_replicate in Hl as [-> _]. Qed.

Lemma mine_count_clear n : mine_count (replicate n MSW_CLEAR) = 0.
Proof.
  unfold mine_count, mine_cells. rewrite filter_length_none; [done|].
  intros k _ Hk. apply look_replicate in Hk. by apply clear_not_mine.
Qed.

Lemma placed_replicate n : placed (replicate n MSW_CLEAR).
Proof. intros k x Hk. left. by apply look_replicate in Hk. Qed.

(** The loop that places the mines, when it returns, has turned exactly
    [mines] clear cells into mines. *)
Lemma place_mines_post ncells rs :
  ∀ m g g' rs',
    placed g → place_mines ncells m rs g = Ok (g', rs') →
    length g' = length g ∧ placed g' ∧
    mine_count g' = mine_count g + Z.max m 0.
Proof.
  induction rs as [|x rs IH]; intros m g g' rs' Hp Hpl; simpl in Hpl.
  - case_bool_decide; [done|]. injection Hpl as <- <-.
    split_and!; [done|done|lia].
  - case_bool_decide as Hm; [|injection Hpl as <- <-; split_and!; [done|done|lia]].
    case_bool_decide as Hn; [done|].
    apply bind_Ok in Hpl as (c & Hc & Hpl). apply rd_Ok in Hc.
    case_bool_decide as Hcc.
    + subst c. apply bind_Ok in Hpl as (g1 & Hg1 & Hpl).
      apply wr_Ok in Hg1 as [Hr ->].
      apply IH in Hpl as (Hl' & Hp' & Hc').
      * rewrite length_insert in Hl'. rewrite mine_count_insert in Hc' by done.
        split_and!; [done|done|lia].
      * intros k y. rewrite look_insert by done.
        case_bool_decide; [|apply Hp]. intros [= <-]. by right.
    + apply IH in Hpl as (? & ? & ?); [|done]. split_and!; [done|done|lia].
Qed.

(** The mines of two grids that agree on [mine_at] are counted alike. *)
Lemma recount_same game g g' :
  (∀ a b, mine_at game g' a b = mine_at game g a b) →
  ∀ a b, recount game g' a b = recount game g a b.
Proof.
  intros Hm a b. unfold recount, mine_neighbours. rewrite Hm.
  destruct (mine_at game g a b); [done|]. do 2 f_equal.
  apply filter_length_eq. intros m _. by rewrite Hm.
Qed.

Lemma mine_count_same game g g' :
  0 ≤ columns game →
  Z.of_nat (length g) = rows game * columns game → length g' = length g →
  (∀ a b, mine_at game g' a b = mine_at game g a b) →
  mine_count g' = mine_count g.
Proof.
  intros Hc Hl Hl' Hm. unfold mine_count, mine_cells. rewrite Hl'. f_equal.
  apply filter_length_eq. intros k Hk. apply elem_of_seqZ in Hk.
  destruct (index_cell game k Hc) as [Hb Hix]; [lia|].
  specialize (Hm (k `div` columns game) (k `mod` columns game)).
  unfold mine_at in Hm. rewrite Hb, Hix in Hm. simpl in Hm.
  split; intros Hk'.
  - rewrite (bool_decide_true _ Hk') in Hm. symmetry in Hm.
    by apply bool_decide_eq_true in Hm.
  - rewrite (bool_decide_true (look g k = Some MSW_MINE) Hk') in Hm.
    by apply bool_decide_eq_true in Hm.
Qed.

(** What one run of [msw_generate_grid] that returns has made. *)
Lemma generate_grid_post obj rs obj' rs' g_old :
  0 ≤ rows obj → 0 ≤ columns obj →
  grid obj = Some g_old →
  Z.of_nat (length g_old) = rows obj * columns obj →
  msw_generate_grid obj rs = Ok (obj', rs') →
  ∃ g, obj' = with_grid obj g ∧
       Z.of_nat (length g) = rows obj * columns obj ∧
       counts_consistent obj g = true ∧
       mine_count g = Z.max (mines obj) 0.
Proof.
  intros Hr Hc Hg Hl Hgen. unfold msw_generate_grid in Hgen.
  rewrite Hg in Hgen. cbn zeta in Hgen.
  rewrite (fill_range _ _ _ Hl) in Hgen. simpl in Hgen.
  apply bind_Ok in Hgen as ([g2 rs2] & Hpl & Hgen).
  apply place_mines_post in Hpl as (Hl2 & Hp2 & Hc2);
    [|apply placed_replicate].
  rewrite length_replicate in Hl2. rewrite mine_count_clear in Hc2.
  destruct (count_pass_recount obj g2 ltac:(lia) Hp2)
    as (g3 & Hpass & Hl3 & Hrec).
  rewrite Hpass in Hgen. simpl in Hgen. injection Hgen as <- <-.
  assert (∀ a b, mine_at obj g3 a b = mine_at obj g2 a b) as Hmine.
  { intros a b. destruct (msw_in_bounds obj a b) eqn:Hb.
    - by apply Hrec.
    - unfold mine_at. by rewrite Hb. }
  exists g3. split_and!; [done|lia| |].
  - apply all_cells_spec. intros a b Hb. apply bool_decide_eq_true.
    rewrite (recount_same obj g2 g3 Hmine). by apply Hrec.
  - rewrite (mine_count_same obj g2 g3); try done; lia.
Qed.

Lemma generate_until_clear_post fuel :
  ∀ obj r c rs obj' rs' g_old,
    0 ≤ rows obj → 0 ≤ columns obj →
    grid obj = Some g_old →
    Z.of_nat (length g_old) = rows obj * columns obj →
    generate_until_clear fuel obj r c rs = Ok (obj', rs') →
    ∃ g, obj' = with_grid obj g ∧
         Z.of_nat (length g) = rows obj * columns obj ∧
         counts_consistent obj g = true ∧
         mine_count g = Z.max (mines obj) 0 ∧
         look g (msw_index obj r c) = Some MSW_CLEAR.
Proof.
  induction fuel as [|f IH]; intros obj r c rs obj' rs' g_old Hr Hc Hg Hl Hgen;
    [done|].
  simpl in Hgen. apply bind_Ok in Hgen as ([obj1 rs1] & Hg1 & Hgen).
  apply (generate_grid_post _ _ _ _ g_old) in Hg1
    as (g1 & -> & Hl1 & Hcons1 & Hcount1); try done.
  apply bind_Ok in Hgen as (x & Hx & Hgen). apply rd_Ok in Hx.
  case_bool_decide as Hxc.
  - apply (IH _ _ _ _ _ _ g1) in Hgen as (g & -> & ?); try done.
    by exists g.
  - injection Hgen as <- <-. exists g1. split_and!; try done.
    destruct (decide (x = MSW_CLEAR)) as [->|]; done.
Qed.

(** What a generation for a first dig at [(r, c)] that returns has made:
    a grid of the size of the board, with consistent counts, [mines] mines,
    and a clear cell at [(r, c)]. *)
Lemma initial_grid_post fuel obj r c rs obj' rs' :
  0 ≤ rows obj → 0 ≤ columns obj →
  msw_initial_grid fuel obj r c rs = Ok (obj', rs') →
  ∃ g, obj' = with_grid obj g ∧
       Z.of_nat (length g) = rows obj * columns obj ∧
       counts_consistent obj g = true ∧
       mine_count g = Z.max (mines obj) 0 ∧
       look g (msw_index obj r c) = Some MSW_CLEAR.
Proof.
  intros Hr Hc Hgen. unfold msw_initial_grid in Hgen.
  apply bind_Ok in Hgen as (g0 & Hnew & Hgen).
  unfold smb_new in Hnew. case_bool_decide as Hn; [|done].
  injection Hnew as <-.
  apply (generate_until_clear_post _ _ _ _ _ _ _
           (replicate (Z.to_nat (rows obj * columns obj)) 0)) in Hgen
    as (g & Hobj & ?); try done.
  - by exists g.
  - simpl. rewrite length_replicate. lia.
Qed.

(** *** When the generation can return *)

Lemma far_cells_spec game r c k :
  k ∈ far_cells game r c ↔
  0 ≤ k < rows game * columns game ∧
  ¬ (Z.abs (k `div` columns game - r) ≤ 1 ∧
     Z.abs (k `mod` columns game - c) ≤ 1).
Proof.
  unfold far_cells. rewrite list_elem_of_filter, elem_of_seqZ.
  split; intros [? ?]; (split; [done|lia]) || (split; [lia|done]).
Qed.

Lemma far_cells_NoDup game r c : NoDup (far_cells game r c).
Proof. apply NoDup_filter, NoDup_seqZ. Qed.

(** A cell of the board whose index is far from [(r, c)] is neither
    [(r, c)] nor one of its neighbours. *)
Lemma far_not_near game r c x y :
  msw_in_bounds game x y = true →
  msw_index game x y ∈ far_cells game r c →
  ¬ (Z.abs (x - r) ≤ 1 ∧ Z.abs (y - c) ≤ 1).
Proof.
  intros Hb Hfar. apply far_cells_spec in Hfar as [_ Hfar].
  destruct (index_div_mod game x y Hb) as [E1 E2].
  by rewrite E1, E2 in Hfar.
Qed.

(** If [(r, c)] is clear in a grid with consistent counts, all mines are far
    from it. *)
Lemma mines_far game g r c :
  0 ≤ columns game →
  Z.of_nat (length g) = rows game * columns game →
  counts_consistent game g = true →
  msw_in_bounds game r c = true →
  look g (msw_index game r c) = Some MSW_CLEAR →
  ∀ k, k ∈ mine_cells g → k ∈ far_cells game r c.
Proof.
  intros Hc Hl Hcons Hb Hclear k Hk. unfold mine_cells in Hk.
  apply list_elem_of_filter in Hk as [Hm Hk]. apply elem_of_seqZ in Hk.
  apply far_cells_spec. split; [lia|]. intros [Hx Hy].
  destruct (index_cell game k Hc) as [Hbk Hix]; [lia|].
  set (x := k `div` columns game) in *. set (y := k `mod` columns game) in *.
  destruct (decide ((x - r, y - c) = (0, 0))) as [[= Ex Ey]|Hne].
  - assert (x = r) as -> by lia. assert (y = c) as -> by lia.
    rewrite Hix in Hclear. rewrite Hclear in Hm.
    injection Hm as Hm. by apply clear_not_mine.
  - destruct (nbr_complete _ _ Hx Hy Hne) as (n & Hn & Hdr & Hdc).
    pose proof (consistent_clear_nbr game g r c n clear_not_mine Hcons Hb
                  Hclear Hn) as Hnm.
    rewrite Hdr, Hdc in Hnm.
    replace (r + (x - r)) with x in Hnm by lia.
    replace (c + (y - c)) with y in Hnm by lia.
    unfold mine_at in Hnm. rewrite Hbk, Hix, Hm in Hnm.
    by rewrite bool_decide_true in Hnm.
Qed.

Lemma place_mines_zero ncells m rs g :
  m ≤ 0 → place_mines ncells m rs g = Ok (g, rs).
Proof.
  intros Hm. destruct rs; simpl; by rewrite bool_decide_false by lia.
Qed.

(** When [rand()] returns, one after the other, distinct clear cells, each
    becomes a mine, and the loop stops after the last one. *)
Lemma place_mines_fresh ncells rest (L : list Z) :
  ∀ g, NoDup L →
    (∀ k, k ∈ L → 0 ≤ k < ncells ∧ look g k = Some MSW_CLEAR) →
    ∃ g', place_mines ncells (Z.of_nat (length L))
            ((Z.to_N <$> L) ++ rest) g = Ok (g', rest) ∧
          length g' = length g ∧
          ∀ k, look g' k = if bool_decide (k ∈ L) then Some MSW_MINE
                           else look g k.
Proof.
  induction L as [|k L IH]; intros g Hnd HL.
  - exists g. split; [by apply place_mines_zero|]. split; [done|].
    intros k. rewrite bool_decide_false; [done|]. apply not_elem_of_nil.
  - apply NoDup_cons in Hnd as [Hk Hnd].
    destruct (HL k ltac:(left)) as [Hr Hclear].
    pose proof (look_range _ _ _ Hclear) as Hrg.
    rewrite fmap_cons. cbn [app length place_mines].
    rewrite bool_decide_true by lia. rewrite bool_decide_false by lia.
    rewrite Z2N.id by lia. rewrite Z.rem_small by lia.
    rewrite (rd_look _ _ _ Hclear). simpl.
    rewrite bool_decide_true by done. rewrite wr_in_range by done. simpl.
    replace (Z.of_nat (S (length L)) - 1) with (Z.of_nat (length L)) by lia.
    destruct (IH (<[Z.to_nat k := MSW_MINE]> g) Hnd) as (g' & -> & Hl' & Hg').
    { intros k' Hk'. destruct (HL k' ltac:(by right)) as [? ?].
      split; [done|]. rewrite look_insert_ne; [done|lia|]. by intros ->. }
    exists g'. split; [done|]. split; [by rewrite Hl', length_insert|].
    intros k'. rewrite Hg'. rewrite look_insert by done.
    destruct (decide (k' ∈ L)) as [Hin|Hin].
    + rewrite !bool_decide_true; [done|by right|done].
    + rewrite (bool_decide_false (k' ∈ L)) by done.
      destruct (decide (k' = k)) as [->|Hne].
      * rewrite !bool_decide_true; [done|by left|done].
      * rewrite !bool_decide_false; [done| |done].
        intros [->|?]%elem_of_cons; done.
Qed.

(** On the random numbers of [far_stream] the generation returns at the
    first grid. *)
Lemma initial_grid_far fuel obj r c rest :
  0 ≤ rows obj → 0 ≤ columns obj → 0 ≤ mines obj →
  msw_in_bounds obj r c = true →
  mines obj ≤ Z.of_nat (length (far_cells obj r c)) →
  ∃ obj', msw_initial_grid (S fuel) obj r c (far_stream obj r c ++ rest)
          = Ok (obj', rest).
Proof.
  intros Hr Hc Hm Hb Hfar. unfold msw_initial_grid, smb_new.
  rewrite bool_decide_true by nia. simpl.
  unfold msw_generate_grid. cbn [grid with_grid rows columns mines].
  rewrite fill_range by (rewrite length_replicate; lia). simpl.
  set (L := take (Z.to_nat (mines obj)) (far_cells obj r c)).
  assert (length L = Z.to_nat (mines obj)) as HlenL.
  { unfold L. apply length_take_le. lia. }
  assert (∀ k, k ∈ L → k ∈ far_cells obj r c) as HL.
  { intros k Hk. by apply (subseteq_take (Z.to_nat (mines obj))). }
  set (g1 := replicate (Z.to_nat (rows obj * columns obj)) MSW_CLEAR).
  destruct (place_mines_fresh (rows obj * columns obj) rest L g1)
    as (g2 & Hpl & Hl2 & Hg2).
  { apply (sublist_NoDup L (far_cells obj r c)).
    - apply far_cells_NoDup.
    - apply sublist_take. }
  { intros k Hk. apply HL, far_cells_spec in Hk as [Hk _]. split; [done|].
    apply look_Some. split; [lia|]. apply lookup_replicate_2. lia. }
  rewrite HlenL, Z2Nat.id in Hpl by done. unfold far_stream. fold L.
  rewrite Hpl. simpl.
  assert (placed g2) as Hp2.
  { intros k x. rewrite Hg2. case_bool_decide; [intros [= <-]; by right|].
    intros Hx. left. by apply look_replicate in Hx. }
  destruct (count_pass_recount
              (with_grid obj
                 (replicate (Z.to_nat (rows obj * columns obj)) 0)) g2)
    as (g3 & Hpass & Hl3 & Hrec); [|done|].
  { simpl. rewrite Hl2. unfold g1. rewrite length_replicate. lia. }
  rewrite Hpass. simpl.
  assert (∀ x y, Z.abs (x - r) ≤ 1 → Z.abs (y - c) ≤ 1 →
            mine_at obj g2 x y = false) as Hnear.
  { intros x y Hx Hy. apply not_true_is_false. intros Hmine.
    unfold mine_at in Hmine. apply andb_true_iff in Hmine as [Hbx Hmine].
    apply bool_decide_eq_true in Hmine. rewrite Hg2 in Hmine.
    case_bool_decide as Hin.
    - apply HL in Hin. by apply (far_not_near obj r c x y Hbx Hin).
    - apply look_replicate in Hmine. by apply clear_not_mine. }
  destruct (Hrec r c Hb) as [Hrc _]. unfold rd_grid. simpl.
  change (msw_index (with_grid obj
            (replicate (Z.to_nat (rows obj * columns obj)) 0)) r c)
    with (msw_index obj r c) in Hrc.
  assert (recount (with_grid obj
            (replicate (Z.to_nat (rows obj * columns obj)) 0)) g2 r c
          = MSW_CLEAR) as Hclear.
  { unfold recount, mine_neighbours.
    change (mine_at (with_grid obj
              (replicate (Z.to_nat (rows obj * columns obj)) 0)))
      with (mine_at obj).
    rewrite Hnear by lia. rewrite filter_length_none; [lia|].
    intros n Hn. apply elem_of_nbrs in Hn.
    destruct (nbr_near n Hn) as [Hdr Hdc].
    rewrite Hnear by lia. cbn. tauto. }
  rewrite Hclear in Hrc.
  change (msw_index (with_grid (with_grid obj
            (replicate (Z.to_nat (rows obj * columns obj)) 0)) g3) r c)
    with (msw_index obj r c).
  rewrite (rd_look _ _ _ Hrc). simpl.
  rewrite bool_decide_false by tauto. by eexists.
Qed.

(** The generation returns only if the board has room for the mines away
    from [(r, c)]. *)
Lemma initial_grid_needs_room fuel obj r c rs obj' rs' :
  0 ≤ rows obj → 0 ≤ columns obj →
  msw_in_bounds obj r c = true →
  msw_initial_grid fuel obj r c rs = Ok (obj', rs') →
  Z.max (mines obj) 0 ≤ Z.of_nat (length (far_cells obj r c)).
Proof.
  intros Hr Hc Hb Hgen.
  apply initial_grid_post in Hgen as (g & _ & Hl & Hcons & <- & Hclear);
    try done.
  unfold mine_count. apply inj_le, submseteq_length, NoDup_submseteq.
  - apply NoDup_filter, NoDup_seqZ.
  - by apply mines_far.
Qed.

End Generation.

(** ** The states of a session *)

Section Sessions.
Context {H : msw_header} {Hok : msw_header_ok H}.

Lemma counts_consistent_same game game' g :
  rows game' = rows game → columns game' = columns game →
  counts_consistent game' g = counts_consistent game g.
Proof.
  unfold counts_consistent, all_cells, recount, mine_neighbours, mine_at,
    msw_in_bounds, msw_index.
  by intros -> ->.
Qed.

Lemma session_ok_spec game :
  session_ok game = true ↔
  wf_game game = true ∧ shown_true game = true ∧
  ∀ g, grid game = Some g →
    counts_consistent game g = true ∧ flood_closed game g = true.
Proof.
  unfold session_ok. rewrite !andb_true_iff. destruct (grid game) as [g|].
  - rewrite andb_true_iff. split.
    + intros [[? ?] [? ?]]. split_and!; try done. by intros ? [= <-].
    + intros (? & ? & Hg). destruct (Hg g eq_refl). done.
  - split; [|tauto]. intros [[? ?] _]. split_and!; done.
Qed.

(** The true cells hold no code of the visible board alone. *)
Lemma consistent_codes game g a b x :
  counts_consistent game g = true → msw_in_bounds game a b = true →
  look g (msw_index game a b) = Some x →
  x ≠ MSW_UNKNOWN ∧ x ≠ MSW_FLAG.
Proof.
  intros Hcons Hb Hx. unfold counts_consistent in Hcons.
  rewrite all_cells_spec in Hcons. specialize (Hcons a b Hb).
  apply bool_decide_eq_true in Hcons. rewrite Hx in Hcons.
  injection Hcons as ->. unfold recount.
  destruct (mine_at game g a b).
  - split; apply not_eq_sym; [apply unknown_not_mine|apply flag_not_mine].
  - unfold mine_neighbours.
    pose proof (nbrs_filter_le
                  (fun n => mine_at game g (a + at_ rnbr n) (b + at_ cnbr n)))
      as Hle.
    destruct (unknown_not_count (H := H)), (flag_not_count (H := H)); lia.
Qed.

Lemma create_session_ok r c m game :
  0 ≤ r → 0 ≤ c → smb_mine_create r c m = Ok game → session_ok game = true.
Proof.
  intros Hr Hc Hcreate. rewrite create_Ok in Hcreate by nia.
  injection Hcreate as <-. apply session_ok_spec. split_and!.
  - apply wf_game_spec. simpl. rewrite length_replicate.
    split_and!; [done|done|nia|done].
  - apply shown_true_spec. simpl. intros i x Hx. left.
    by apply look_replicate in Hx.
  - done.
Qed.

(** Before anything is shown as clear the board is closed under the flood,
    whatever the grid. *)
Lemma flood_closed_fresh game g :
  (∀ i, look (visible game) i ≠ Some MSW_CLEAR) →
  flood_closed game g = true.
Proof.
  intros Hv. apply flood_closed_spec. intros x y _ Hc. by apply Hv in Hc.
Qed.

Lemma step_session_ok o game rs game' rs' :
  session_ok game = true →
  step o (game, rs) = Ok (game', rs') →
  session_ok game' = true.
Proof.
  rewrite !session_ok_spec. intros (Hwf & Hshown & Hgrid) Hstep.
  destruct (step_shown o game rs game' rs' Hshown Hstep) as [Hshown' _].
  split_and!; [|done|].
  - (* the shape *)
    destruct o as [fuel row col|row col]; simpl in Hstep.
    + apply bind_Ok in Hstep as ([[ret game1] rs1] & Hdig & Hst).
      injection Hst as <- <-.
      rewrite dig_erase in Hdig. apply drop_log_Ok in Hdig as [log Hdig].
      apply dig_log_any in Hdig
        as [(_ & _ & -> & _)|(_ & g & Hg & _ & Hpost)]; [done|].
      destruct Hpost as [Hr Hc _ Hg1 [Hlen _] _ _ _]. simpl in *.
      apply wf_game_spec in Hwf as (? & ? & ? & Hlg).
      apply wf_game_spec. rewrite Hr, Hc, Hlen.
      split_and!; try done. intros g' Hg'.
      assert (g' = g) as -> by congruence.
      destruct Hg as [[Hg _]|[_ [f Hgen]]]; [by apply Hlg|].
      by apply initial_grid_post in Hgen as (g' & [= <-] & ? & _).
    + apply bind_Ok in Hstep as ([ret game1] & Hflag & Hst).
      injection Hst as <- <-.
      apply flag_post in Hflag as (_ & ? & ? & _ & ? & ? & _).
      by apply (wf_game_same game).
  - (* the grid and the flood *)
    intros g' Hg'.
    destruct o as [fuel row col|row col]; simpl in Hstep.
    + apply bind_Ok in Hstep as ([[ret game1] rs1] & Hdig & Hst).
      injection Hst as <- <-.
      rewrite dig_erase in Hdig. apply drop_log_Ok in Hdig as [log Hdig].
      apply dig_log_any in Hdig
        as [(_ & _ & -> & _)|(_ & g & Hg & _ & Hpost)]; [by apply Hgrid|].
      pose proof (post_grid _ _ _ _ _ _ Hpost) as Hg1.
      assert (g' = g) as -> by congruence.
      assert (counts_consistent game g = true ∧
              flood_closed (with_grid game g) g = true) as [Hcons Hclosed].
      { destruct Hg as [[Hg _]|[Hg [f Hgen]]].
        - rewrite (with_grid_id _ _ Hg). by apply Hgrid.
        - apply wf_game_spec in Hwf as (? & ? & _).
          apply initial_grid_post in Hgen as (g' & [= <-] & _ & ? & _);
            try done.
          split; [done|]. apply flood_closed_fresh. simpl. intros i Hi.
          rewrite shown_true_spec in Hshown.
          destruct (Hshown i _ Hi) as [E|[E|(g0 & Hg0 & _)]];
            [..|congruence].
          + destruct (unknown_not_count (H := H)); lia.
          + destruct (flag_not_count (H := H)); lia. }
      split.
      * rewrite <- Hcons. apply counts_consistent_same; by destruct Hpost.
      * by apply (flood_closed_dig (with_grid game g) g row col game1 log).
    + apply bind_Ok in Hstep as ([ret game1] & Hflag & Hst).
      injection Hst as <- <-.
      apply flag_post in Hflag as (_ & Hr & Hc & _ & Hg & _ & Hch).
      rewrite Hg in Hg'. destruct (Hgrid g' Hg') as [Hcons Hclosed].
      split.
      * rewrite <- Hcons. by apply counts_consistent_same.
      * rewrite flood_closed_spec in Hclosed |- *.
        intros x y Hb Hv Hgx n Hn Hbn.
        rewrite (in_bounds_same game game1) in Hb, Hbn by done.
        rewrite (index_same game game1) in Hv, Hgx |- * by done.
        assert (∀ k, look (visible game1) k ≠ Some MSW_CLEAR ∨
                     look (visible game1) k = look (visible game) k) as Hkeep.
        { intros k.
          destruct (decide (look (visible game1) k = look (visible game) k))
            as [E|NE]; [by right|].
          left. destruct (Hch k NE) as (_ & _ & ->). intros [= E].
          destruct (flag_not_count (H := H)); lia. }
        destruct (Hkeep (msw_index game x y)) as [?|E]; [done|].
        rewrite E in Hv.
        pose proof (Hclosed x y Hb Hv Hgx n Hn Hbn) as Hs.
        set (k := msw_index game (x + at_ rnbr n) (y + at_ cnbr n)) in *.
        destruct (decide (look (visible game1) k = look (visible game) k))
          as [Ek|NEk].
        { unfold settled, protected in *. by rewrite Ek. }
        exfalso. destruct (Hch k NEk) as (_ & Hu & _).
        destruct Hs as [Hs|(Hs & _)].
        -- rewrite Hu in Hs. symmetry in Hs.
           by destruct (consistent_codes game g' _ _ _ Hcons Hbn Hs).
        -- rewrite Hu in Hs. injection Hs as Hs.
           by apply (unknown_not_flag (H := H)).
Qed.

(** Every state reached from a state of a session is one. *)
Lemma run_session_ok os :
  ∀ game rs game' rs',
    session_ok game = true →
    run os (game, rs) = Ok (game', rs') →
    session_ok game' = true.
Proof.
  induction os as [|o os IH]; intros game rs game' rs' Hok' Hrun.
  - simpl in Hrun. by injection Hrun as <- <-.
  - simpl in Hrun. apply bind_Ok in Hrun as ([game1 rs1] & Hstep & Hrun).
    apply (IH game1 rs1 game' rs'); [|done].
    by apply (step_session_ok o game rs game1 rs1).
Qed.

End Sessions.

Lemma ascii_header_ok : msw_header_ok ascii_header.
Proof. split; vm_compute; try lia; intuition congruence. Qed.

(** *** Flags under a dig, and flags off the board *)

(** A flag on a count is left alone. *)
Lemma dig_flagged_count `{H : msw_header} f game rs row col g gi :
  grid game = Some g → msw_in_bounds game row col = true →
  look g (msw_index game row col) = Some gi →
  gi ≠ MSW_CLEAR → gi ≠ MSW_MINE →
  look (visible game) (msw_index game row col) = Some MSW_FLAG →
  msw_dig (S f) game rs row col = Ok (1, game, rs).
Proof.
  intros Hg Hb Hgi Hc Hm Hv. rewrite dig_erase.
  rewrite (dig_log_settled f game rs row col g gi); try done.
  right. split_and!; congruence.
Qed.

(** A flag on a mine is not: the mine is shown and the dig returns -1. *)
Lemma dig_flagged_mine `{H : msw_header} f game rs row col g :
  MSW_CLEAR ≠ MSW_MINE →
  grid game = Some g → msw_in_bounds game row col = true →
  look g (msw_index game row col) = Some MSW_MINE →
  look (visible game) (msw_index game row col) = Some MSW_FLAG →
  msw_dig (S f) game rs row col =
  Ok (-1, with_visible game
            (<[Z.to_nat (msw_index game row col) := MSW_MINE]> (visible game)),
      rs).
Proof.
  intros Hcm Hg Hb Hgi Hv. simpl. rewrite Hb, Hg. simpl.
  unfold rd_grid. rewrite Hg, (rd_look _ _ _ Hgi). simpl.
  rewrite (rd_look _ _ _ Hv). simpl.
  rewrite (bool_decide_false (MSW_MINE = MSW_CLEAR)) by done. simpl.
  rewrite bool_decide_true by done.
  rewrite wr_in_range by (by apply look_range in Hv). done.
Qed.

(** [msw_flag] flags the unknown cell at the index it computes, on the board
    or off it. *)
Lemma flag_at_index `{H : msw_header} game r c :
  look (visible game) (msw_index game r c) = Some MSW_UNKNOWN →
  msw_flag game r c =
  Ok (1, with_visible game
           (<[Z.to_nat (msw_index game r c) := MSW_FLAG]> (visible game))).
Proof.
  intros Hv. unfold msw_flag. rewrite (rd_look _ _ _ Hv). simpl.
  rewrite bool_decide_true by done.
  rewrite wr_in_range by (by apply look_range in Hv). done.
Qed.

(** ** The counts and the block around a cell *)

Section Around.
Context {H : msw_header}.

(** The tables name each neighbour once. *)
Lemma nbr_inj n n' :
  0 ≤ n < NUM_NEIGHBORS → 0 ≤ n' < NUM_NEIGHBORS →
  at_ rnbr n = at_ rnbr n' → at_ cnbr n = at_ cnbr n' → n = n'.
Proof.
  intros Hn Hn'.
  destruct (nbr_cases n Hn) as [->|[->|[->|[->|[->|[->|[->| ->]]]]]]];
    destruct (nbr_cases n' Hn') as [->|[->|[->|[->|[->|[->|[->| ->]]]]]]];
    vm_compute; congruence.
Qed.

Lemma nbr_not_self n :
  0 ≤ n < NUM_NEIGHBORS → ¬ (at_ rnbr n = 0 ∧ at_ cnbr n = 0).
Proof.
  intros Hn.
  destruct (nbr_cases n Hn) as [->|[->|[->|[->|[->|[->|[->| ->]]]]]]];
    vm_compute; intros [? ?]; congruence.
Qed.

(** The recount through the tables counts the mines of the block of three by
    three cells around the cell. *)
Lemma mine_neighbours_around game g i j :
  0 ≤ columns game →
  Z.of_nat (length g) = rows game * columns game →
  mine_neighbours game g i j = mines_around game g i j.
Proof.
  intros Hc Hl. unfold mine_neighbours, mines_around. f_equal.
  set (f := fun n => msw_index game (i + at_ rnbr n) (j + at_ cnbr n)).
  set (L1 := filter _ (seqZ 0 NUM_NEIGHBORS)).
  set (L2 := filter _ (mine_cells g)).
  rewrite <- (length_fmap f L1). apply Permutation_length.
  assert (∀ n, n ∈ L1 ↔
            0 ≤ n < NUM_NEIGHBORS ∧
            msw_in_bounds game (i + at_ rnbr n) (j + at_ cnbr n) = true ∧
            look g (f n) = Some MSW_MINE) as HL1.
  { intros n. unfold L1. rewrite list_elem_of_filter, elem_of_nbrs.
    unfold mine_at. rewrite Is_true_true, andb_true_iff, bool_decide_eq_true.
    tauto. }
  apply NoDup_Permutation.
  - apply NoDup_fmap_2_strong; [|apply NoDup_filter, NoDup_seqZ].
    intros n n' Hn Hn' E. apply HL1 in Hn as (Hn & Hb & _).
    apply HL1 in Hn' as (Hn' & Hb' & _).
    destruct (index_inj game _ _ _ _ Hb Hb' E) as [E1 E2].
    apply nbr_inj; [done|done|lia|lia].
  - apply NoDup_filter. unfold mine_cells. apply NoDup_filter, NoDup_seqZ.
  - intros k. rewrite list_elem_of_fmap. unfold L2.
    rewrite list_elem_of_filter. unfold mine_cells.
    rewrite list_elem_of_filter, elem_of_seqZ. split.
    + intros (n & -> & Hn). apply HL1 in Hn as (Hn & Hb & Hm).
      destruct (index_div_mod game _ _ Hb) as [Hd Hmod]. fold (f n) in Hd, Hmod.
      destruct (nbr_near n Hn) as [? ?].
      pose proof (nbr_not_self n Hn) as Hns.
      pose proof (look_range _ _ _ Hm).
      rewrite Hd, Hmod. split_and!; [lia|lia|lia|done|lia|lia].
    + intros ((Hdr & Hdc & Hself) & Hm & Hk).
      destruct (nbr_complete (k `div` columns game - i)
                  (k `mod` columns game - j) Hdr Hdc) as (n & Hn & Er & Ec).
      { intros [= ? ?]. apply Hself. lia. }
      destruct (index_cell game k Hc ltac:(lia)) as [Hb Hix].
      assert (f n = k) as Hf.
      { unfold f. rewrite Er, Ec. rewrite <- Hix at 3. unfold msw_index. lia. }
      exists n. split; [by rewrite Hf|]. apply HL1.
      split_and!; [lia|lia| |by rewrite Hf].
      rewrite Er, Ec. rewrite <- Hb.
      replace (i + (k `div` columns game - i)) with (k `div` columns game)
        by lia.
      replace (j + (k `mod` columns game - j)) with (k `mod` columns game)
        by lia.
      done.
Qed.

(** Grids with the same mines give the same recount through the tables. *)
Lemma mine_neighbours_same game g g' i j :
  (∀ a b, mine_at game g' a b = mine_at game g a b) →
  mine_neighbours game g' i j = mine_neighbours game g i j.
Proof.
  intros Hm. unfold mine_neighbours. f_equal.
  apply filter_length_eq. intros m _. by rewrite Hm.
Qed.

(** In a grid with consistent counts a cell of the board is a mine or holds
    [MSW_CLEAR] plus the number of mines around it. *)
Lemma consistent_around game g i j :
  0 ≤ columns game →
  Z.of_nat (length g) = rows game * columns game →
  counts_consistent game g = true →
  msw_in_bounds game i j = true →
  look g (msw_index game i j) =
  Some (if bool_decide (look g (msw_index game i j) = Some MSW_MINE)
        then MSW_MINE
        else MSW_CLEAR + mines_around game g i j).
Proof.
  intros Hc Hl Hcons Hb.
  unfold counts_consistent in Hcons. rewrite all_cells_spec in Hcons.
  specialize (Hcons i j Hb). apply bool_decide_eq_true in Hcons.
  rewrite Hcons at 1. f_equal. unfold recount, mine_at. rewrite Hb. simpl.
  by rewrite (mine_neighbours_around game g i j Hc Hl).
Qed.

End Around.

(** ** The sample boards in a session *)

(** The fresh sample boards are what [smb_mine_create] returns. *)
Lemma fresh_boards_created :
  @smb_mine_create ascii_header 1 7 1 = Ok row_fresh ∧
  @smb_mine_create ascii_header 2 2 1 = Ok small_fresh.
Proof. by vm_compute. Qed.

(** The state [row_game] arises in a session: a first dig at the right end,
    with [rand()] returning 3, then a flag at [(0, 2)]. *)
Lemma row_game_reached :
  run (H := ascii_header) [Dig 9 0 6; Flag 0 2] (row_fresh, [3%N])
  = Ok (row_game, []).
Proof. by vm_compute. Qed.

(** * The properties *)

(** C1: the test for a flag comes after the tests for a clear cell and for
    a mine.  In the session below, the first dig generates the grid, the
    mine at [(0, 3)] is flagged, and the dig on the flag returns -1 and
    shows the mine.  A flag on the clear cell [(0, 0)] is lost in the same
    way, to the flood. *)
Theorem flag_does_not_protect_mine :
  ∃ game,
    run (H := ascii_header) [Dig 9 0 6; Flag 0 3; Flag 0 0] (row_fresh, [3%N])
    = Ok (game, []) ∧
    grid game = Some [48; 48; 49; 42; 49; 48; 48] ∧
    visible game = [70; 63; 63; 70; 49; 48; 48] ∧
    @msw_dig ascii_header 9 game [] 0 3 =
      Ok (-1, with_visible game [70; 63; 63; 42; 49; 48; 48], []) ∧
    @msw_dig ascii_header 9 game [] 0 0 =
      Ok (1, with_visible game [48; 48; 49; 70; 49; 48; 48], []).
Proof. eexists. split; [by vm_compute|]. by vm_compute. Qed.

(** C2: [msw_flag] does not look at the bounds.  On a fresh board of two by
    two cells, a flag at [(0, 2)], which is off the board, returns 1 and
    lands on the cell [(1, 0)], whose index it shares; flags at [(-1, 0)]
    and at [(2, 0)] read outside the array. *)
Theorem flag_off_board_lands_on_board :
  msw_in_bounds small_fresh 0 2 = false ∧
  @msw_flag ascii_header small_fresh 0 2 =
    Ok (1, {| rows := 2; columns := 2; mines := 1; grid := None;
              visible := [63; 63; 70; 63] |}) ∧
  @msw_flag ascii_header small_fresh (-1) 0 = Fault ∧
  @msw_flag ascii_header small_fresh 2 0 = Fault.
Proof. by vm_compute. Qed.

(** C3, as the code has it: creating a game checks nothing.  Whenever the
    number of cells [rows * columns] is not negative, [smb_mine_create]
    returns a game that stores the three numbers as they were given, has no
    grid yet, and shows [rows * columns] unknown cells. *)
Theorem create_never_rejects `{H : msw_header} (r c m : Z) :
  0 ≤ r * c →
  ∃ game,
    smb_mine_create r c m = Ok game ∧
    rows game = r ∧ columns game = c ∧ mines game = m ∧ grid game = None ∧
    visible game = replicate (Z.to_nat (r * c)) MSW_UNKNOWN.
Proof.
  intros Hn. unfold smb_mine_create, smb_mine_init, smb_new.
  rewrite bool_decide_true by done. simpl.
  rewrite fill_range by (rewrite length_replicate; lia). simpl.
  eexists. split; [done|]. done.
Qed.

Lemma create_never_rejects_witness :
  ∃ game,
    @smb_mine_create ascii_header 2 2 4 = Ok game ∧
    rows game = 2 ∧ columns game = 2 ∧ mines game = 4 ∧ grid game = None ∧
    visible game = [63; 63; 63; 63].
Proof.
  apply (@create_never_rejects ascii_header 2 2 4). lia.
Defined.

(** C3 as stated fails: a game of two by two cells with four mines is
    created like any other. *)
Lemma create_accepts_full_board :
  ¬ (∀ r c m : Z,
       r ≤ 0 ∨ c ≤ 0 ∨ ¬ (0 ≤ m < r * c) →
       ∀ game, @smb_mine_create ascii_header r c m ≠ Ok game).
Proof.
  intros Hclaim.
  apply (Hclaim 2 2 4 ltac:(right; right; lia)
           {| rows := 2; columns := 2; mines := 4; grid := None;
              visible := [63; 63; 63; 63] |}).
  by vm_compute.
Qed.

(** C4, as the code has it: in a state of a session (the grid has consistent
    counts and the visible board is closed under the flood, see
    [run_session_ok]), a dig on a clear cell of the board whose region
    carries no flag returns 1 as soon as the fuel exceeds the number of
    cells.  Afterwards every cell of the region of the dug cell is shown as
    clear; every cell of its border shows its true count, unless it carried
    a flag, which it keeps; every other cell is as it was.  The grid is
    unchanged. *)
Theorem dig_floods_region `{H : msw_header} fuel game rs row col g :
  MSW_CLEAR ≠ MSW_MINE →
  wf_game game = true → grid game = Some g →
  counts_consistent game g = true →
  flood_closed game g = true →
  msw_in_bounds game row col = true →
  look g (msw_index game row col) = Some MSW_CLEAR →
  (∀ x y, region game g row col x y →
     look (visible game) (msw_index game x y) ≠ Some MSW_FLAG) →
  (length (visible game) < fuel)%nat →
  ∃ game',
    msw_dig fuel game rs row col = Ok (1, game', rs) ∧
    grid game' = Some g ∧
    ∀ x y, msw_in_bounds game x y = true →
      (region game g row col x y →
       look (visible game') (msw_index game x y) = Some MSW_CLEAR) ∧
      (border game g row col x y →
       look (visible game') (msw_index game x y) =
       if bool_decide (look (visible game) (msw_index game x y)
                       = Some MSW_FLAG)
       then Some MSW_FLAG else look g (msw_index game x y)) ∧
      (¬ region game g row col x y → ¬ border game g row col x y →
       look (visible game') (msw_index game x y)
       = look (visible game) (msw_index game x y)).
Proof.
  intros Hcm Hwf Hg Hcons Hclosed Hb Hl _ Hfuel.
  destruct (dig_log_total fuel game rs row col g Hwf Hg)
    as (ret & game' & log & Hlog).
  { pose proof (todo_le g (visible game)). lia. }
  exists game'. split.
  { rewrite dig_erase, Hlog. simpl. do 3 f_equal.
    destruct (dig_log_reads _ _ _ _ _ g _ _ _ _ Hg Hb Hlog)
      as (gi & vi & Hgi & Hvi).
    rewrite (dig_log_ret _ _ _ _ _ g _ _ _ _ gi vi Hg Hb Hgi Hvi Hlog).
    assert (gi = MSW_CLEAR) as -> by congruence.
    rewrite (bool_decide_false (MSW_CLEAR = MSW_MINE)) by done.
    by destruct (_ && _). }
  destruct (dig_log_post _ _ _ _ _ g _ _ _ _ Hg Hlog) as [_ Hpost].
  pose proof (flood_closed_dig _ _ _ _ _ _ Hclosed Hpost) as Hclosed'.
  destruct Hpost as [Hr Hc _ Hg' Hrev Hhere _ _].
  split; [done|]. intros x y Hbx.
  assert (∀ a b, region game g row col a b →
            look (visible game') (msw_index game a b) = Some MSW_CLEAR)
    as Hregion.
  { intros a b Hreg.
    rewrite <- (index_same game game') by done.
    apply (region_shown game' g row col).
    - done.
    - rewrite (index_same game game') by done. by apply Hhere.
    - apply (region_same game' game); [congruence..|done]. }
  split_and!.
  - apply Hregion.
  - intros [[_ (a & b & n & Hreg & Hn & -> & ->)] Hnc].
    pose proof (Hregion a b Hreg) as Hva.
    apply region_clear in Hreg as [Hba Hla].
    pose proof (proj1 (flood_closed_spec _ _) Hclosed') as Hcl.
    rewrite <- (in_bounds_same game game') in Hba, Hbx by done.
    rewrite <- (index_same game game') in Hva, Hla by done.
    pose proof (Hcl a b Hba Hva Hla n Hn Hbx) as Hs.
    rewrite (index_same game game') in Hs by done.
    rewrite (in_bounds_same game game') in Hba, Hbx by done.
    rewrite (index_same game game') in Hla by done.
    pose proof (consistent_clear_nbr game g a b n Hcm Hcons Hba Hla Hn) as Hnm.
    unfold mine_at in Hnm. rewrite Hbx in Hnm. simpl in Hnm.
    apply bool_decide_eq_false in Hnm.
    set (k := msw_index game (a + at_ rnbr n) (b + at_ cnbr n)) in *.
    destruct Hrev as [_ Hrev].
    case_bool_decide as Hflag.
    + destruct (decide (look (visible game') k = look (visible game) k))
        as [E|NE]; [congruence|].
      destruct (Hrev k NE) as (_ & Hnp & _). exfalso. by apply Hnp.
    + destruct Hs as [Hs|(Hs & _)]; [done|].
      destruct (decide (look (visible game') k = look (visible game) k))
        as [E|NE]; [congruence|].
      by destruct (Hrev k NE) as (? & _).
  - intros Hnr Hnb.
    destruct (decide (look (visible game') (msw_index game x y)
                      = look (visible game) (msw_index game x y)))
      as [E|NE]; [done|].
    destruct Hrev as [_ Hrev].
    destruct (Hrev _ NE) as (_ & _ & x' & y' & Hd & Hix).
    destruct (index_inj game x y x' y' Hbx (proj1 Hd) Hix) as [<- <-].
    destruct (dug_region_or_border game g row col x y Hl Hd); tauto.
Qed.

Lemma dig_floods_region_witness :
  counts_consistent (H := ascii_header) row_game
    [48; 48; 49; 42; 49; 48; 48] = true ∧
  flood_closed (H := ascii_header) row_game
    [48; 48; 49; 42; 49; 48; 48] = true ∧
  ∃ game',
    @msw_dig ascii_header 8 row_game [] 0 0 = Ok (1, game', []) ∧
    grid game' = Some [48; 48; 49; 42; 49; 48; 48] ∧
    ∀ x y, msw_in_bounds row_game x y = true →
      (region (H := ascii_header) row_game [48; 48; 49; 42; 49; 48; 48]
         0 0 x y →
       look (visible game') (msw_index row_game x y) = Some 48) ∧
      (border (H := ascii_header) row_game [48; 48; 49; 42; 49; 48; 48]
         0 0 x y →
       look (visible game') (msw_index row_game x y) =
       if bool_decide (look (visible row_game) (msw_index row_game x y)
                       = Some 70)
       then Some 70
       else look [48; 48; 49; 42; 49; 48; 48] (msw_index row_game x y)) ∧
      (¬ region (H := ascii_header) row_game [48; 48; 49; 42; 49; 48; 48]
           0 0 x y →
       ¬ border (H := ascii_header) row_game [48; 48; 49; 42; 49; 48; 48]
           0 0 x y →
       look (visible game') (msw_index row_game x y)
       = look (visible row_game) (msw_index row_game x y)).
Proof.
  split; [by vm_compute|]. split; [by vm_compute|].
  apply (@dig_floods_region ascii_header 8 row_game [] 0 0
           [48; 48; 49; 42; 49; 48; 48]);
    try reflexivity; [by vm_compute| |vm_compute; lia].
  intros x y Hreg. apply region_clear in Hreg as [Hb Hl].
  apply in_bounds_iff in Hb. simpl in Hb.
  assert (x = 0) as -> by lia.
  assert (y = 0 ∨ y = 1 ∨ y = 2 ∨ y = 3 ∨ y = 4 ∨ y = 5 ∨ y = 6)
    as [->|[->|[->|[->|[->|[->| ->]]]]]] by lia;
    vm_compute in Hl |- *; congruence.
Defined.

(** C4 as stated fails: a count on the border of the region that carries a
    flag is not shown by the flood.  In [row_game], the dig at [(0, 0)]
    leaves the flag on the count at [(0, 2)]. *)
Lemma flood_keeps_flag_on_border :
  ¬ (∀ fuel game rs row col g ret game' rs',
       wf_game game = true → grid game = Some g →
       counts_consistent (H := ascii_header) game g = true →
       flood_closed (H := ascii_header) game g = true →
       msw_in_bounds game row col = true →
       look g (msw_index game row col) = Some 48 →
       @msw_dig ascii_header fuel game rs row col = Ok (ret, game', rs') →
       ∀ x y, border (H := ascii_header) game g row col x y →
         look (visible game') (msw_index game x y)
         = look g (msw_index game x y)).
Proof.
  intros Hclaim.
  specialize (Hclaim 8%nat row_game [] 0 0 [48; 48; 49; 42; 49; 48; 48] 1
    {| rows := 1; columns := 7; mines := 1;
       grid := Some [48; 48; 49; 42; 49; 48; 48];
       visible := [48; 48; 70; 63; 49; 48; 48] |} []
    eq_refl eq_refl eq_refl eq_refl eq_refl eq_refl eq_refl 0 2).
  assert (look [48; 48; 70; 63; 49; 48; 48] 2
          = look [48; 48; 49; 42; 49; 48; 48] 2) as Hbad; [|done].
  apply Hclaim. split; [|done]. split; [done|].
  exists 0, 1, 4. split_and!; try done.
  apply (region_step row_game _ 0 0 0 0 4); try done.
  by apply region_start.
Qed.

(** C5, as the code has it: on a board with non-negative sides and mine
    count, for a first dig at a cell [(r, c)] of the board: whenever the
    generation returns, the grid has exactly [mines] mines, the cell
    [(r, c)] is clear, and so the mines fit among the cells that are
    neither [(r, c)] nor its neighbours; and when they fit there, the
    generation does return, at the first grid, if [rand()] answers with the
    numbers of [far_stream]. *)
Theorem initial_grid_mines_and_clear `{H : msw_header}
  {Hok : msw_header_ok H} obj r c :
  0 ≤ rows obj → 0 ≤ columns obj → 0 ≤ mines obj →
  msw_in_bounds obj r c = true →
  (∀ fuel rs obj' rs',
     msw_initial_grid fuel obj r c rs = Ok (obj', rs') →
     ∃ g, obj' = with_grid obj g ∧ mine_count g = mines obj ∧
          look g (msw_index obj r c) = Some MSW_CLEAR ∧
          mines obj ≤ Z.of_nat (length (far_cells obj r c))) ∧
  (mines obj ≤ Z.of_nat (length (far_cells obj r c)) →
   ∀ fuel rest, ∃ obj',
     msw_initial_grid (S fuel) obj r c (far_stream obj r c ++ rest)
     = Ok (obj', rest)).
Proof.
  intros Hr Hc Hm Hb. split.
  - intros fuel rs obj' rs' Hgen.
    pose proof (initial_grid_needs_room _ _ _ _ _ _ _ Hr Hc Hb Hgen) as Hroom.
    apply initial_grid_post in Hgen as (g & -> & _ & _ & Hcount & Hclear);
      try done.
    exists g. split_and!; [done|lia|done|lia].
  - intros Hroom fuel rest. by apply initial_grid_far.
Qed.

Lemma initial_grid_mines_and_clear_witness :
  mines row_fresh ≤ Z.of_nat (length (far_cells row_fresh 0 6)) ∧
  ∃ obj',
    @msw_initial_grid ascii_header 1 row_fresh 0 6
      (far_stream row_fresh 0 6 ++ []) = Ok (obj', []).
Proof.
  split; [vm_compute; by intros [=]|].
  apply (proj2 (@initial_grid_mines_and_clear ascii_header ascii_header_ok
                  row_fresh 0 6 ltac:(simpl; lia) ltac:(simpl; lia)
                  ltac:(simpl; lia) eq_refl)).
  vm_compute. by intros [=].
Defined.

(** C5 as stated fails: on the board of two by two cells with one mine,
    every cell is the mine or beside it, and the generation for a first dig
    at [(0, 0)] never returns, whatever [rand()] answers. *)
Lemma dense_board_never_generated :
  ¬ (∀ obj r c,
       0 < rows obj → 0 < columns obj →
       0 ≤ mines obj < rows obj * columns obj →
       msw_in_bounds obj r c = true →
       ∃ fuel rs obj' rs' g,
         @msw_initial_grid ascii_header fuel obj r c rs = Ok (obj', rs') ∧
         grid obj' = Some g ∧
         mine_count (H := ascii_header) g = mines obj ∧
         look g (msw_index obj r c) = Some 48).
Proof.
  intros Hclaim.
  destruct (Hclaim small_fresh 0 0) as (fuel & rs & obj' & rs' & g & Hgen & _);
    [simpl; lia..|reflexivity|].
  apply (initial_grid_needs_room (Hok := ascii_header_ok)) in Hgen;
    [|simpl; lia..|reflexivity].
  vm_compute in Hgen. by apply Hgen.
Qed.

(** C6: the counting pass of the generation returns on every grid of clear
    cells and mines, and gives each cell of the board what a direct count
    over the grid gives it: the code of a mine on a mine, and otherwise
    [MSW_CLEAR] plus the number of mines among the cells around it.  The
    direct count, [mines_around], goes over the cells of the grid and keeps
    those at most one row and one column away; it does not go through the
    tables [rnbr] and [cnbr] of the pass.  The pass moves no mine.  So in
    every grid that [msw_generate_grid] returns, and in every grid that the
    generation for a first dig returns, every cell that is not a mine holds
    [MSW_CLEAR] plus the number of mines around it in that same grid. *)
Theorem generated_counts_are_recounts `{H : msw_header}
  {Hok : msw_header_ok H} obj :
  0 ≤ rows obj → 0 ≤ columns obj →
  (∀ g0, Z.of_nat (length g0) = rows obj * columns obj → placed g0 →
     ∃ g, count_pass obj g0 = Ok g ∧
          ∀ i j, msw_in_bounds obj i j = true →
            look g (msw_index obj i j) =
              Some (if bool_decide (look g0 (msw_index obj i j)
                                    = Some MSW_MINE)
                    then MSW_MINE
                    else MSW_CLEAR + mines_around obj g0 i j) ∧
            (look g (msw_index obj i j) = Some MSW_MINE ↔
             look g0 (msw_index obj i j) = Some MSW_MINE) ∧
            mines_around obj g i j = mines_around obj g0 i j) ∧
  (∀ rs obj' rs' g_old,
     grid obj = Some g_old →
     Z.of_nat (length g_old) = rows obj * columns obj →
     msw_generate_grid obj rs = Ok (obj', rs') →
     ∃ g, grid obj' = Some g ∧
          ∀ i j, msw_in_bounds obj i j = true →
            look g (msw_index obj i j) =
              Some (if bool_decide (look g (msw_index obj i j)
                                    = Some MSW_MINE)
                    then MSW_MINE
                    else MSW_CLEAR + mines_around obj g i j)) ∧
  (∀ fuel r c rs obj' rs',
     msw_initial_grid fuel obj r c rs = Ok (obj', rs') →
     ∃ g, grid obj' = Some g ∧
          ∀ i j, msw_in_bounds obj i j = true →
            look g (msw_index obj i j) =
              Some (if bool_decide (look g (msw_index obj i j)
                                    = Some MSW_MINE)
                    then MSW_MINE
                    else MSW_CLEAR + mines_around obj g i j)).
Proof.
  intros Hr Hc. split_and!.
  - intros g0 Hl Hp.
    destruct (count_pass_recount obj g0 Hl Hp) as (g & Hpass & Hlen & Hrec).
    exists g. split; [done|]. intros i j Hb.
    destruct (Hrec i j Hb) as [Hlook Hmine].
    assert (∀ a b, mine_at obj g a b = mine_at obj g0 a b) as Hsame.
    { intros a b. destruct (msw_in_bounds obj a b) eqn:Hab; [by apply Hrec|].
      unfold mine_at. by rewrite Hab. }
    split_and!.
    + rewrite Hlook. f_equal. unfold recount, mine_at. rewrite Hb. simpl.
      by rewrite (mine_neighbours_around obj g0 i j Hc Hl).
    + unfold mine_at in Hmine. rewrite Hb in Hmine. simpl in Hmine.
      split; intros E; apply (bool_decide_eq_true _);
        [rewrite <- Hmine|rewrite Hmine]; by apply bool_decide_eq_true.
    + rewrite <- (mine_neighbours_around obj g i j Hc) by lia.
      rewrite <- (mine_neighbours_around obj g0 i j Hc Hl).
      by apply mine_neighbours_same.
  - intros rs obj' rs' g_old Hg Hl Hgen.
    apply (generate_grid_post _ _ _ _ g_old) in Hgen
      as (g & -> & Hlg & Hcons & _); try done.
    exists g. split; [done|]. intros i j Hb. by apply consistent_around.
  - intros fuel r c rs obj' rs' Hgen.
    apply initial_grid_post in Hgen as (g & -> & Hlg & Hcons & _); try done.
    exists g. split; [done|]. intros i j Hb. by apply consistent_around.
Qed.

Lemma generated_counts_are_recounts_witness :
  ∃ g, @count_pass ascii_header corner_mine
         [48; 48; 48; 48; 48; 48; 48; 48; 42] = Ok g ∧
       ∀ i j, msw_in_bounds corner_mine i j = true →
         look g (msw_index corner_mine i j) =
           Some (if bool_decide
                      (look [48; 48; 48; 48; 48; 48; 48; 48; 42]
                         (msw_index corner_mine i j) = Some 42)
                 then 42
                 else 48 + mines_around (H := ascii_header) corner_mine
                             [48; 48; 48; 48; 48; 48; 48; 48; 42] i j) ∧
         (look g (msw_index corner_mine i j) = Some 42 ↔
          look [48; 48; 48; 48; 48; 48; 48; 48; 42]
            (msw_index corner_mine i j) = Some 42) ∧
         mines_around (H := ascii_header) corner_mine g i j
         = mines_around (H := ascii_header) corner_mine
             [48; 48; 48; 48; 48; 48; 48; 48; 42] i j.
Proof.
  apply (proj1 (@generated_counts_are_recounts ascii_header ascii_header_ok
                  corner_mine ltac:(simpl; lia) ltac:(simpl; lia))).
  - reflexivity.
  - intros k x Hx. apply look_Some in Hx as [_ Hx].
    apply list_elem_of_lookup_2 in Hx.
    repeat (apply elem_of_cons in Hx as [->|Hx]; [auto|]).
    by apply elem_of_nil in Hx.
Defined.

(** C7: in a state of a session (every visible cell is unknown, flagged, or
    shows the true cell), a cell whose visible value is neither unknown nor
    a flag keeps that value through every sequence of digs and flags, at
    whatever coordinates, that runs to its end. *)
Theorem shown_cell_is_final `{H : msw_header} os :
  ∀ game rs game' rs' i x,
    shown_true game = true →
    look (visible game) i = Some x →
    x ≠ MSW_UNKNOWN → x ≠ MSW_FLAG →
    run os (game, rs) = Ok (game', rs') →
    look (visible game') i = Some x.
Proof.
  induction os as [|o os IH]; intros game rs game' rs' i x Hs Hx Hu Hf Hrun.
  - simpl in Hrun. by injection Hrun as <- <-.
  - simpl in Hrun. apply bind_Ok in Hrun as ([game1 rs1] & Hstep & Hrun).
    destruct (step_shown o game rs game1 rs1 Hs Hstep) as [Hs1 Hkeep].
    apply (IH game1 rs1 game' rs' i x); auto.
Qed.

Lemma shown_cell_is_final_witness :
  shown_true (H := ascii_header) row_game = true ∧
  look (visible row_game) 4 = Some 49 ∧
  ∃ game',
    run (H := ascii_header)
      [Flag 0 4; Dig 9 0 4; Dig 9 0 3; Flag 0 1; Dig 9 0 0]
      (row_game, []) = Ok (game', []) ∧
    look (visible game') 4 = Some 49.
Proof.
  split; [reflexivity|]. split; [reflexivity|].
  eexists. split; [by vm_compute|].
  apply (@shown_cell_is_final ascii_header
           [Flag 0 4; Dig 9 0 4; Dig 9 0 3; Flag 0 1; Dig 9 0 0]
           row_game [] _ [] 4 49); try done.
Defined.

(** C8: after a dig on a cell of the board that is not a mine, a second dig
    on the same cell returns the same value and leaves the game, hence the
    visible board, exactly as the first dig left it. *)
Theorem dig_twice `{H : msw_header} fuel fuel' game rs row col ret game1 rs1 g :
  msw_in_bounds game row col = true →
  msw_dig fuel game rs row col = Ok (ret, game1, rs1) →
  grid game1 = Some g →
  look g (msw_index game row col) ≠ Some MSW_MINE →
  msw_dig (S fuel') game1 rs1 row col = Ok (ret, game1, rs1).
Proof.
  intros Hb Hdig Hg1 Hnm.
  rewrite dig_erase in Hdig. apply drop_log_Ok in Hdig as [log Hdig].
  apply dig_log_any in Hdig as [(Hf & _)|(_ & g' & _ & Hdig & Hpost)];
    [congruence|].
  pose proof (post_grid _ _ _ _ _ _ Hpost) as Hg'.
  assert (g' = g) as -> by congruence.
  destruct (dig_log_reads _ (with_grid game g) _ _ _ g _ _ _ _
              eq_refl Hb Hdig) as (gi & vi & Hgi & Hvi).
  pose proof (dig_log_ret _ (with_grid game g) _ _ _ g _ _ _ _ gi vi
                eq_refl Hb Hgi Hvi Hdig) as Hret.
  assert (gi ≠ MSW_MINE) as Hgm.
  { intros ->. by apply Hnm. }
  rewrite (bool_decide_false (gi = MSW_MINE)) in Hret by done.
  assert (ret = 1) as -> by (by destruct (_ && _)).
  rewrite dig_erase.
  rewrite (dig_log_settled fuel' game1 rs1 row col g gi); try done.
  - rewrite <- Hb. apply in_bounds_same; by destruct Hpost.
  - rewrite (index_same (with_grid game g)); [done|by destruct Hpost].
  - rewrite (index_same (with_grid game g)); [|by destruct Hpost].
    by apply (post_here _ _ _ _ _ _ Hpost).
Qed.

Lemma dig_twice_witness :
  msw_in_bounds corner_mine 0 0 = true ∧
  match @msw_dig ascii_header 9 corner_mine [] 0 0 with
  | Ok (ret, game1, rs1) =>
      @msw_dig ascii_header 1 game1 rs1 0 0 = Ok (ret, game1, rs1)
  | _ => False
  end.
Proof.
  split; [reflexivity|].
  destruct (@msw_dig ascii_header 9 corner_mine [] 0 0)
    as [[[ret game1] rs1]| |] eqn:Hdig; [|by vm_compute in Hdig..].
  apply (@dig_twice ascii_header 9 0 corner_mine [] 0 0 ret game1 rs1
           [48; 48; 48; 48; 49; 49; 48; 49; 42]).
  - reflexivity.
  - exact Hdig.
  - vm_compute in Hdig. by injection Hdig as <- <- <-.
  - by vm_compute.
Defined.

(** C9: a dig outside the board returns 0 at once and changes nothing: the
    game, with its grid still absent if it was, and the random numbers are
    as before.  The value 0 is returned by no dig on the board. *)
Theorem dig_out_of_bounds `{H : msw_header} fuel game rs row col :
  msw_in_bounds game row col = false →
  msw_dig (S fuel) game rs row col = Ok (0, game, rs) ∧
  ∀ fuel' row' col' ret game' rs',
    msw_in_bounds game row' col' = true →
    msw_dig fuel' game rs row' col' = Ok (ret, game', rs') → ret ≠ 0.
Proof.
  intros Hb. split.
  - simpl. by rewrite Hb.
  - intros fuel' row' col' ret game' rs' Hb' Hdig.
    rewrite dig_erase in Hdig. apply drop_log_Ok in Hdig as [log Hdig].
    apply dig_log_any in Hdig as [(Hf & _)|(_ & g & _ & Hdig & _)];
      [congruence|].
    destruct (dig_log_reads _ (with_grid game g) _ _ _ g _ _ _ _
                eq_refl Hb' Hdig) as (gi & vi & Hgi & Hvi).
    rewrite (dig_log_ret _ (with_grid game g) _ _ _ g _ _ _ _ gi vi
               eq_refl Hb' Hgi Hvi Hdig).
    repeat case_match; done.
Qed.

Lemma dig_out_of_bounds_witness :
  msw_in_bounds small_fresh (-1) 0 = false ∧
  @msw_dig ascii_header 1 small_fresh [] (-1) 0 = Ok (0, small_fresh, []).
Proof.
  split; [reflexivity|].
  apply (@dig_out_of_bounds ascii_header 0 small_fresh [] (-1) 0).
  reflexivity.
Defined.

(** C10: in a grid with consistent counts, a dig on a clear cell of the
    board, flagged or not, returns 1, not the -1 of a loss, and no call of
    its flood takes the branch of the mine: the record of such calls is
    empty.  It returns as soon as the fuel exceeds the number of cells. *)
Theorem clear_dig_never_detonates `{H : msw_header} fuel game rs row col g :
  MSW_CLEAR ≠ MSW_MINE →
  wf_game game = true → grid game = Some g →
  counts_consistent game g = true →
  msw_in_bounds game row col = true →
  look g (msw_index game row col) = Some MSW_CLEAR →
  (length (visible game) < fuel)%nat →
  ∃ game', msw_dig_log fuel game rs row col = Ok (1, game', rs, []) ∧
           msw_dig fuel game rs row col = Ok (1, game', rs).
Proof.
  intros Hcm Hwf Hg Hcons Hb Hl Hfuel.
  destruct (dig_log_total fuel game rs row col g Hwf Hg)
    as (ret & game' & log & Hdig).
  { pose proof (todo_le g (visible game)). lia. }
  exists game'.
  destruct (dig_log_reads _ _ _ _ _ g _ _ _ _ Hg Hb Hdig)
    as (gi & vi & Hgi & Hvi).
  pose proof (dig_log_ret _ _ _ _ _ g _ _ _ _ gi vi Hg Hb Hgi Hvi Hdig)
    as Hret.
  assert (gi = MSW_CLEAR) as -> by congruence.
  rewrite (bool_decide_false (MSW_CLEAR = MSW_MINE)) in Hret by done.
  assert (ret = 1) as -> by (by destruct (_ && _)).
  destruct (dig_log_post _ _ _ _ _ g _ _ _ _ Hg Hdig) as [_ Hpost].
  assert (log = []) as ->.
  { destruct log as [|[x y] log]; [done|]. exfalso.
    destruct (post_log _ _ _ _ _ _ Hpost x y) as [[Hbx Hd] Hm]; [by left|].
    destruct Hd as [[-> ->]|[_ (a & b & n & Hreg & Hn & -> & ->)]];
      [congruence|].
    apply region_clear in Hreg as [Hba Hla].
    pose proof (consistent_clear_nbr game g a b n Hcm Hcons Hba Hla Hn) as Hf.
    unfold mine_at in Hf. rewrite Hbx, Hm in Hf.
    by rewrite bool_decide_true in Hf. }
  split; [done|]. rewrite dig_erase, Hdig. done.
Qed.

Lemma clear_dig_never_detonates_witness :
  ∃ game',
    @msw_dig_log ascii_header 10 corner_mine [] 0 0 = Ok (1, game', [], []) ∧
    @msw_dig ascii_header 10 corner_mine [] 0 0 = Ok (1, game', []).
Proof.
  apply (@clear_dig_never_detonates ascii_header 10 corner_mine [] 0 0
           [48; 48; 48; 48; 49; 49; 48; 49; 42]);
    try reflexivity; [by vm_compute|vm_compute; lia].
Defined.

(** * Further properties of the code *)

(** ** Lemmas on a single dig or flag *)

Section DigCell.
Context {H : msw_header}.

(** The region of a cell that is not clear is empty. *)
Lemma region_origin_clear game g r c x y :
  region game g r c x y → look g (msw_index game r c) = Some MSW_CLEAR.
Proof. induction 1; done. Qed.

(** A dig on a cell that is not clear acts on no other cell. *)
Lemma dig_post_one_cell game g row col game' log k :
  look g (msw_index game row col) ≠ Some MSW_CLEAR →
  dig_post game g row col game' log →
  k ≠ msw_index game row col →
  look (visible game') k = look (visible game) k.
Proof.
  intros Hnc Hpost Hk.
  destruct (decide (look (visible game') k = look (visible game) k))
    as [E|NE]; [done|].
  destruct (post_reveals _ _ _ _ _ _ Hpost) as [_ Hrev].
  destruct (Hrev k NE) as (_ & _ & x & y & [_ Hd] & ->).
  destruct Hd as [[-> ->]|[_ (a & b & n & Hreg & _)]]; [done|].
  by apply region_origin_clear in Hreg.
Qed.

(** What a dig on the board returns, read off the grid alone. *)
Lemma dig_log_ret_grid fuel game rs row col g ret game' rs' log gi :
  MSW_CLEAR ≠ MSW_MINE →
  grid game = Some g → msw_in_bounds game row col = true →
  look g (msw_index game row col) = Some gi →
  msw_dig_log fuel game rs row col = Ok (ret, game', rs', log) →
  ret = if bool_decide (gi = MSW_MINE) then -1 else 1.
Proof.
  intros Hcm Hg Hb Hgi Hdig.
  destruct (dig_log_reads _ _ _ _ _ g _ _ _ _ Hg Hb Hdig)
    as (gi' & vi & Hgi' & Hvi).
  assert (gi' = gi) as -> by congruence.
  rewrite (dig_log_ret _ _ _ _ _ g _ _ _ _ gi vi Hg Hb Hgi Hvi Hdig).
  destruct (bool_decide (gi = MSW_CLEAR)) eqn:Hc; [|done].
  apply bool_decide_eq_true in Hc as ->.
  rewrite (bool_decide_false (MSW_CLEAR = MSW_MINE)) by done.
  by destruct (bool_decide _).
Qed.

(** A flag can be repeated: it changes nothing. *)
Lemma flag_again game r c ret game1 :
  msw_flag game r c = Ok (ret, game1) →
  msw_flag game1 r c = Ok (1, game1).
Proof.
  unfold msw_flag. intros Hf.
  apply bind_Ok in Hf as (v & Hv & Hf). apply rd_Ok in Hv.
  case_bool_decide as Hu.
  - subst v. apply bind_Ok in Hf as (v' & Hv' & Hf).
    apply wr_Ok in Hv' as [Hr ->]. injection Hf as <- <-.
    change (msw_index (with_visible game _) r c) with (msw_index game r c).
    change (visible (with_visible game ?v)) with v.
    rewrite (rd_look _ _ MSW_FLAG) by (by apply look_insert_eq). simpl.
    case_bool_decide; [|done].
    rewrite wr_in_range by (by rewrite length_insert). simpl.
    by rewrite list_insert_insert_eq.
  - injection Hf as <- <-. rewrite (rd_look _ _ _ Hv). simpl.
    by rewrite bool_decide_false.
Qed.

End DigCell.

(** ** Cells and indices *)

(** X1: on a board of at most [INT_MAX] cells whose number of columns is
    not negative, the index of a cell of the board is computed in [int]
    without overflow, and [msw_index] numbers the cells row by row, without
    gaps and without collisions: the index lies in [[0, rows * columns)],
    its quotient and remainder by [columns] give the cell back, every index
    in that range is the index of the cell they name, and two cells of the
    board with the same index are the same cell. *)
Theorem index_bijection game :
  0 ≤ columns game → rows game * columns game ≤ INT_MAX →
  (∀ r c, msw_in_bounds game r c = true →
     msw_index_int game r c = Ok (msw_index game r c) ∧
     0 ≤ msw_index game r c < rows game * columns game ∧
     msw_index game r c `div` columns game = r ∧
     msw_index game r c `mod` columns game = c) ∧
  (∀ k, 0 ≤ k < rows game * columns game →
     msw_in_bounds game (k `div` columns game) (k `mod` columns game) = true ∧
     msw_index_int game (k `div` columns game) (k `mod` columns game)
     = Ok k) ∧
  (∀ r c r' c',
     msw_in_bounds game r c = true → msw_in_bounds game r' c' = true →
     msw_index_int game r c = msw_index_int game r' c' → r = r' ∧ c = c').
Proof.
  intros Hc Hmax.
  assert (∀ r c, msw_in_bounds game r c = true →
            msw_index_int game r c = Ok (msw_index game r c)) as Hint.
  { intros r c Hb. pose proof (index_range game r c Hb) as Hix.
    apply in_bounds_iff in Hb as [Hr Hcc].
    unfold msw_index_int, int_result, msw_index in *.
    rewrite bool_decide_true by (unfold INT_MIN, INT_MAX in *; nia).
    simpl. rewrite bool_decide_true by (unfold INT_MIN, INT_MAX in *; nia).
    done. }
  split_and!.
  - intros r c Hb. split; [by apply Hint|].
    split; [by apply index_range|by apply index_div_mod].
  - intros k Hk. destruct (index_cell game k Hc Hk) as [Hb Hix].
    split; [done|]. by rewrite (Hint _ _ Hb), Hix.
  - intros r c r' c' Hb Hb' E.
    rewrite (Hint _ _ Hb), (Hint _ _ Hb') in E. injection E as E.
    by apply (index_inj game).
Qed.

Lemma index_bijection_witness :
  0 ≤ columns corner_mine ∧
  rows corner_mine * columns corner_mine ≤ INT_MAX ∧
  (msw_index_int corner_mine 2 1 = Ok 7 ∧ 7 `div` 3 = 2 ∧ 7 `mod` 3 = 1).
Proof.
  split; [by vm_compute|]. split; [by vm_compute|].
  destruct (index_bijection corner_mine) as (Hcell & _ & _);
    [by vm_compute|by vm_compute|].
  destruct (Hcell 2 1) as (Hi & _ & Hd & Hm); [reflexivity|].
  split; [exact Hi|]. split; [exact Hd|exact Hm].
Defined.

(** ** Flags *)

(** X2: on a well-formed game, a flag on a cell of the board never reads or
    writes outside the visible board and returns 1.  It changes nothing but
    the visible cell it names, and that cell only if it was unknown: sizes,
    mine count and grid are as before. *)
Theorem flag_on_board `{H : msw_header} game r c :
  wf_game game = true → msw_in_bounds game r c = true →
  ∃ game',
    msw_flag game r c = Ok (1, game') ∧
    rows game' = rows game ∧ columns game' = columns game ∧
    mines game' = mines game ∧ grid game' = grid game ∧
    ∀ k, look (visible game') k =
         if bool_decide (k = msw_index game r c ∧
                         look (visible game) k = Some MSW_UNKNOWN)
         then Some MSW_FLAG else look (visible game) k.
Proof.
  intros Hwf Hb. apply wf_game_spec in Hwf as (_ & _ & Hlen & _).
  pose proof (index_range game r c Hb) as Hr. rewrite <- Hlen in Hr.
  destruct (look_in_range _ _ Hr) as [v Hv].
  unfold msw_flag. rewrite (rd_look _ _ _ Hv). simpl.
  case_bool_decide as Hu.
  - subst v. rewrite wr_in_range by done. simpl. eexists.
    split; [done|]. simpl. split_and!; try done.
    intros k. rewrite look_insert by done.
    destruct (decide (k = msw_index game r c)) as [->|Hk].
    + by rewrite !bool_decide_true.
    + rewrite !bool_decide_false; [done|tauto|done].
  - exists game. split_and!; try done.
    intros k. rewrite bool_decide_false; [done|].
    intros [-> Hk]. congruence.
Qed.

Lemma flag_on_board_witness :
  ∃ game',
    @msw_flag ascii_header row_game 0 1 = Ok (1, game') ∧
    rows game' = 1 ∧ columns game' = 7 ∧ mines game' = 1 ∧
    grid game' = grid row_game ∧
    ∀ k, look (visible game') k =
         if bool_decide (k = msw_index row_game 0 1 ∧
                         look (visible row_game) k = Some 63)
         then Some 70 else look (visible row_game) k.
Proof.
  apply (@flag_on_board ascii_header row_game 0 1); reflexivity.
Defined.

(** X3: a second flag on the same coordinates, on the board or off it,
    returns 1 and changes nothing: there is no way to take a flag back. *)
Theorem flag_twice `{H : msw_header} game r c ret game1 :
  msw_flag game r c = Ok (ret, game1) →
  msw_flag game1 r c = Ok (1, game1).
Proof. apply flag_again. Qed.

Lemma flag_twice_witness :
  match @msw_flag ascii_header row_game 0 1 with
  | Ok (_, game1) => @msw_flag ascii_header game1 0 1 = Ok (1, game1)
  | _ => False
  end.
Proof.
  destruct (@msw_flag ascii_header row_game 0 1) as [[ret game1]| |] eqn:Hf;
    [|by vm_compute in Hf..].
  exact (@flag_twice ascii_header row_game 0 1 ret game1 Hf).
Defined.

(** X4: a flag on a cell whose true value is a count (neither clear nor a
    mine) is there for good: through every sequence of digs and flags, at
    whatever coordinates, that runs to its end, the grid stays as it is and
    the cell stays flagged, so its count is never shown. *)
Theorem flag_on_count_stays `{H : msw_header} os :
  ∀ game rs game' rs' g k,
    MSW_UNKNOWN ≠ MSW_FLAG →
    grid game = Some g →
    look (visible game) k = Some MSW_FLAG →
    look g k ≠ Some MSW_CLEAR → look g k ≠ Some MSW_MINE →
    run os (game, rs) = Ok (game', rs') →
    grid game' = Some g ∧ look (visible game') k = Some MSW_FLAG.
Proof.
  induction os as [|o os IH]; intros game rs game' rs' g k Huf Hg Hv Hc Hm Hrun.
  - simpl in Hrun. by injection Hrun as <- <-.
  - simpl in Hrun. apply bind_Ok in Hrun as ([game1 rs1] & Hstep & Hrun).
    assert (grid game1 = Some g ∧ look (visible game1) k = Some MSW_FLAG)
      as [Hg1 Hv1]; [|by apply (IH game1 rs1 game' rs' g k)].
    clear IH Hrun. destruct o as [fuel row col|row col]; simpl in Hstep.
    + apply bind_Ok in Hstep as ([[ret game2] rs2] & Hdig & Hst).
      injection Hst as <- <-.
      rewrite dig_erase in Hdig. apply drop_log_Ok in Hdig as [log Hdig].
      destruct (dig_log_post _ _ _ _ _ g _ _ _ _ Hg Hdig) as [_ Hpost].
      split; [by destruct Hpost|].
      destruct (decide (look (visible game2) k = look (visible game) k))
        as [E|NE]; [congruence|].
      destruct (post_reveals _ _ _ _ _ _ Hpost) as [_ Hrev].
      destruct (Hrev k NE) as (_ & Hnp & _). by destruct Hnp.
    + apply bind_Ok in Hstep as ([ret game2] & Hflag & Hst).
      injection Hst as <- <-.
      apply flag_post in Hflag as (_ & _ & _ & _ & Hg2 & _ & Hch).
      split; [congruence|].
      destruct (decide (look (visible game2) k = look (visible game) k))
        as [E|NE]; [congruence|].
      destruct (Hch k NE) as (_ & Hu & _). congruence.
Qed.

Lemma flag_on_count_stays_witness :
  ∃ game',
    run (H := ascii_header) [Dig 9 0 2; Flag 0 2; Dig 9 0 0; Dig 9 0 3]
      (row_game, []) = Ok (game', []) ∧
    grid game' = Some [48; 48; 49; 42; 49; 48; 48] ∧
    look (visible game') 2 = Some 70.
Proof.
  destruct (run (H := ascii_header)
              [Dig 9 0 2; Flag 0 2; Dig 9 0 0; Dig 9 0 3] (row_game, []))
    as [[game' rs']| |] eqn:Hrun; [|by vm_compute in Hrun..].
  exists game'.
  assert (rs' = []) as -> by (vm_compute in Hrun; congruence).
  split; [done|].
  apply (@flag_on_count_stays ascii_header
           [Dig 9 0 2; Flag 0 2; Dig 9 0 0; Dig 9 0 3]
           row_game [] game' [] [48; 48; 49; 42; 49; 48; 48] 2);
    by vm_compute.
Defined.

(** ** Digs *)

(** X5: once the grid exists, a dig that returns has not touched it, has
    asked for no random number, and has kept the sizes, the mine count and
    the length of the visible board. *)
Theorem dig_keeps_grid `{H : msw_header} fuel game rs row col g ret game' rs' :
  grid game = Some g →
  msw_dig fuel game rs row col = Ok (ret, game', rs') →
  grid game' = Some g ∧ rs' = rs ∧
  rows game' = rows game ∧ columns game' = columns game ∧
  mines game' = mines game ∧
  length (visible game') = length (visible game).
Proof.
  intros Hg Hdig.
  rewrite dig_erase in Hdig. apply drop_log_Ok in Hdig as [log Hdig].
  destruct (dig_log_post _ _ _ _ _ g _ _ _ _ Hg Hdig) as [-> Hpost].
  destruct Hpost as [? ? ? ? [? _] _ _ _]. done.
Qed.

Lemma dig_keeps_grid_witness :
  ∃ game',
    @msw_dig ascii_header 9 row_game [5%N] 0 0 = Ok (1, game', [5%N]) ∧
    grid game' = Some [48; 48; 49; 42; 49; 48; 48] ∧
    length (visible game') = 7%nat.
Proof.
  destruct (@msw_dig ascii_header 9 row_game [5%N] 0 0)
    as [[[ret game'] rs']| |] eqn:Hdig; [|by vm_compute in Hdig..].
  destruct (@dig_keeps_grid ascii_header 9 row_game [5%N] 0 0
              [48; 48; 49; 42; 49; 48; 48] ret game' rs' eq_refl Hdig)
    as (Hg & -> & _ & _ & _ & Hl).
  exists game'. split_and!; [|done..].
  vm_compute in Hdig. congruence.
Defined.

(** X6: on a well-formed game whose grid exists, a dig at any coordinates
    returns, with 0, 1 or -1, as soon as the fuel exceeds the number of clear
    cells that are not yet shown as clear: the recursion stops, and neither
    the index computed before the bounds check nor the eight recursive calls
    around a cell at the edge touch memory outside the two arrays. *)
Theorem dig_returns `{H : msw_header} fuel game rs row col g :
  wf_game game = true → grid game = Some g →
  (todo g (visible game) < fuel)%nat →
  ∃ ret game',
    msw_dig fuel game rs row col = Ok (ret, game', rs) ∧
    (ret = 0 ∨ ret = 1 ∨ ret = -1).
Proof.
  intros Hwf Hg Hfuel.
  destruct (dig_log_total fuel game rs row col g Hwf Hg Hfuel)
    as (ret & game' & log & Hdig).
  exists ret, game'. split; [by rewrite dig_erase, Hdig|].
  destruct (msw_in_bounds game row col) eqn:Hb.
  - destruct (dig_log_reads _ _ _ _ _ g _ _ _ _ Hg Hb Hdig)
      as (gi & vi & Hgi & Hvi).
    rewrite (dig_log_ret _ _ _ _ _ g _ _ _ _ gi vi Hg Hb Hgi Hvi Hdig).
    repeat case_match; auto.
  - apply dig_log_any in Hdig as [(_ & -> & _)|(Hb' & _)]; [auto|congruence].
Qed.

Lemma dig_returns_witness :
  ∃ ret game',
    @msw_dig ascii_header 3 row_game [] 0 1 = Ok (ret, game', []) ∧
    (ret = 0 ∨ ret = 1 ∨ ret = -1).
Proof.
  apply (@dig_returns ascii_header 3 row_game [] 0 1
           [48; 48; 49; 42; 49; 48; 48]);
    [reflexivity|reflexivity|vm_compute; lia].
Defined.

(** X7: once the grid exists, a dig returns -1 exactly when its cell is on
    the board and holds a mine, flagged or not.  Then the visible cell shows
    the mine, and no other visible cell has changed. *)
Theorem dig_loses_iff_mine `{H : msw_header}
  fuel game rs row col g ret game' rs' :
  MSW_CLEAR ≠ MSW_MINE → grid game = Some g →
  msw_dig fuel game rs row col = Ok (ret, game', rs') →
  (ret = -1 ↔
   msw_in_bounds game row col = true ∧
   look g (msw_index game row col) = Some MSW_MINE) ∧
  (ret = -1 →
   look (visible game') (msw_index game row col) = Some MSW_MINE ∧
   ∀ k, k ≠ msw_index game row col →
     look (visible game') k = look (visible game) k).
Proof.
  intros Hcm Hg Hdig.
  rewrite dig_erase in Hdig. apply drop_log_Ok in Hdig as [log Hdig].
  destruct (dig_log_post _ _ _ _ _ g _ _ _ _ Hg Hdig) as [_ Hpost].
  destruct (msw_in_bounds game row col) eqn:Hb.
  - destruct (dig_log_reads _ _ _ _ _ g _ _ _ _ Hg Hb Hdig)
      as (gi & vi & Hgi & Hvi).
    pose proof (dig_log_ret_grid _ _ _ _ _ g _ _ _ _ gi Hcm Hg Hb Hgi Hdig)
      as Hret.
    assert (ret = -1 ↔ look g (msw_index game row col) = Some MSW_MINE) as Hiff.
    { rewrite Hret, Hgi. case_bool_decide; split; try done; congruence. }
    split; [tauto|]. intros Hm. apply Hiff in Hm. split.
    + destruct (post_here _ _ _ _ _ _ Hpost Hb) as [E|(_ & _ & Hnm)];
        [congruence|done].
    + intros k Hk. apply (dig_post_one_cell game g row col game' log);
        [congruence|done..].
  - apply dig_log_any in Hdig as [(_ & -> & _)|(Hb' & _)]; [|congruence].
    split; [|done]. split; [done|]. by intros [? _].
Qed.

Lemma dig_loses_iff_mine_witness :
  ∃ game',
    @msw_dig ascii_header 1 row_game [] 0 3 = Ok (-1, game', []) ∧
    look (visible game') 3 = Some 42 ∧
    ∀ k, k ≠ 3 → look (visible game') k = look (visible row_game) k.
Proof.
  destruct (@msw_dig ascii_header 1 row_game [] 0 3)
    as [[[ret game'] rs']| |] eqn:Hdig; [|by vm_compute in Hdig..].
  destruct (@dig_loses_iff_mine ascii_header 1 row_game [] 0 3
              [48; 48; 49; 42; 49; 48; 48] ret game' rs'
              ltac:(by vm_compute) eq_refl Hdig) as [Hiff Hshow].
  assert (ret = -1) as Hret by (apply Hiff; by vm_compute).
  exists game'. split; [|exact (Hshow Hret)].
  vm_compute in Hdig. congruence.
Defined.

(** X8: once the grid exists, a dig on a count of the board (a cell that is
    neither clear nor a mine) returns 1 and starts no flood: the visible
    cell shows the count, unless it was flagged, in which case the flag
    stays, and no other visible cell has changed. *)
Theorem dig_count_shows_one_cell `{H : msw_header}
  fuel game rs row col g gi ret game' rs' :
  grid game = Some g → msw_in_bounds game row col = true →
  look g (msw_index game row col) = Some gi →
  gi ≠ MSW_CLEAR → gi ≠ MSW_MINE →
  msw_dig fuel game rs row col = Ok (ret, game', rs') →
  ret = 1 ∧
  look (visible game') (msw_index game row col) =
    (if bool_decide (look (visible game) (msw_index game row col)
                     = Some MSW_FLAG)
     then Some MSW_FLAG else Some gi) ∧
  ∀ k, k ≠ msw_index game row col →
    look (visible game') k = look (visible game) k.
Proof.
  intros Hg Hb Hgi Hc Hm Hdig.
  rewrite dig_erase in Hdig. apply drop_log_Ok in Hdig as [log Hdig].
  destruct (dig_log_post _ _ _ _ _ g _ _ _ _ Hg Hdig) as [_ Hpost].
  destruct (dig_log_reads _ _ _ _ _ g _ _ _ _ Hg Hb Hdig)
    as (gi' & vi & Hgi' & Hvi).
  assert (gi' = gi) as -> by congruence.
  split_and!.
  - rewrite (dig_log_ret _ _ _ _ _ g _ _ _ _ gi vi Hg Hb Hgi Hvi Hdig).
    by rewrite (bool_decide_false (gi = MSW_CLEAR)),
      (bool_decide_false (gi = MSW_MINE)).
  - set (ix := msw_index game row col) in *.
    destruct (post_reveals _ _ _ _ _ _ Hpost) as [_ Hrev].
    destruct (decide (look (visible game') ix = look (visible game) ix))
      as [E|NE].
    + case_bool_decide as Hf; [congruence|].
      destruct (post_here _ _ _ _ _ _ Hpost Hb) as [E'|(Hfl & _)];
        fold ix in E' || fold ix in Hfl; congruence.
    + destruct (Hrev ix NE) as (Hv & Hnp & _).
      rewrite bool_decide_false; [congruence|].
      intros Hf. apply Hnp. split_and!; congruence.
  - intros k Hk. apply (dig_post_one_cell game g row col game' log);
      [congruence|done..].
Qed.

Lemma dig_count_shows_one_cell_witness :
  ∃ game',
    @msw_dig ascii_header 1 corner_mine [] 1 2 = Ok (1, game', []) ∧
    look (visible game') 5 = Some 49 ∧
    ∀ k, k ≠ 5 → look (visible game') k = look (visible corner_mine) k.
Proof.
  destruct (@msw_dig ascii_header 1 corner_mine [] 1 2)
    as [[[ret game'] rs']| |] eqn:Hdig; [|by vm_compute in Hdig..].
  destruct (@dig_count_shows_one_cell ascii_header 1 corner_mine [] 1 2
              [48; 48; 48; 48; 49; 49; 48; 49; 42] 49 ret game' rs')
    as (Hret & Hshow & Hrest); [reflexivity..|by vm_compute|by vm_compute
                               |exact Hdig|].
  exists game'. split_and!; [|exact Hshow|exact Hrest].
  vm_compute in Hdig. congruence.
Defined.

(** X9: the first dig is safe.  In a state of a session whose grid does not
    exist yet, a dig on a cell of the board that returns, returns 1.  The
    grid then exists, has consistent counts and exactly [mines] mines (none
    if [mines] is negative); the dug cell is clear and shown as clear; no
    neighbour of it is a mine, and every neighbour on the board is settled:
    it shows its true value, or carries a flag put there before the dig. *)
Theorem first_dig_is_safe `{H : msw_header} {Hok : msw_header_ok H}
  fuel game rs row col ret game' rs' :
  session_ok game = true → grid game = None →
  msw_in_bounds game row col = true →
  msw_dig fuel game rs row col = Ok (ret, game', rs') →
  ret = 1 ∧
  ∃ g, grid game' = Some g ∧
       counts_consistent game g = true ∧
       mine_count g = Z.max (mines game) 0 ∧
       look g (msw_index game row col) = Some MSW_CLEAR ∧
       look (visible game') (msw_index game row col) = Some MSW_CLEAR ∧
       ∀ n, 0 ≤ n < NUM_NEIGHBORS →
         msw_in_bounds game (row + at_ rnbr n) (col + at_ cnbr n) = true →
         look g (msw_index game (row + at_ rnbr n) (col + at_ cnbr n))
           ≠ Some MSW_MINE ∧
         settled g (visible game')
           (msw_index game (row + at_ rnbr n) (col + at_ cnbr n)).
Proof.
  intros Hs Hg Hb Hdig.
  apply session_ok_spec in Hs as (Hwf & Hshown & _).
  apply wf_game_spec in Hwf as (Hr & Hc & _ & _).
  rewrite dig_erase in Hdig. apply drop_log_Ok in Hdig as [log Hdig].
  apply dig_log_any in Hdig as [(Hf & _)|(_ & g & Hgen & Hdig & Hpost)];
    [congruence|].
  destruct Hgen as [[Hg' _]|[_ [f Hgen]]]; [congruence|].
  apply initial_grid_post in Hgen
    as (g' & [= <-] & Hlen & Hcons & Hcount & Hclear); [|done..].
  pose proof clear_not_mine as Hcm.
  assert (look (visible game) (msw_index game row col) ≠ Some MSW_CLEAR)
    as Hnot.
  { intros Hv. rewrite shown_true_spec in Hshown.
    destruct (Hshown _ _ Hv) as [E|[E|(g0 & Hg0 & _)]]; [..|congruence].
    - destruct (unknown_not_count (H := H)); lia.
    - destruct (flag_not_count (H := H)); lia. }
  split.
  - rewrite (dig_log_ret_grid _ (with_grid game g) _ _ _ g _ _ _ _ MSW_CLEAR
               Hcm eq_refl Hb Hclear Hdig).
    by rewrite bool_decide_false.
  - exists g. pose proof (post_here _ _ _ _ _ _ Hpost Hb) as Hhere.
    change (msw_index (with_grid game g) row col)
      with (msw_index game row col) in Hhere.
    assert (look (visible game') (msw_index game row col) = Some MSW_CLEAR)
      as Hv'.
    { destruct Hhere as [E|(_ & Hn & _)]; [congruence|done]. }
    split_and!; try done; [by destruct Hpost|].
    intros n Hn Hbn. split.
    + pose proof (consistent_clear_nbr game g row col n Hcm Hcons Hb Hclear Hn)
        as Hm.
      unfold mine_at in Hm. rewrite Hbn in Hm. simpl in Hm.
      by apply bool_decide_eq_false in Hm.
    + by apply (post_floods _ _ _ _ _ _ Hpost row col Hb Hv' Hclear Hnot n Hn).
Qed.

Lemma first_dig_is_safe_witness :
  ∃ game',
    @msw_dig ascii_header 9 row_fresh [3%N] 0 6 = Ok (1, game', []) ∧
    ∃ g, grid game' = Some g ∧ mine_count (H := ascii_header) g = 1 ∧
         look g 6 = Some 48 ∧ look (visible game') 6 = Some 48.
Proof.
  destruct (@msw_dig ascii_header 9 row_fresh [3%N] 0 6)
    as [[[ret game'] rs']| |] eqn:Hdig; [|by vm_compute in Hdig..].
  destruct (@first_dig_is_safe ascii_header ascii_header_ok
              9 row_fresh [3%N] 0 6 ret game' rs')
    as (-> & g & Hg & _ & Hcount & Hclear & Hshown & _);
    [reflexivity..|exact Hdig|].
  exists game'. split; [vm_compute in Hdig; congruence|].
  exists g. split_and!; done.
Defined.

(** X10: a mine is shown only by the dig that loses.  In a state of a
    session, a dig that returns anything but -1 shows no mine: every
    visible cell that shows a mine afterwards showed it before. *)
Theorem dig_shows_mine_only_on_loss `{H : msw_header} {Hok : msw_header_ok H}
  fuel game rs row col ret game' rs' :
  session_ok game = true →
  msw_dig fuel game rs row col = Ok (ret, game', rs') →
  ret ≠ -1 →
  ∀ k, look (visible game') k = Some MSW_MINE →
       look (visible game) k = Some MSW_MINE.
Proof.
  intros Hs Hdig Hret k Hk.
  apply session_ok_spec in Hs as (Hwf & Hshown & Hgrid).
  apply wf_game_spec in Hwf as (Hr & Hc & _ & _).
  pose proof clear_not_mine as Hcm.
  rewrite dig_erase in Hdig. apply drop_log_Ok in Hdig as [log Hdig].
  apply dig_log_any in Hdig as [(_ & _ & -> & _)|(Hb & g & Hgen & Hdig & Hpost)];
    [done|].
  assert (counts_consistent game g = true) as Hcons.
  { destruct Hgen as [[Hg _]|[_ [f Hgen]]]; [by apply Hgrid|].
    by apply initial_grid_post in Hgen as (g' & [= <-] & _ & ? & _). }
  destruct (decide (look (visible game') k = look (visible game) k))
    as [E|NE]; [congruence|]. exfalso.
  destruct (post_reveals _ _ _ _ _ _ Hpost) as [_ Hrev].
  destruct (Hrev k NE) as (Hv & _ & x & y & Hdug & ->).
  rewrite Hk in Hv. symmetry in Hv.
  change (msw_index (with_grid game g) x y) with (msw_index game x y) in Hv.
  destruct (dig_log_reads _ (with_grid game g) _ _ _ g _ _ _ _
              eq_refl Hb Hdig) as (gi & vi & Hgi & _).
  pose proof (dig_log_ret_grid _ (with_grid game g) _ _ _ g _ _ _ _ gi
                Hcm eq_refl Hb Hgi Hdig) as Hret'.
  change (msw_index (with_grid game g) row col)
    with (msw_index game row col) in Hgi.
  assert (gi ≠ MSW_MINE) as Hgm.
  { intros ->. by rewrite bool_decide_true in Hret'. }
  destruct Hdug as [Hbx [[-> ->]|Hbeside]]; [congruence|].
  destruct Hbeside as [_ (a & b & n & Hreg & Hn & -> & ->)].
  apply region_clear in Hreg as [Hba Hla].
  change (msw_in_bounds (with_grid game g)) with (msw_in_bounds game)
    in Hba, Hbx.
  change (msw_index (with_grid game g) a b) with (msw_index game a b) in Hla.
  pose proof (consistent_clear_nbr game g a b n Hcm Hcons Hba Hla Hn) as Hf.
  unfold mine_at in Hf. rewrite Hbx, Hv in Hf.
  by rewrite bool_decide_true in Hf.
Qed.

Lemma dig_shows_mine_only_on_loss_witness :
  match @msw_dig ascii_header 9 row_game [] 0 0 with
  | Ok (_, game', _) =>
      ∀ k, look (visible game') k = Some 42 →
           look (visible row_game) k = Some 42
  | _ => False
  end.
Proof.
  destruct (@msw_dig ascii_header 9 row_game [] 0 0)
    as [[[ret game'] rs']| |] eqn:Hdig; [|by vm_compute in Hdig..].
  apply (@dig_shows_mine_only_on_loss ascii_header ascii_header_ok
           9 row_game [] 0 0 ret game' rs');
    [by vm_compute|exact Hdig|vm_compute in Hdig; congruence].
Defined.

(** ** The generation *)

Section GenerationEdges.
Context {H : msw_header} {Hok : msw_header_ok H}.

(** A grid holds no more mines than cells. *)
Lemma mine_count_le g : mine_count g ≤ Z.of_nat (length g).
Proof.
  unfold mine_count, mine_cells.
  pose proof (length_filter (fun k => look g k = Some MSW_MINE)
                (seqZ 0 (Z.of_nat (length g)))) as Hle.
  rewrite length_seqZ in Hle. lia.
Qed.

(** The counting pass leaves a grid without mines as it is. *)
Lemma count_pass_clear obj :
  0 ≤ rows obj → 0 ≤ columns obj →
  count_pass obj (replicate (Z.to_nat (rows obj * columns obj)) MSW_CLEAR)
  = Ok (replicate (Z.to_nat (rows obj * columns obj)) MSW_CLEAR).
Proof.
  intros Hr Hc.
  set (g0 := replicate (Z.to_nat (rows obj * columns obj)) MSW_CLEAR).
  assert (Z.of_nat (length g0) = rows obj * columns obj) as Hl.
  { unfold g0. rewrite length_replicate. lia. }
  destruct (count_pass_recount obj g0 Hl (placed_replicate _))
    as (g' & -> & Hl' & Hrec).
  f_equal. apply look_ext; [done|]. intros i.
  destruct (decide (0 ≤ i < rows obj * columns obj)) as [Hi|Hi].
  - destruct (index_cell obj i Hc Hi) as [Hb Hix].
    destruct (Hrec _ _ Hb) as [Hlook _]. rewrite Hix in Hlook.
    rewrite Hlook.
    destruct (look_in_range g0 i ltac:(lia)) as [x Hx].
    rewrite Hx. f_equal. apply look_replicate in Hx as ->.
    assert (∀ a b, mine_at obj g0 a b = false) as Hno.
    { intros a b. unfold mine_at. apply andb_false_iff. right.
      apply bool_decide_eq_false. intros Hm.
      apply look_replicate in Hm. by apply clear_not_mine. }
    unfold recount, mine_neighbours. rewrite Hno.
    rewrite filter_length_none; [lia|].
    intros n _. rewrite Hno. cbn. tauto.
  - rewrite (proj2 (look_None g' i)), (proj2 (look_None g0 i)); [done|lia..].
Qed.

End GenerationEdges.

(** X11: [msw_generate_grid] can return exactly when the mines fit on the
    board.  On a board with non-negative sides whose grid is allocated,
    there are random numbers on which it returns if and only if [mines] is
    at most [rows * columns]; with more mines than cells it never
    returns, whatever [rand()] answers. *)
Theorem generate_grid_returns_iff `{H : msw_header} {Hok : msw_header_ok H}
  obj g_old :
  0 ≤ rows obj → 0 ≤ columns obj →
  grid obj = Some g_old →
  Z.of_nat (length g_old) = rows obj * columns obj →
  (∃ rs obj' rs', msw_generate_grid obj rs = Ok (obj', rs')) ↔
  mines obj ≤ rows obj * columns obj.
Proof.
  intros Hr Hc Hg Hl. split.
  - intros (rs & obj' & rs' & Hgen).
    apply (generate_grid_post _ _ _ _ g_old) in Hgen
      as (g & _ & Hlg & _ & Hcount); try done.
    pose proof (mine_count_le g). lia.
  - intros Hm.
    set (n := rows obj * columns obj) in *.
    set (L := seqZ 0 (mines obj)).
    destruct (place_mines_fresh n [] L (replicate (Z.to_nat n) MSW_CLEAR))
      as (g2 & Hpl & Hl2 & _).
    { apply NoDup_seqZ. }
    { intros k Hk. apply elem_of_seqZ in Hk. split; [lia|].
      destruct (look_in_range (replicate (Z.to_nat n) MSW_CLEAR) k)
        as [x Hx]; [rewrite length_replicate; lia|].
      rewrite Hx. f_equal. by apply look_replicate in Hx. }
    assert (Z.of_nat (length L) = Z.max (mines obj) 0) as HL.
    { unfold L. rewrite length_seqZ. lia. }
    assert (place_mines n (mines obj) ((Z.to_N <$> L) ++ [])
              (replicate (Z.to_nat n) MSW_CLEAR) = Ok (g2, [])) as Hpl'.
    { destruct (decide (0 ≤ mines obj)) as [Hpos|Hneg].
      - rewrite <- Hpl. f_equal. lia.
      - assert (L = []) as -> by (unfold L; rewrite seqZ_nil; [done|lia]).
        rewrite place_mines_zero in Hpl |- * by (simpl; lia).
        done. }
    pose proof Hpl' as Hpost.
    apply place_mines_post in Hpost as (_ & Hp2 & _); [|apply placed_replicate].
    rewrite length_replicate in Hl2.
    destruct (count_pass_recount obj g2 ltac:(fold n; lia) Hp2)
      as (g3 & Hpass & _).
    exists ((Z.to_N <$> L) ++ []), (with_grid obj g3), [].
    unfold msw_generate_grid. rewrite Hg. cbn zeta.
    rewrite (fill_range _ _ _ Hl). simpl. fold n.
    rewrite Hpl'. simpl. by rewrite Hpass.
Qed.

Lemma generate_grid_returns_iff_witness :
  (∃ rs obj' rs',
     @msw_generate_grid ascii_header corner_mine rs = Ok (obj', rs')) ↔
  mines corner_mine ≤ rows corner_mine * columns corner_mine.
Proof.
  apply (@generate_grid_returns_iff ascii_header ascii_header_ok corner_mine
           [48; 48; 48; 48; 49; 49; 48; 49; 42]);
    [by vm_compute|by vm_compute|reflexivity|reflexivity].
Defined.

(** X12: with no mine to place ([mines] is zero or negative),
    [msw_generate_grid] never calls [rand()]: on a board with non-negative
    sides whose grid is allocated it returns at once, the random numbers
    untouched, and every cell of the grid is clear. *)
Theorem generate_grid_no_mines `{H : msw_header} {Hok : msw_header_ok H}
  obj g_old rs :
  0 ≤ rows obj → 0 ≤ columns obj →
  grid obj = Some g_old →
  Z.of_nat (length g_old) = rows obj * columns obj →
  mines obj ≤ 0 →
  msw_generate_grid obj rs =
  Ok (with_grid obj (replicate (Z.to_nat (rows obj * columns obj)) MSW_CLEAR),
      rs).
Proof.
  intros Hr Hc Hg Hl Hm.
  unfold msw_generate_grid. rewrite Hg. cbn zeta.
  rewrite (fill_range _ _ _ Hl). simpl.
  rewrite place_mines_zero by done. simpl.
  by rewrite count_pass_clear.
Qed.

Lemma generate_grid_no_mines_witness :
  @msw_generate_grid ascii_header
    {| rows := 2; columns := 2; mines := 0; grid := Some [0; 0; 0; 0];
       visible := [63; 63; 63; 63] |} [7%N]
  = Ok ({| rows := 2; columns := 2; mines := 0;
           grid := Some [48; 48; 48; 48]; visible := [63; 63; 63; 63] |},
        [7%N]).
Proof.
  apply (@generate_grid_no_mines ascii_header ascii_header_ok
           {| rows := 2; columns := 2; mines := 0; grid := Some [0; 0; 0; 0];
              visible := [63; 63; 63; 63] |} [0; 0; 0; 0] [7%N]);
    [by vm_compute|by vm_compute|reflexivity|reflexivity|by vm_compute].
Defined.

(** ** Sessions *)

Section SessionShape.
Context {H : msw_header} {Hok : msw_header_ok H}.

(** A step keeps the sizes and the mine count, and a grid it makes holds
    [mines] mines. *)
Lemma step_shape o game rs game' rs' :
  wf_game game = true →
  step o (game, rs) = Ok (game', rs') →
  rows game' = rows game ∧ columns game' = columns game ∧
  mines game' = mines game ∧
  ∀ g, grid game' = Some g →
    grid game = Some g ∨
    (grid game = None ∧ mine_count g = Z.max (mines game) 0).
Proof.
  intros Hwf Hstep. apply wf_game_spec in Hwf as (Hr & Hc & _).
  destruct o as [fuel row col|row col]; simpl in Hstep.
  - apply bind_Ok in Hstep as ([[ret game1] rs1] & Hdig & Hst).
    injection Hst as <- <-.
    rewrite dig_erase in Hdig. apply drop_log_Ok in Hdig as [log Hdig].
    apply dig_log_any in Hdig
      as [(_ & _ & -> & _)|(_ & g & Hgen & _ & Hpost)].
    { split_and!; try done. intros g Hg. by left. }
    destruct Hpost as [Hr1 Hc1 Hm1 Hg1 _ _ _ _]. simpl in *.
    split_and!; try done. intros g' Hg'.
    assert (g' = g) as -> by congruence.
    destruct Hgen as [[Hg _]|[Hg [f Hgen]]]; [by left|right].
    split; [done|].
    by apply initial_grid_post in Hgen as (g' & [= <-] & _ & _ & ? & _).
  - apply bind_Ok in Hstep as ([ret game1] & Hflag & Hst).
    injection Hst as <- <-.
    apply flag_post in Hflag as (_ & ? & ? & ? & Hg & _).
    split_and!; try done. intros g Hg'. left. congruence.
Qed.

Lemma run_shape os :
  ∀ game rs game' rs',
    session_ok game = true →
    (∀ g, grid game = Some g → mine_count g = Z.max (mines game) 0) →
    run os (game, rs) = Ok (game', rs') →
    rows game' = rows game ∧ columns game' = columns game ∧
    mines game' = mines game ∧
    ∀ g, grid game' = Some g → mine_count g = Z.max (mines game) 0.
Proof.
  induction os as [|o os IH]; intros game rs game' rs' Hs Hcount Hrun.
  - simpl in Hrun. by injection Hrun as <- <-.
  - simpl in Hrun. apply bind_Ok in Hrun as ([game1 rs1] & Hstep & Hrun).
    pose proof (step_session_ok o game rs game1 rs1 Hs Hstep) as Hs1.
    apply session_ok_spec in Hs as (Hwf & _).
    destruct (step_shape o game rs game1 rs1 Hwf Hstep)
      as (Hr1 & Hc1 & Hm1 & Hg1).
    destruct (IH game1 rs1 game' rs' Hs1) as (? & ? & ? & Hg'); [|done|].
    + intros g Hg. rewrite Hm1. destruct (Hg1 g Hg) as [?|[_ ?]]; auto.
    + split_and!; try congruence. intros g Hg. rewrite <- Hm1. by apply Hg'.
Qed.

End SessionShape.

(** X13: every state that a session reaches is a state of a session.  From
    a game created with non-negative sides, after any sequence of digs and
    flags, at whatever coordinates, that runs to its end: the sizes and the
    mine count are those given at creation; both arrays have
    [rows * columns] cells; every visible cell is unknown, flagged or shows
    the true cell; and once the grid exists it holds exactly [mines] mines
    (none if [mines] is negative), its counts are consistent, and around
    every clear cell shown as clear all neighbours are settled. *)
Theorem created_session_invariant `{H : msw_header} {Hok : msw_header_ok H}
  r c m os game0 rs game rs' :
  0 ≤ r → 0 ≤ c →
  smb_mine_create r c m = Ok game0 →
  run os (game0, rs) = Ok (game, rs') →
  rows game = r ∧ columns game = c ∧ mines game = m ∧
  wf_game game = true ∧ shown_true game = true ∧
  ∀ g, grid game = Some g →
    mine_count g = Z.max m 0 ∧
    counts_consistent game g = true ∧ flood_closed game g = true.
Proof.
  intros Hr Hc Hcreate Hrun.
  pose proof (create_session_ok r c m game0 Hr Hc Hcreate) as Hs0.
  rewrite create_Ok in Hcreate by lia. injection Hcreate as <-.
  destruct (run_shape os _ rs game rs' Hs0) as (Hr' & Hc' & Hm' & Hcount);
    [done|done|]. simpl in *.
  pose proof (run_session_ok os _ rs game rs' Hs0 Hrun) as Hs.
  apply session_ok_spec in Hs as (Hwf & Hshown & Hgrid).
  split_and!; try done. intros g Hg.
  destruct (Hgrid g Hg) as [? ?]. split_and!; auto.
Qed.

Lemma created_session_invariant_witness :
  ∃ game,
    run (H := ascii_header) [Flag 0 1; Dig 9 0 6; Flag 0 2; Dig 9 0 0]
      (row_fresh, [3%N]) = Ok (game, []) ∧
    rows game = 1 ∧ columns game = 7 ∧ mines game = 1 ∧
    wf_game game = true ∧ shown_true (H := ascii_header) game = true ∧
    ∀ g, grid game = Some g →
      mine_count (H := ascii_header) g = 1 ∧
      counts_consistent (H := ascii_header) game g = true ∧
      flood_closed (H := ascii_header) game g = true.
Proof.
  destruct (run (H := ascii_header)
              [Flag 0 1; Dig 9 0 6; Flag 0 2; Dig 9 0 0] (row_fresh, [3%N]))
    as [[game rs']| |] eqn:Hrun; [|by vm_compute in Hrun..].
  exists game. split; [vm_compute in Hrun; congruence|].
  apply (@created_session_invariant ascii_header ascii_header_ok 1 7 1
           [Flag 0 1; Dig 9 0 6; Flag 0 2; Dig 9 0 0] row_fresh [3%N]
           game rs'); [by vm_compute|by vm_compute|reflexivity|exact Hrun].
Defined.

(** X14: in every grid that [msw_generate_grid] returns on a board with
    non-negative sides, a cell of the board is a mine or holds [MSW_CLEAR]
    plus the number of mines in the block of three by three cells around
    it: through the tables [rnbr] and [cnbr] each of the eight cells around
    a cell is counted, and counted once. *)
Theorem generated_count_is_mines_around `{H : msw_header}
  {Hok : msw_header_ok H} obj rs obj' rs' g_old :
  0 ≤ rows obj → 0 ≤ columns obj →
  grid obj = Some g_old →
  Z.of_nat (length g_old) = rows obj * columns obj →
  msw_generate_grid obj rs = Ok (obj', rs') →
  ∃ g, grid obj' = Some g ∧
       ∀ i j, msw_in_bounds obj i j = true →
         look g (msw_index obj i j) =
         Some (if bool_decide (look g (msw_index obj i j) = Some MSW_MINE)
               then MSW_MINE
               else MSW_CLEAR + mines_around obj g i j).
Proof.
  intros Hr Hc Hg Hl Hgen.
  apply (generate_grid_post _ _ _ _ g_old) in Hgen
    as (g & -> & Hlg & Hcons & _); try done.
  exists g. split; [done|]. intros i j Hb.
  unfold counts_consistent in Hcons. rewrite all_cells_spec in Hcons.
  specialize (Hcons i j Hb). apply bool_decide_eq_true in Hcons.
  rewrite Hcons at 1. f_equal. unfold recount, mine_at. rewrite Hb. simpl.
  by rewrite (mine_neighbours_around obj g i j Hc Hlg).
Qed.

Lemma generated_count_is_mines_around_witness :
  ∃ g,
    grid (with_grid corner_mine [48; 48; 48; 48; 49; 49; 48; 49; 42]) = Some g ∧
    ∀ i j, msw_in_bounds corner_mine i j = true →
      look g (msw_index corner_mine i j) =
      Some (if bool_decide (look g (msw_index corner_mine i j) = Some 42)
            then 42
            else 48 + mines_around (H := ascii_header) corner_mine g i j).
Proof.
  apply (@generated_count_is_mines_around ascii_header ascii_header_ok
           corner_mine [8%N] _ [] [48; 48; 48; 48; 49; 49; 48; 49; 42]);
    [by vm_compute|by vm_compute|reflexivity|reflexivity|by vm_compute].
Defined.

(** ** A flag after a dig *)

(** X15: in a state of a session, after a dig on a cell of the board that
    returned, a flag on the same cell returns 1 and changes nothing: the
    cell shows its true value or already carries a flag, and is unknown no
    more. *)
Theorem flag_after_dig_changes_nothing `{H : msw_header}
  {Hok : msw_header_ok H} fuel game rs row col ret game' rs' :
  session_ok game = true →
  msw_in_bounds game row col = true →
  msw_dig fuel game rs row col = Ok (ret, game', rs') →
  msw_flag game' row col = Ok (1, game').
Proof.
  intros Hs Hb Hdig.
  apply session_ok_spec in Hs as (Hwf & _ & Hgrid).
  apply wf_game_spec in Hwf as (Hr & Hc & _ & _).
  rewrite dig_erase in Hdig. apply drop_log_Ok in Hdig as [log Hdig].
  apply dig_log_any in Hdig as [(Hf & _)|(_ & g & Hgen & Hdig & Hpost)];
    [congruence|].
  assert (counts_consistent game g = true) as Hcons.
  { destruct Hgen as [[Hg _]|[_ [f Hgen]]]; [by apply Hgrid|].
    by apply initial_grid_post in Hgen as (g' & [= <-] & _ & ? & _). }
  destruct (dig_log_reads _ (with_grid game g) _ _ _ g _ _ _ _
              eq_refl Hb Hdig) as (gi & _ & Hgi & _).
  pose proof (post_here _ _ _ _ _ _ Hpost Hb) as Hhere.
  pose proof (post_columns _ _ _ _ _ _ Hpost) as Hcol.
  change (msw_index (with_grid game g) row col)
    with (msw_index game row col) in Hgi, Hhere.
  destruct (consistent_codes game g row col gi Hcons Hb Hgi) as [Hgu _].
  assert (∃ x, look (visible game') (msw_index game row col) = Some x ∧
               x ≠ MSW_UNKNOWN) as (x & Hx & Hxu).
  { destruct Hhere as [E|(Hfl & _)].
    - exists gi. split; [congruence|done].
    - exists MSW_FLAG. split; [done|]. intros E.
      by apply (unknown_not_flag (H := H)). }
  unfold msw_flag. rewrite (index_same (with_grid game g) game') by done.
  change (msw_index (with_grid game g) row col) with (msw_index game row col).
  rewrite (rd_look _ _ _ Hx). simpl. by rewrite bool_decide_false.
Qed.

Lemma flag_after_dig_changes_nothing_witness :
  match @msw_dig ascii_header 9 row_game [] 0 1 with
  | Ok (_, game', _) => @msw_flag ascii_header game' 0 1 = Ok (1, game')
  | _ => False
  end.
Proof.
  destruct (@msw_dig ascii_header 9 row_game [] 0 1)
    as [[[ret game'] rs']| |] eqn:Hdig; [|by vm_compute in Hdig..].
  apply (@flag_after_dig_changes_nothing ascii_header ascii_header_ok
           9 row_game [] 0 1 ret game' rs');
    [by vm_compute|reflexivity|exact Hdig].
Defined.

(** ** Printing *)

(** A loop that appends a chunk at every turn appends the chunks in order. *)
Lemma for_each_emit (l : list Z) (body : Z → list Z → result (list Z))
  (chunk : Z → list Z) :
  (∀ i s, i ∈ l → body i s = Ok (s ++ chunk i)) →
  ∀ s, for_each l body s = Ok (s ++ mjoin (chunk <$> l)).
Proof.
  induction l as [|i l IH]; intros Hbody s; simpl.
  - by rewrite app_nil_r.
  - rewrite Hbody by left. simpl.
    rewrite IH by (intros; apply Hbody; by right).
    by rewrite <- app_assoc.
Qed.

(** The same for chunks of one byte. *)
Lemma for_each_emit1 (l : list Z) (body : Z → list Z → result (list Z))
  (byte : Z → Z) :
  (∀ i s, i ∈ l → body i s = Ok (s ++ [byte i])) →
  ∀ s, for_each l body s = Ok (s ++ (byte <$> l)).
Proof.
  induction l as [|i l IH]; intros Hbody s; simpl.
  - by rewrite app_nil_r.
  - rewrite Hbody by left. simpl.
    rewrite IH by (intros; apply Hbody; by right).
    by rewrite <- app_assoc.
Qed.

(** Up to 99 the conversion [%2d] gives two characters. *)
Lemma fmt_2d_length i : 0 ≤ i < 100 → length (fmt_2d i) = 2%nat.
Proof.
  intros Hi.
  assert (Forall (fun i => length (fmt_2d i) = 2%nat) (seqZ 0 100)) as Hall.
  { apply (bool_decide_unpack _). by vm_compute. }
  rewrite Forall_forall in Hall. apply Hall, elem_of_seqZ. lia.
Qed.

Section Print.
Context {P : msw_print_header}.

(** What [msw_print_buf] writes when its buffer holds every cell of the
    board: three lines of heading, then a line for each row. *)
Lemma print_buf_out game stream which b :
  (if bool_decide (which = MSW_PRINT_VISIBLE) then Some (visible game)
   else grid game) = Some b →
  (∀ i j, msw_in_bounds game i j = true →
     ∃ x, look b (msw_index game i j) = Some x) →
  msw_print_buf game stream which =
  Ok (stream ++
      (bytes "  | " ++
       ((fun i => (if bool_decide (i `rem` 10 = 0) then 48 + i `quot` 10
                   else 32) `mod` 256) <$> seqZ 0 (columns game)) ++
       (NL :: bytes "  | ") ++
       ((fun i => (48 + i `rem` 10) `mod` 256) <$> seqZ 0 (columns game)) ++
       (NL :: bytes "--|-") ++
       ((fun i => 45) <$> seqZ 0 (columns game)) ++ [NL]) ++
      mjoin ((fun i =>
                fmt_2d i ++ bytes "| " ++
                ((fun j => default 0 (look b (msw_index game i j)) `mod` 256)
                   <$> seqZ 0 (columns game)) ++ [NL])
             <$> seqZ 0 (rows game))).
Proof.
  intros Hbuf Hcells. unfold msw_print_buf. rewrite Hbuf.
  unfold for_range, fputs, fputc.
  rewrite (for_each_emit1 _ _
             (fun i => (if bool_decide (i `rem` 10 = 0) then 48 + i `quot` 10
                        else 32) `mod` 256)).
  2:{ intros i s _. by destruct (bool_decide (i `rem` 10 = 0)). }
  cbn [bind].
  rewrite (for_each_emit1 _ _ (fun i => (48 + i `rem` 10) `mod` 256))
    by done.
  cbn [bind].
  rewrite (for_each_emit1 _ _ (fun i => 45)) by done.
  cbn [bind].
  rewrite (for_each_emit _ _
             (fun i =>
                fmt_2d i ++ bytes "| " ++
                ((fun j => default 0 (look b (msw_index game i j)) `mod` 256)
                   <$> seqZ 0 (columns game)) ++ [NL])).
  - f_equal. rewrite <- !app_assoc. done.
  - intros i s Hi. apply elem_of_seqZ in Hi.
    rewrite (for_each_emit1 _ _
               (fun j => default 0 (look b (msw_index game i j)) `mod` 256)).
    + cbn [bind]. by rewrite <- !app_assoc.
    + intros j s' Hj. apply elem_of_seqZ in Hj.
      destruct (Hcells i j) as [x Hx]; [apply in_bounds_iff; lia|].
      by rewrite (rd_look _ _ _ Hx), Hx.
Qed.

End Print.

Section Layout.
Context {P : msw_print_header}.

(** Where the cells are in what [msw_print_buf] writes, for at most a
    hundred rows. *)
Lemma print_buf_layout game stream which b :
  (if bool_decide (which = MSW_PRINT_VISIBLE) then Some (visible game)
   else grid game) = Some b →
  0 ≤ rows game ≤ 100 → 0 ≤ columns game →
  Z.of_nat (length b) = rows game * columns game →
  ∃ out,
    msw_print_buf game stream which = Ok (stream ++ out) ∧
    Z.of_nat (length out) =
      3 * columns game + 15 + rows game * (columns game + 5) ∧
    ∀ i j, msw_in_bounds game i j = true →
      (∀ x, look b (msw_index game i j) = Some x →
         look out (3 * columns game + 15 + i * (columns game + 5) + 4 + j)
         = Some (x `mod` 256)) ∧
      look out (3 * columns game + 15 + i * (columns game + 5) + 4
                + columns game) = Some NL.
Proof.
  intros Hbuf Hr Hc Hl.
  rewrite (print_buf_out game stream which b Hbuf).
  2:{ intros i j Hb. apply look_in_range.
      pose proof (index_range game i j Hb). lia. }
  set (hdr := bytes "  | " ++ _).
  set (chunk := fun i : Z => fmt_2d i ++ _).
  assert (length hdr = Z.to_nat (3 * columns game + 15)) as Hhdr.
  { unfold hdr. rewrite !length_app, !length_fmap, !length_seqZ. simpl. lia. }
  assert (∀ i, 0 ≤ i < rows game →
            length (chunk i) = (Z.to_nat (columns game) + 5)%nat) as Hchunk.
  { intros i Hi. unfold chunk.
    rewrite !length_app, length_fmap, length_seqZ, fmt_2d_length by lia.
    simpl. lia. }
  assert (Forall (fun l => length l = (Z.to_nat (columns game) + 5)%nat)
            (chunk <$> seqZ 0 (rows game))) as Hall.
  { apply Forall_fmap, Forall_forall. intros i Hi.
    apply elem_of_seqZ in Hi. apply Hchunk. lia. }
  eexists. split; [done|]. split.
  - rewrite length_app, length_join, Hhdr.
    rewrite <- list_fmap_compose.
    rewrite (sum_list_fmap_same (Z.to_nat (columns game) + 5)).
    + rewrite length_seqZ. nia.
    + apply Forall_forall. intros i Hi. apply elem_of_seqZ in Hi.
      simpl. apply Hchunk. lia.
  - intros i j Hb. apply in_bounds_iff in Hb as Hij.
    assert ((chunk <$> seqZ 0 (rows game)) !! Z.to_nat i = Some (chunk i))
      as Hrow.
    { rewrite list_lookup_fmap, lookup_seqZ_lt by lia. simpl.
      do 2 f_equal. lia. }
    assert (∀ k : nat, (k < Z.to_nat (columns game) + 5)%nat →
              ∀ y, chunk i !! k = Some y →
              look (hdr ++ mjoin (chunk <$> seqZ 0 (rows game)))
                (3 * columns game + 15 + i * (columns game + 5) + Z.of_nat k)
              = Some y) as Hat.
    { intros k Hk y Hy. unfold look. rewrite bool_decide_true by nia.
      rewrite lookup_app_r by (rewrite Hhdr; nia).
      replace (Z.to_nat (3 * columns game + 15 + i * (columns game + 5)
                         + Z.of_nat k) - length hdr)%nat
        with (Z.to_nat i * (Z.to_nat (columns game) + 5) + k)%nat
        by (rewrite Hhdr; nia).
      apply (join_lookup_Some_same_length' _ _ _ _ _ Hall Hk).
      by exists (chunk i). }
    split.
    + intros x Hx.
      replace (3 * columns game + 15 + i * (columns game + 5) + 4 + j)
        with (3 * columns game + 15 + i * (columns game + 5)
              + Z.of_nat (4 + Z.to_nat j)) by lia.
      apply Hat; [lia|]. unfold chunk.
      rewrite lookup_app_r by (rewrite fmt_2d_length; lia).
      rewrite fmt_2d_length by lia.
      rewrite lookup_app_r by (simpl; lia).
      rewrite lookup_app_l by (rewrite length_fmap, length_seqZ; simpl; lia).
      rewrite list_lookup_fmap.
      replace (4 + Z.to_nat j - 2 - length (bytes "| "))%nat
        with (Z.to_nat j) by (simpl; lia).
      rewrite lookup_seqZ_lt by lia. simpl.
      replace (0 + Z.of_nat (Z.to_nat j)) with j by lia.
      by rewrite Hx.
    + replace (3 * columns game + 15 + i * (columns game + 5) + 4
               + columns game)
        with (3 * columns game + 15 + i * (columns game + 5)
              + Z.of_nat (4 + Z.to_nat (columns game))) by lia.
      apply Hat; [lia|]. unfold chunk.
      rewrite lookup_app_r by (rewrite fmt_2d_length; lia).
      rewrite fmt_2d_length by lia.
      rewrite lookup_app_r by (simpl; lia).
      rewrite lookup_app_r by (rewrite length_fmap, length_seqZ; simpl; lia).
      rewrite length_fmap, length_seqZ.
      replace (4 + Z.to_nat (columns game) - 2 - length (bytes "| ")
               - Z.to_nat (columns game))%nat with 0%nat by (simpl; lia).
      done.
Qed.

End Layout.

(** X16: what [msw_print] writes for a well-formed game of at most a hundred
    rows.  It never fails; it appends [3 * columns + 15] bytes of heading
    and [columns + 5] bytes for each row; the byte of the cell [(i, j)] of
    the visible board stands at the offset
    [3 * columns + 15 + i * (columns + 5) + 4 + j] of what was appended, and
    each row ends in a newline.  So the visible board can be read back from
    the screen. *)
Theorem print_layout `{P : msw_print_header} game stream :
  wf_game game = true → rows game ≤ 100 →
  ∃ out,
    msw_print game stream = Ok (stream ++ out) ∧
    Z.of_nat (length out) =
      3 * columns game + 15 + rows game * (columns game + 5) ∧
    ∀ i j, msw_in_bounds game i j = true →
      (∃ x, look (visible game) (msw_index game i j) = Some x ∧
            look out (3 * columns game + 15 + i * (columns game + 5) + 4 + j)
            = Some (x `mod` 256)) ∧
      look out (3 * columns game + 15 + i * (columns game + 5) + 4
                + columns game) = Some NL.
Proof.
  intros Hwf Hr. apply wf_game_spec in Hwf as (Hr0 & Hc & Hl & _).
  destruct (print_buf_layout game stream MSW_PRINT_VISIBLE (visible game))
    as (out & Hout & Hlen & Hcells); [by rewrite bool_decide_true|lia|done..|].
  exists out. split; [done|]. split; [done|]. intros i j Hb.
  destruct (Hcells i j Hb) as [Hcell Hnl]. split; [|done].
  destruct (look_in_range (visible game) (msw_index game i j)) as [x Hx].
  { pose proof (index_range game i j Hb). lia. }
  exists x. split; [done|]. by apply Hcell.
Qed.

Lemma print_layout_witness :
  ∃ out,
    @msw_print sample_print_header row_game [] = Ok ([] ++ out) ∧
    Z.of_nat (length out) = 48 ∧
    ∀ i j, msw_in_bounds row_game i j = true →
      (∃ x, look (visible row_game) (msw_index row_game i j) = Some x ∧
            look out (36 + i * 12 + 4 + j) = Some (x `mod` 256)) ∧
      look out (36 + i * 12 + 4 + 7) = Some NL.
Proof.
  apply (@print_layout sample_print_header row_game []);
    [reflexivity|by vm_compute].
Defined.

(** X17: [msw_print_buf] asked for the true grid.  Before the first dig the
    grid does not exist, and on a board that has a cell the function reads
    through the null pointer, after the heading.  Once the grid exists, in a
    well-formed game of at most a hundred rows, it writes the grid in the
    layout of the visible board. *)
Theorem print_true_grid `{P : msw_print_header} game stream which :
  which ≠ MSW_PRINT_VISIBLE →
  0 < rows game ≤ 100 → 0 < columns game →
  (grid game = None → msw_print_buf game stream which = Fault) ∧
  (∀ g, grid game = Some g → wf_game game = true →
     ∃ out,
       msw_print_buf game stream which = Ok (stream ++ out) ∧
       ∀ i j, msw_in_bounds game i j = true →
         ∃ x, look g (msw_index game i j) = Some x ∧
              look out (3 * columns game + 15 + i * (columns game + 5) + 4 + j)
              = Some (x `mod` 256)).
Proof.
  intros Hw Hr Hc. split.
  - intros Hg. unfold msw_print_buf.
    rewrite bool_decide_false by done. rewrite Hg.
    unfold for_range, fputs, fputc.
    rewrite (for_each_emit1 _ _
               (fun i => (if bool_decide (i `rem` 10 = 0)
                          then 48 + i `quot` 10 else 32) `mod` 256)).
    2:{ intros i s _. by destruct (bool_decide (i `rem` 10 = 0)). }
    cbn [bind].
    rewrite (for_each_emit1 _ _ (fun i => (48 + i `rem` 10) `mod` 256))
      by done.
    cbn [bind].
    rewrite (for_each_emit1 _ _ (fun i => 45)) by done.
    cbn [bind].
    rewrite (seqZ_cons 0 (rows game)) by lia. cbn [for_each].
    rewrite (seqZ_cons 0 (columns game)) by lia. done.
  - intros g Hg Hwf. apply wf_game_spec in Hwf as (_ & _ & _ & Hl).
    specialize (Hl g Hg).
    destruct (print_buf_layout game stream which g)
      as (out & Hout & _ & Hcells);
      [by rewrite bool_decide_false|lia|lia|done|].
    exists out. split; [done|]. intros i j Hb.
    destruct (Hcells i j Hb) as [Hcell _].
    destruct (look_in_range g (msw_index game i j)) as [x Hx].
    { pose proof (index_range game i j Hb). lia. }
    exists x. split; [done|]. by apply Hcell.
Qed.

Lemma print_true_grid_witness :
  (grid row_fresh = None →
   @msw_print_buf sample_print_header row_fresh [] 0 = Fault) ∧
  (∀ g, grid row_fresh = Some g → wf_game row_fresh = true →
     ∃ out,
       @msw_print_buf sample_print_header row_fresh [] 0 = Ok ([] ++ out) ∧
       ∀ i j, msw_in_bounds row_fresh i j = true →
         ∃ x, look g (msw_index row_fresh i j) = Some x ∧
              look out (36 + i * 12 + 4 + j) = Some (x `mod` 256)).
Proof.
  apply (@print_true_grid sample_print_header row_fresh [] 0);
    [by vm_compute|by vm_compute|by vm_compute].
Defined.

(** ** The command loop *)

Section Loop.
Context {H : msw_header} {P : msw_print_header}.

(** What a turn of the loop that returns has done. *)
Lemma main_iter_Ok fuel s st st' :
  main_iter fuel s st = Ok st' →
  (st_op st', st_r st', st_c st') = scanf s st ∧
  (if bool_decide (st_op st' = 100)
   then msw_dig fuel (st_game st) (st_rand st) (st_r st') (st_c st')
        = Ok (st_status st', st_game st', st_rand st')
   else msw_flag (st_game st) (st_r st') (st_c st')
        = Ok (st_status st', st_game st') ∧
        st_rand st' = st_rand st) ∧
  msw_print (st_game st') (cls (fputs (bytes ">") (st_out st)))
  = Ok (st_out st').
Proof.
  unfold main_iter. destruct (scanf s st) as [[op r] c].
  intros Hit. apply bind_Ok in Hit as ([[status game] rs] & Hop & Hit).
  apply bind_Ok in Hit as (out & Hprint & Hit). injection Hit as <-.
  simpl. split; [done|]. split; [|done].
  case_bool_decide; [done|].
  apply bind_Ok in Hop as ([status' game'] & Hflag & Hop).
  by injection Hop as <- <- <-.
Qed.

(** A dig that returned 1 can be repeated: it returns 1 again and changes
    nothing. *)
Lemma dig_again fuel game rs row col game1 rs1 :
  MSW_CLEAR ≠ MSW_MINE →
  msw_dig fuel game rs row col = Ok (1, game1, rs1) →
  msw_dig fuel game1 rs1 row col = Ok (1, game1, rs1).
Proof.
  intros Hcm Hdig. destruct fuel as [|f]; [done|].
  rewrite dig_erase in Hdig. apply drop_log_Ok in Hdig as [log Hdig].
  apply dig_log_any in Hdig as [(_ & ? & _)|(Hb & g & _ & Hdig & Hpost)];
    [done|].
  destruct (dig_log_reads _ (with_grid game g) _ _ _ g _ _ _ _
              eq_refl Hb Hdig) as (gi & _ & Hgi & _).
  pose proof (dig_log_ret_grid _ (with_grid game g) _ _ _ g _ _ _ _ gi
                Hcm eq_refl Hb Hgi Hdig) as Hret.
  assert (gi ≠ MSW_MINE) as Hgm.
  { intros ->. by rewrite bool_decide_true in Hret. }
  rewrite dig_erase.
  rewrite (dig_log_settled f game1 rs1 row col g gi); try done.
  - by destruct Hpost.
  - rewrite <- Hb. apply in_bounds_same; by destruct Hpost.
  - rewrite (index_same (with_grid game g)); [done|by destruct Hpost].
  - rewrite (index_same (with_grid game g)); [|by destruct Hpost].
    by apply (post_here _ _ _ _ _ _ Hpost).
Qed.

(** On a well-formed game [msw_print] returns, whatever was written
    before. *)
Lemma print_total game stream :
  wf_game game = true → ∃ out, msw_print game stream = Ok out.
Proof.
  intros Hwf. apply wf_game_spec in Hwf as (_ & _ & Hl & _).
  unfold msw_print.
  rewrite (print_buf_out game stream MSW_PRINT_VISIBLE (visible game));
    [by eexists|by rewrite bool_decide_true|].
  intros i j Hb. apply look_in_range.
  pose proof (index_range game i j Hb). lia.
Qed.

End Loop.

(** X18: the loop of [main] ends only on a dig, off the board or on a mine.
    When the loop, entered with [status] 1, has ended, the last command read
    was a [d]; either it named a cell off the board, [status] is 0 and the
    game is as it was, or it named a mine, [status] is -1 and the visible
    board shows that mine.  No flag ends the loop, and neither does a board
    on which every cell without a mine is shown. *)
Theorem main_loop_ends_on_dig `{H : msw_header} `{P : msw_print_header}
  fuel ins :
  ∀ st st',
    MSW_CLEAR ≠ MSW_MINE →
    st_status st = 1 →
    main_loop fuel ins st = Ok st' →
    st_op st' = 100 ∧
    ((st_status st' = 0 ∧
      msw_in_bounds (st_game st') (st_r st') (st_c st') = false) ∨
     (st_status st' = -1 ∧
      msw_in_bounds (st_game st') (st_r st') (st_c st') = true ∧
      ∃ g, grid (st_game st') = Some g ∧
           look g (msw_index (st_game st') (st_r st') (st_c st'))
             = Some MSW_MINE ∧
           look (visible (st_game st'))
             (msw_index (st_game st') (st_r st') (st_c st'))
             = Some MSW_MINE)).
Proof.
  induction ins as [|s ins IH]; intros st st' Hcm Hst Hloop; simpl in Hloop;
    rewrite bool_decide_true in Hloop by done; [done|].
  apply bind_Ok in Hloop as (st1 & Hit & Hloop).
  destruct (decide (st_status st1 = 1)) as [H1|H1]; [by apply (IH st1)|].
  assert (st' = st1) as ->.
  { destruct ins; simpl in Hloop; rewrite bool_decide_false in Hloop by done;
      congruence. }
  clear IH Hloop. apply main_iter_Ok in Hit as (_ & Hop & _).
  case_bool_decide as Hd.
  - split; [done|]. rename Hop into Hdig.
    rewrite dig_erase in Hdig. apply drop_log_Ok in Hdig as [log Hdig].
    apply dig_log_any in Hdig
      as [(Hb & -> & -> & _)|(Hb & g & _ & Hdig & Hpost)]; [by left|].
    right.
    destruct (dig_log_reads _ (with_grid (st_game st) g) _ _ _ g _ _ _ _
                eq_refl Hb Hdig) as (gi & _ & Hgi & _).
    pose proof (dig_log_ret_grid _ (with_grid (st_game st) g) _ _ _ g _ _ _ _
                  gi Hcm eq_refl Hb Hgi Hdig) as Hret.
    case_bool_decide as Hm; [subst gi|done].
    pose proof (post_here _ _ _ _ _ _ Hpost Hb) as Hhere.
    destruct Hpost as [Hr1 Hc1 _ Hg1 _ _ _ _].
    rewrite (in_bounds_same (with_grid (st_game st) g) (st_game st1))
      by done.
    rewrite (index_same (with_grid (st_game st) g) (st_game st1)) by done.
    split_and!; [done|done|]. exists g. split_and!; [done|done|].
    destruct Hhere as [E|(_ & _ & Hnm)]; [congruence|done].
  - destruct Hop as [Hflag _].
    apply flag_post in Hflag as (? & _). done.
Qed.

Lemma main_loop_ends_on_dig_witness :
  ∃ st',
    main_loop (H := ascii_header) (P := sample_print_header) 9
      [scan_all 100 0 6; scan_op 10; scan_all 102 0 1; scan_op_r 100 5]
      {| st_status := 1; st_op := 0; st_r := 0; st_c := 0;
         st_game := row_fresh; st_rand := [3%N]; st_out := [] |} = Ok st' ∧
    st_op st' = 100 ∧ st_status st' = 0 ∧
    msw_in_bounds (st_game st') (st_r st') (st_c st') = false.
Proof.
  destruct (main_loop (H := ascii_header) (P := sample_print_header) 9
              [scan_all 100 0 6; scan_op 10; scan_all 102 0 1;
               scan_op_r 100 5]
              {| st_status := 1; st_op := 0; st_r := 0; st_c := 0;
                 st_game := row_fresh; st_rand := [3%N]; st_out := [] |})
    as [st'| |] eqn:Hloop; [|by vm_compute in Hloop..].
  exists st'. split; [done|].
  destruct (@main_loop_ends_on_dig ascii_header sample_print_header 9
              [scan_all 100 0 6; scan_op 10; scan_all 102 0 1;
               scan_op_r 100 5]
              {| st_status := 1; st_op := 0; st_r := 0; st_c := 0;
                 st_game := row_fresh; st_rand := [3%N]; st_out := [] |} st'
              ltac:(by vm_compute) eq_refl Hloop) as [Hop Hend].
  split; [exact Hop|]. destruct Hend as [[Hs Hb]|[Hs _]]; [exact (conj Hs Hb)|].
  vm_compute in Hloop. injection Hloop as <-. discriminate Hs.
Defined.

Section Eof.
Context {H : msw_header} {Hok : msw_header_ok H} {P : msw_print_header}.

(** A turn in which [scanf] assigns nothing repeats the last command; when
    that command can be repeated without effect, only the output grows. *)
Lemma main_iter_none fuel op r c game rs out :
  wf_game game = true →
  (if bool_decide (op = 100)
   then msw_dig fuel game rs r c = Ok (1, game, rs)
   else msw_flag game r c = Ok (1, game)) →
  ∃ out',
    main_iter fuel scan_none
      {| st_status := 1; st_op := op; st_r := r; st_c := c;
         st_game := game; st_rand := rs; st_out := out |}
    = Ok {| st_status := 1; st_op := op; st_r := r; st_c := c;
            st_game := game; st_rand := rs; st_out := out' |}.
Proof.
  intros Hwf Hcmd. unfold main_iter. simpl.
  destruct (print_total game (cls (fputs (bytes ">") out)) Hwf)
    as [out' Hprint].
  exists out'. case_bool_decide.
  - rewrite Hcmd. simpl. by rewrite Hprint.
  - rewrite Hcmd. simpl. by rewrite Hprint.
Qed.

Lemma main_loop_spin fuel op r c game rs n :
  wf_game game = true →
  (if bool_decide (op = 100)
   then msw_dig fuel game rs r c = Ok (1, game, rs)
   else msw_flag game r c = Ok (1, game)) →
  ∀ out,
    main_loop fuel (replicate n scan_none)
      {| st_status := 1; st_op := op; st_r := r; st_c := c;
         st_game := game; st_rand := rs; st_out := out |}
    = NoFuel.
Proof.
  intros Hwf Hcmd. induction n as [|n IH]; intros out; [done|].
  cbn [replicate main_loop]. cbn [st_status].
  rewrite bool_decide_true by done.
  destruct (main_iter_none fuel op r c game rs out Hwf Hcmd) as [out' ->].
  simpl. apply IH.
Qed.

End Eof.

(** X19: at the end of the input the loop of [main] spins.  After a turn of
    the loop, on a state of a session, that left [status] at 1, every
    further call of [scanf] that assigns nothing (as all calls do once the
    input has ended) repeats the last command, which changes nothing and
    returns 1 again: however many such calls are allowed, the loop has not
    ended when they are used up. *)
Theorem main_spins_at_eof `{H : msw_header} {Hok : msw_header_ok H}
  `{P : msw_print_header} fuel s st st1 n :
  session_ok (st_game st) = true →
  main_iter fuel s st = Ok st1 →
  st_status st1 = 1 →
  main_loop fuel (replicate n scan_none) st1 = NoFuel.
Proof.
  intros Hs Hit Hst.
  apply main_iter_Ok in Hit as (_ & Hop & _).
  destruct st1 as [status op r c game rs out]. simpl in *. subst status.
  apply main_loop_spin.
  - assert (session_ok game = true) as Hs1; [|by apply session_ok_spec in Hs1 as (? & _)].
    case_bool_decide.
    + apply (step_session_ok (Dig fuel r c) (st_game st) (st_rand st) game rs);
        [done|]. simpl. by rewrite Hop.
    + destruct Hop as [Hflag _].
      apply (step_session_ok (Flag r c) (st_game st) (st_rand st) game
               (st_rand st)); [done|]. simpl. by rewrite Hflag.
  - case_bool_decide.
    + apply (dig_again fuel (st_game st) (st_rand st)); [|done].
      apply clear_not_mine.
    + destruct Hop as [Hflag _]. by apply (flag_again (st_game st) r c 1).
Qed.

Lemma main_spins_at_eof_witness :
  main_loop (H := ascii_header) (P := sample_print_header) 9
    (replicate 5 scan_none)
    {| st_status := 1; st_op := 102; st_r := 0; st_c := 1;
       st_game := with_visible row_game [63; 70; 70; 63; 49; 48; 48];
       st_rand := [];
       st_out := [62; 27; 91; 49; 59; 49; 72; 27; 91; 50; 74;
                  32; 32; 124; 32; 48; 32; 32; 32; 32; 32; 32; 10;
                  32; 32; 124; 32; 48; 49; 50; 51; 52; 53; 54; 10;
                  45; 45; 124; 45; 45; 45; 45; 45; 45; 45; 45; 10;
                  32; 48; 124; 32; 63; 70; 70; 63; 49; 48; 48; 10] |}
  = NoFuel.
Proof.
  apply (@main_spins_at_eof ascii_header ascii_header_ok sample_print_header
           9 (scan_all 102 0 1)
           {| st_status := 1; st_op := 0; st_r := 0; st_c := 0;
              st_game := row_game; st_rand := []; st_out := [] |});
    [by vm_compute|by vm_compute|reflexivity].
Defined.

(** ** Memory safety of a dig *)

(** A loop whose turns never fault does not fault. *)
Lemma for_each_no_fault {S : Type} (Q : S → Prop) l
  (body : Z → S → result S) s :
  Q s →
  (∀ i s, i ∈ l → Q s →
     body i s ≠ Fault ∧ ∀ s', body i s = Ok s' → Q s') →
  for_each l body s ≠ Fault.
Proof.
  revert s. induction l as [|i l IH]; intros s Hs Hbody; simpl; [done|].
  destruct (Hbody i s ltac:(left) Hs) as [Hnf Hnext].
  destruct (body i s) as [s'| |]; simpl; [|done..].
  apply IH; [by apply Hnext|]. intros j s'' Hj. apply Hbody. by right.
Qed.

Section NoFault.
Context {H : msw_header} {Hok : msw_header_ok H}.

Lemma place_mines_no_fault ncells rs :
  ∀ m g, 0 < ncells → Z.of_nat (length g) = ncells →
    place_mines ncells m rs g ≠ Fault.
Proof.
  induction rs as [|x rs IH]; intros m g Hn Hl; simpl.
  - by case_bool_decide.
  - case_bool_decide; [|done].
    rewrite bool_decide_false by lia.
    pose proof (Z.rem_bound_pos (Z.of_N x) ncells ltac:(lia) Hn) as Hi.
    destruct (look_in_range g (Z.of_N x `rem` ncells) ltac:(lia)) as [c Hc].
    rewrite (rd_look _ _ _ Hc). simpl. case_bool_decide.
    + rewrite wr_in_range by lia. simpl. apply IH; [done|].
      by rewrite length_insert.
    + by apply IH.
Qed.

Lemma generate_grid_no_fault obj rs g_old :
  0 ≤ rows obj → 0 ≤ columns obj → 0 < rows obj * columns obj →
  grid obj = Some g_old →
  Z.of_nat (length g_old) = rows obj * columns obj →
  msw_generate_grid obj rs ≠ Fault.
Proof.
  intros Hr Hc Hn Hg Hl. unfold msw_generate_grid. rewrite Hg. cbn zeta.
  rewrite (fill_range _ _ _ Hl). simpl.
  destruct (place_mines _ _ _ _) as [[g2 rs2]| |] eqn:Hpl; simpl; [|exfalso|done].
  - pose proof Hpl as Hpost.
    apply place_mines_post in Hpost as (Hl2 & Hp2 & _);
      [|apply placed_replicate].
    rewrite length_replicate in Hl2.
    destruct (count_pass_recount obj g2 ltac:(lia) Hp2) as (g3 & -> & _).
    done.
  - revert Hpl. apply place_mines_no_fault; [done|].
    rewrite length_replicate. lia.
Qed.

Lemma generate_until_clear_no_fault fuel :
  ∀ obj r c rs g_old,
    0 ≤ rows obj → 0 ≤ columns obj → msw_in_bounds obj r c = true →
    grid obj = Some g_old →
    Z.of_nat (length g_old) = rows obj * columns obj →
    generate_until_clear fuel obj r c rs ≠ Fault.
Proof.
  induction fuel as [|f IH]; intros obj r c rs g_old Hr Hc Hb Hg Hl; [done|].
  simpl. pose proof (index_range obj r c Hb) as Hix.
  destruct (msw_generate_grid obj rs) as [[obj1 rs1]| |] eqn:Hgen; simpl;
    [|exfalso|done].
  - apply (generate_grid_post _ _ _ _ g_old) in Hgen
      as (g1 & -> & Hl1 & _); try done.
    change (msw_index (with_grid obj g1) r c) with (msw_index obj r c).
    unfold rd_grid. simpl.
    destruct (look_in_range g1 (msw_index obj r c) ltac:(lia)) as [x Hx].
    rewrite (rd_look _ _ _ Hx). simpl.
    case_bool_decide; [|done]. by apply (IH _ _ _ _ g1).
  - revert Hgen. apply (generate_grid_no_fault _ _ g_old); try done. lia.
Qed.

Lemma initial_grid_no_fault fuel obj r c rs :
  0 ≤ rows obj → 0 ≤ columns obj → msw_in_bounds obj r c = true →
  msw_initial_grid fuel obj r c rs ≠ Fault.
Proof.
  intros Hr Hc Hb. unfold msw_initial_grid, smb_new.
  rewrite bool_decide_true by lia. simpl.
  apply (generate_until_clear_no_fault _ _ _ _ _
           (replicate (Z.to_nat (rows obj * columns obj)) 0)); try done.
  simpl. rewrite length_replicate. lia.
Qed.

(** A dig on a game whose grid exists, when the calls it makes do not
    fault. *)
Lemma dig_log_no_fault_grid f game rs row col g :
  (∀ game rs row col,
     wf_game game = true → msw_dig_log f game rs row col ≠ Fault) →
  wf_game game = true → grid game = Some g →
  msw_dig_log (S f) game rs row col ≠ Fault.
Proof.
  intros IH Hwf Hg. simpl.
  destruct (msw_in_bounds game row col) eqn:Hb; [|done]. simpl.
  rewrite Hg. simpl.
  pose proof Hwf as Hwf'.
  apply wf_game_spec in Hwf' as (Hr & Hc & Hlv & Hlg). specialize (Hlg g Hg).
  pose proof (index_range game row col Hb) as Hix.
  destruct (look_in_range g (msw_index game row col) ltac:(lia)) as [gi Hgi].
  destruct (look_in_range (visible game) (msw_index game row col)
              ltac:(lia)) as [vi Hvi].
  unfold rd_grid. rewrite Hg, (rd_look _ _ _ Hgi). simpl.
  rewrite (rd_look _ _ _ Hvi). simpl.
  destruct (bool_decide (gi = MSW_CLEAR) && bool_decide (vi ≠ MSW_CLEAR)).
  - rewrite wr_in_range by lia. simpl.
    match goal with
    | |- bind ?m _ ≠ Fault =>
        assert (m ≠ Fault) as Hloop;
          [|by destruct m as [[[? ?] ?]| |]]
    end.
    unfold for_range.
    apply (for_each_no_fault
             (fun st => wf_game (fst (fst st)) = true ∧
                        grid (fst (fst st)) = Some g)).
    + simpl. split; [|done]. apply (wf_game_same game); try done.
      simpl. by rewrite length_insert.
    + intros n [[game1 rs1] log1] _ [Hwf1 Hg1]. simpl in *.
      pose proof (IH game1 rs1 (row + at_ rnbr n) (col + at_ cnbr n) Hwf1)
        as Hnf.
      destruct (msw_dig_log f game1 rs1 _ _)
        as [[[[ret game2] rs2] log2]| |] eqn:Hdig; [|done..].
      simpl. split; [done|]. intros s' [= <-]. simpl.
      destruct (dig_log_post _ _ _ _ _ g _ _ _ _ Hg1 Hdig) as [_ Hpost].
      destruct Hpost as [? ? _ Hg2 [Hlen _] _ _ _].
      split; [|done]. apply (wf_game_same game1); try done. congruence.
  - case_bool_decide.
    + rewrite wr_in_range by lia. done.
    + case_bool_decide; [done|]. rewrite wr_in_range by lia. done.
Qed.

Lemma dig_log_no_fault fuel :
  ∀ game rs row col,
    wf_game game = true → msw_dig_log fuel game rs row col ≠ Fault.
Proof.
  induction fuel as [|f IH]; intros game rs row col Hwf; [done|].
  destruct (grid game) as [g|] eqn:Hg;
    [by apply (dig_log_no_fault_grid f game rs row col g)|].
  destruct (msw_in_bounds game row col) eqn:Hb;
    [|by simpl; rewrite Hb].
  pose proof Hwf as Hwf'.
  apply wf_game_spec in Hwf' as (Hr & Hc & Hlv & _).
  destruct (msw_initial_grid f game row col rs) as [[game1 rs1]| |] eqn:Hgen.
  - rewrite (dig_log_first f game rs row col game1 rs1 Hg Hb Hgen).
    apply initial_grid_post in Hgen as (g & -> & Hl & _); [|done..].
    apply (dig_log_no_fault_grid f _ _ _ _ g); [done| |done].
    apply wf_game_spec. simpl. split_and!; try done.
    intros g' [= <-]. done.
  - exfalso. revert Hgen. by apply initial_grid_no_fault.
  - simpl. rewrite Hb, Hg. simpl. by rewrite Hgen.
Qed.

End NoFault.

(** X20: a dig is memory safe.  On a well-formed game, with or without a
    grid, a dig at whatever coordinates, with whatever budget and whatever
    answers of [rand()], never reads or writes outside the two arrays, never
    reads through the null grid and never divides by zero: it returns, or
    it is still running when the budget or the random numbers are used
    up. *)
Theorem dig_never_faults `{H : msw_header} {Hok : msw_header_ok H}
  fuel game rs row col :
  wf_game game = true →
  (∃ ret game' rs', msw_dig fuel game rs row col = Ok (ret, game', rs')) ∨
  msw_dig fuel game rs row col = NoFuel.
Proof.
  intros Hwf. rewrite dig_erase.
  pose proof (dig_log_no_fault fuel game rs row col Hwf) as Hnf.
  destruct (msw_dig_log fuel game rs row col)
    as [[[[ret game'] rs'] log]| |]; [|done|by right].
  left. by exists ret, game', rs'.
Qed.

Lemma dig_never_faults_witness :
  (∃ ret game' rs',
     @msw_dig ascii_header 9 small_fresh [0%N; 3%N] 1 1
     = Ok (ret, game', rs')) ∨
  @msw_dig ascii_header 9 small_fresh [0%N; 3%N] 1 1 = NoFuel.
Proof.
  apply (@dig_never_faults ascii_header ascii_header_ok 9 small_fresh
           [0%N; 3%N] 1 1).
  reflexivity.
Defined.
